(** * A shallow embedding of the Google Maps scraper (server and its older variant)

    The development follows the JavaScript sources function by function:
    - [Js]      the string primitives and the regular expressions the code uses;
    - [Dom]     rendered-page state as the in-page code observes it;
    - [Server]  the serverless variant: [collectListingUrls],
                [extractBusinessDetails], [scrapeGoogleMaps], the [/api/scrape]
                handler and the two export encoders;
    - [CorrectCode] the parts of the older variant that differ (its listing loop
                and its CSV encoder).

    Text is modelled as [string], one [ascii] per code unit below 256. *)

From Stdlib Require Import ZArith Ascii String.
From Stdlib Require Import Sorted.
From stdpp Require Import gmap strings list fin_maps.
From Equations Require Import Equations.

Local Open Scope string_scope.
Local Open Scope Z_scope.

(** ** JavaScript strings and regular expressions *)

Module Js.

(** White space and line terminators, as [String.prototype.trim] and the
    class [\s] see them, restricted to code units below 256. *)
Definition is_whitespace (c : ascii) : bool :=
  let n := nat_of_ascii c in
  (Nat.leb 9 n && Nat.leb n 13) || Nat.eqb n 32 || Nat.eqb n 160.

Definition is_digit (c : ascii) : bool :=
  let n := nat_of_ascii c in Nat.leb 48 n && Nat.leb n 57.

(** The class [\w]: letters, digits and the underscore. *)
Definition is_word (c : ascii) : bool :=
  let n := nat_of_ascii c in
  (Nat.leb 48 n && Nat.leb n 57) || (Nat.leb 65 n && Nat.leb n 90)
  || (Nat.leb 97 n && Nat.leb n 122) || Nat.eqb n 95.

(** Canonicalisation under the [i] flag. Only ASCII letters fold; a code
    unit from 128 up never folds onto an ASCII one. *)
Definition canonicalize (c : ascii) : ascii :=
  let n := nat_of_ascii c in
  if Nat.leb 97 n && Nat.leb n 122 then ascii_of_nat (n - 32) else c.

Fixpoint trimStart (s : string) : string :=
  match s with
  | EmptyString => EmptyString
  | String c s' => if is_whitespace c then trimStart s' else s
  end.

(** [trimEnd] keeps a character when it is not white space or when
    something is kept after it. *)
Fixpoint trimEnd (s : string) : string :=
  match s with
  | EmptyString => EmptyString
  | String c s' =>
      match trimEnd s' with
      | EmptyString => if is_whitespace c then EmptyString else String c EmptyString
      | t => String c t
      end
  end.

Definition trim (s : string) : string := trimEnd (trimStart s).

Fixpoint startsWith (s p : string) : bool :=
  match p, s with
  | EmptyString, _ => true
  | String _ _, EmptyString => false
  | String a p', String b s' => if Ascii.eqb a b then startsWith s' p' else false
  end.

Fixpoint includes (s p : string) : bool :=
  if startsWith s p then true
  else match s with
       | EmptyString => false
       | String _ s' => includes s' p
       end.

Fixpoint str_drop (n : nat) (s : string) : string :=
  match n, s with
  | O, _ => s
  | S _, EmptyString => EmptyString
  | S n', String _ s' => str_drop n' s'
  end.

Fixpoint str_take (n : nat) (s : string) : string :=
  match n, s with
  | O, _ => EmptyString
  | S _, EmptyString => EmptyString
  | S n', String c s' => String c (str_take n' s')
  end.

(** [s.replace(p, r)] with a string pattern: the first occurrence only. *)
Fixpoint replace (s p r : string) : string :=
  if startsWith s p then r ++ str_drop (String.length p) s
  else match s with
       | EmptyString => EmptyString
       | String c s' => String c (replace s' p r)
       end.

(** [s.split(sep)[0]] for a non-empty separator: the text before the first
    occurrence of [sep], the whole of [s] when there is none. *)
Fixpoint split_head (s sep : string) : string :=
  if startsWith s sep then EmptyString
  else match s with
       | EmptyString => EmptyString
       | String c s' => String c (split_head s' sep)
       end.

Fixpoint join (sep : string) (l : list string) : string :=
  match l with
  | [] => EmptyString
  | [x] => x
  | x :: rest => x ++ sep ++ join sep rest
  end.

(** Truthiness of a string value: the empty string is falsy. *)
Definition truthy (s : string) : bool :=
  match s with EmptyString => false | _ => true end.

(** Truthiness of a value that may be [null] or [undefined]. *)
Definition truthy_opt (o : option string) : bool :=
  match o with Some s => truthy s | None => false end.

(** *** A backtracking matcher for the patterns of the source *)

Inductive Regex : Type :=
| Chr (p : ascii -> bool)      (* one code unit satisfying [p] *)
| Seq (a b : Regex)
| Opt (a : Regex)              (* greedy [a?] *)
| Star (a : Regex)             (* greedy [a*] *)
| Group (a : Regex)            (* the capturing group of the pattern *)
| Bol                          (* [^] *)
| Eol.                         (* [$] *)

Record MatchState : Type := mkMatchState {
  at_start : bool;             (* the position is index 0 of the subject *)
  input : string;              (* what is left of the subject *)
  capture : option string      (* group 1, once it has closed *)
}.

Definition consumed (x y : MatchState) : string :=
  str_take (String.length (input x) - String.length (input y)) (input x).

Definition progressed (x y : MatchState) : bool :=
  Nat.ltb (String.length (input y)) (String.length (input x)).

(** Continuation-passing matcher. A quantifier refuses an iteration that
    consumes nothing, as the language's RepeatMatcher does. *)
Fixpoint matcher (r : Regex) (x : MatchState)
    (k : MatchState -> option MatchState) : option MatchState :=
  match r with
  | Chr p =>
      match input x with
      | String c rest =>
          if p c then k (mkMatchState false rest (capture x)) else None
      | EmptyString => None
      end
  | Seq a b => matcher a x (fun y => matcher b y k)
  | Opt a =>
      match matcher a x (fun y => if progressed x y then k y else None) with
      | Some z => Some z
      | None => k x
      end
  | Star a =>
      (fix iterate (fuel : nat) (x : MatchState) : option MatchState :=
         match fuel with
         | O => k x
         | S fuel' =>
             match matcher a x
                     (fun y => if progressed x y then iterate fuel' y else None) with
             | Some z => Some z
             | None => k x
             end
         end) (String.length (input x)) x
  | Group a =>
      matcher a x
        (fun y => k (mkMatchState (at_start y) (input y) (Some (consumed x y))))
  | Bol => if at_start x then k x else None
  | Eol => match input x with EmptyString => k x | _ => None end
  end.

(** The result of [subject.match(re)] without the [g] flag: the matched
    text and group 1, for the leftmost start index that matches. *)
Record MatchResult : Type := mkMatchResult {
  whole : string;
  group1 : option string
}.

Fixpoint search_from (r : Regex) (start : bool) (s : string) : option MatchResult :=
  let x := mkMatchState start s None in
  match matcher r x Some with
  | Some y => Some (mkMatchResult (consumed x y) (capture y))
  | None =>
      match s with
      | EmptyString => None
      | String _ s' => search_from r false s'
      end
  end.

Definition match_ (s : string) (r : Regex) : option MatchResult :=
  search_from r true s.

Definition test (r : Regex) (s : string) : bool :=
  match match_ s r with Some _ => true | None => false end.

Fixpoint seq_all (l : list Regex) : Regex :=
  match l with
  | [] => Opt Bol              (* matches the empty string *)
  | [a] => a
  | a :: rest => Seq a (seq_all rest)
  end.

Definition plus (a : Regex) : Regex := Seq a (Star a).
Definition digit : Regex := Chr is_digit.
Definition space : Regex := Chr is_whitespace.
Definition lit (c : ascii) : Regex := Chr (Ascii.eqb c).
Definition lit_i (c : ascii) : Regex :=
  Chr (fun d => Ascii.eqb (canonicalize d) (canonicalize c)).

Fixpoint word_i (s : string) : list Regex :=
  match s with
  | EmptyString => []
  | String c s' => lit_i c :: word_i s'
  end.

(** The pattern [\d{1,3} (?: , \d{3} )* ], written here with blanks between
    its tokens. *)
Definition grouped_integer : Regex :=
  Seq (Seq digit (Opt (Seq digit (Opt digit))))
      (Star (seq_all [lit ","; digit; digit; digit])).

(** [/^\d(\.\d)?$/] *)
Definition re_rating : Regex :=
  seq_all [Bol; digit; Opt (Group (Seq (lit ".") digit)); Eol].

(** The pattern [/ ( \d{1,3} (?: , \d{3} )* ) \s* reviews? /i]. *)
Definition re_count_reviews : Regex :=
  seq_all ([Group grouped_integer; Star space] ++ word_i "review" ++ [Opt (lit_i "s")]).

(** The pattern [/ reviews? [^0-9]* ( \d{1,3} (?: , \d{3} )* ) /i]. *)
Definition re_reviews_count : Regex :=
  seq_all (word_i "review"
           ++ [Opt (lit_i "s"); Star (Chr (fun c => negb (is_digit c)));
               Group grouped_integer]).

(** [/[\w.-]+@[\w.-]+\.\w+/] *)
Definition email_atom (c : ascii) : bool :=
  is_word c || Ascii.eqb c "." || Ascii.eqb c "-".
Definition emailRegex : Regex :=
  seq_all [plus (Chr email_atom); lit "@"; plus (Chr email_atom); lit ".";
           plus (Chr is_word)].

(** The patterns [/ Category: \s* ( [^.,;]+ ) /i] and [/ Type: \s* ( [^.,;]+ ) /i]. *)
Definition not_separator (c : ascii) : bool :=
  negb (Ascii.eqb c "." || Ascii.eqb c "," || Ascii.eqb c ";").
Definition re_prefixed (label : string) : Regex :=
  seq_all (word_i label ++ [Star space; Group (plus (Chr not_separator))]).
Definition re_category : Regex := re_prefixed "Category:".
Definition re_type : Regex := re_prefixed "Type:".

(** [/^\d/] *)
Definition re_leading_digit : Regex := Seq Bol digit.

(** [parseFloat(text) <= 5] on the texts the source applies it to, those that
    passed [/^\d(\.\d)?$/]: the value in tenths. Any other text gives [None],
    standing for a comparison the source never reaches. *)
Definition digit_value (c : ascii) : Z := Z.of_nat (nat_of_ascii c) - 48.

Definition parseFloat_tenths (s : string) : option Z :=
  match s with
  | String d EmptyString =>
      if is_digit d then Some (10 * digit_value d) else None
  | String d (String dot (String f EmptyString)) =>
      if is_digit d && Ascii.eqb dot "." && is_digit f
      then Some (10 * digit_value d + digit_value f) else None
  | _ => None
  end.

Definition parseFloat_le_5 (s : string) : bool :=
  match parseFloat_tenths s with
  | Some t => t <=? 50
  | None => false
  end.

End Js.

(** ** Rendered-page state *)

Module Dom.

(** The value of the [href] property as the in-page code reads it:
    [undefined] on an element that has none, a string on an HTML link, and
    an object (an [SVGAnimatedString]) on an SVG link. The object is truthy
    and has none of the methods of a string. *)
Inductive Href : Type :=
| NoHref
| StringHref (url : string)
| ObjectHref.

(** A DOM element as the in-page code reads it; [closest] is [None] for
    [null]. *)
#[local] Unset Elimination Schemes.
Inductive Element : Type := mkElement {
  textContent : string;
  href : Href;
  getAttribute : string -> option string;
  querySelectorAll : string -> list Element;
  closest : string -> option Element
}.
#[local] Set Elimination Schemes.

Definition querySelector (e : Element) (selector : string) : option Element :=
  head (querySelectorAll e selector).

(** The document of one page at the time of one [page.evaluate] call.
    [body_innerText] is [None] when [document.body] is [null]. *)
Record Document : Type := mkDocument {
  doc_querySelectorAll : string -> list Element;
  body_innerText : option string
}.

Inductive Exn : Type :=
| TypeError (what : string)
| DriverError (what : string).

Inductive Res (A : Type) : Type :=
| Ok (a : A)
| Throw (e : Exn).
Arguments Ok {A} a.
Arguments Throw {A} e.

(** What a piece of in-page code asked of the document, in order. *)
Inductive Event : Type :=
| Query (selector : string)        (* document.querySelector *)
| QueryAll (selector : string)     (* document.querySelectorAll *)
| BodyText.                        (* document.body.innerText *)

(** In-page evaluation: the queries made so far and a value or an exception. *)
Definition Eval (A : Type) : Type := (list Event * Res A)%type.

#[export] Instance Eval_ret : MRet Eval := fun A a => ([], Ok a).

#[export] Instance Eval_bind : MBind Eval := fun A B f m =>
  match m with
  | (t, Ok a) => let '(t', r) := f a in ((t ++ t')%list, r)
  | (t, Throw e) => (t, Throw e)
  end.

Definition trace {A : Type} (m : Eval A) : list Event := fst m.
Definition result {A : Type} (m : Eval A) : Res A := snd m.

Definition document_querySelectorAll (doc : Document) (selector : string)
    : Eval (list Element) :=
  ([QueryAll selector], Ok (doc_querySelectorAll doc selector)).

Definition document_querySelector (doc : Document) (selector : string)
    : Eval (option Element) :=
  ([Query selector], Ok (head (doc_querySelectorAll doc selector))).

(** Reading a property of [null]. *)
Definition null_body : Exn :=
  TypeError "Cannot read properties of null (reading 'innerText')".

Definition document_body_innerText (doc : Document) : Eval string :=
  match body_innerText doc with
  | Some text => ([BodyText], Ok text)
  | None => ([BodyText], Throw null_body)
  end.

(** Calling a string method on a value that has none. *)
Definition not_a_function (method : string) : Exn :=
  TypeError (method ++ " is not a function").

(** A value or an exception that asks nothing of the document. *)
Definition lift {A : Type} (r : Res A) : Eval A := ([], r).

End Dom.

(** ** The serverless variant *)

Module Server.
Import Js Dom.

(** The sentinel of an unresolved field. *)
Definition NA : string := "N/A".

Definition newline : string := String (ascii_of_nat 10) EmptyString.

(** [details.key === text]; a property that is not set compares unequal. *)
Definition prop_is (details : gmap string string) (key text : string) : bool :=
  bool_decide (details !! key = Some text).

(** *** [extractBusinessDetails]: the code run inside [page.evaluate]

    Selectors are opaque keys of the page model. They are the source's,
    with attribute values in single quotes where the source has double
    ones (the same CSS selector). *)

Definition nameSelectors : list string :=
  [ "h1.fontHeadlineLarge";
    "div[role='main'] div[role='heading']";
    "h1.DUwDvf";
    "h1.x3AX1-LfntMc-header-title-title";
    "div.x3AX1-LfntMc-header-title-title";
    "div.qBF1Pd-haAclf" ].

Fixpoint name_loop (doc : Document) (selectors : list string)
    (details : gmap string string) : Eval (gmap string string) :=
  match selectors with
  | [] => mret details
  | selector :: rest =>
      nameElement ← document_querySelector doc selector;
      match nameElement with
      | Some e => mret (<["name" := trim (textContent e)]> details)
      | None => name_loop doc rest details
      end
  end.

Definition addressSelectors : list string :=
  [ "button[data-item-id='address']";
    "button[jsaction*='address']";
    "button[aria-label*='Address']";
    "button.CsEnBe[aria-label]";
    "div[role='button'][aria-label*='Address']" ].

(** What the loop assigns, in either branch, once an element is located. *)
Definition address_text (addressElement : Element) : string :=
  match querySelector addressElement ".Io6YTe" with
  | Some addressDiv => trim (textContent addressDiv)
  | None => trim (textContent addressElement)
  end.

Fixpoint address_loop (doc : Document) (selectors : list string)
    (details : gmap string string) : Eval (gmap string string) :=
  match selectors with
  | [] => mret details
  | selector :: rest =>
      addressElement ← document_querySelector doc selector;
      match addressElement with
      | Some e => mret (<["address" := address_text e]> details)
      | None => address_loop doc rest details
      end
  end.

Definition phoneSelectors : list string :=
  [ "button[data-item-id^='phone:tel:']";
    "button[aria-label*='Phone']";
    "div[role='button'][aria-label*='Phone']";
    "a[data-item-id^='phone']";
    "a[href^='tel:']" ].

(** [e.href && p(e.href)], where [p] calls the string method [method] on
    the value: the [href] when it is a non-empty string of which [p] holds.
    A truthy [href] that is not a string has no such method, and the call
    throws. *)
Definition href_satisfies (e : Element) (method : string) (p : string -> bool)
    : Res (option string) :=
  match href e with
  | NoHref => Ok None
  | StringHref h => Ok (if truthy h && p h then Some h else None)
  | ObjectHref => Throw (not_a_function method)
  end.

(** What the loop assigns, in any of its three branches, once an element
    is located; or the exception of the [href] test. *)
Definition phone_text (phoneElement : Element) : Res string :=
  match querySelector phoneElement ".Io6YTe" with
  | Some phoneDiv => Ok (trim (textContent phoneDiv))
  | None =>
      match href_satisfies phoneElement "phoneElement.href.startsWith"
              (fun h => startsWith h "tel:") with
      | Throw e => Throw e
      | Ok (Some h) => Ok (replace h "tel:" EmptyString)
      | Ok None => Ok (trim (textContent phoneElement))
      end
  end.

Fixpoint phone_loop (doc : Document) (selectors : list string)
    (details : gmap string string) : Eval (gmap string string) :=
  match selectors with
  | [] => mret details
  | selector :: rest =>
      phoneElement ← document_querySelector doc selector;
      match phoneElement with
      | Some e =>
          phone ← lift (phone_text e);
          mret (<["phone" := phone]> details)
      | None => phone_loop doc rest details
      end
  end.

Definition websiteSelectors : list string :=
  [ "a[data-item-id='authority']";
    "a[aria-label*='website']";
    "a[aria-label*='Website']";
    "a[href^='https://'][data-item-id]";
    "div[role='button'][aria-label*='website']" ].

Definition website_text (websiteElement : Element) : Res string :=
  match querySelector websiteElement ".Io6YTe" with
  | Some websiteDiv => Ok (trim (textContent websiteDiv))
  | None =>
      match href_satisfies websiteElement "websiteElement.href.includes"
              (fun h => negb (includes h "google.com")) with
      | Throw e => Throw e
      | Ok (Some h) => Ok h
      | Ok None => Ok (trim (textContent websiteElement))
      end
  end.

Fixpoint website_loop (doc : Document) (selectors : list string)
    (details : gmap string string) : Eval (gmap string string) :=
  match selectors with
  | [] => mret details
  | selector :: rest =>
      websiteElement ← document_querySelector doc selector;
      match websiteElement with
      | Some e =>
          website ← lift (website_text e);
          mret (<["website" := website]> details)
      | None => website_loop doc rest details
      end
  end.

Definition ratingSelectors : list string :=
  [ "span.ceJTW";
    "span.ODSEW-ShBeI-H1e3jb";
    "span[aria-hidden='true'][role='img']";
    "div.F7nice";
    "span.iRCJncVPvXIc4GMcvvB9" ].

(** The guarded part of one pass of the rating loop: the text it assigns,
    or [None] when the pass falls through to the next selector. *)
Definition rating_text (ratingElement : option Element) : option string :=
  match ratingElement with
  | Some e =>
      if truthy (textContent e) then
        let ratingText := trim (textContent e) in
        match match_ ratingText re_rating with
        | Some _ => Some ratingText
        | None => None
        end
      else None
  | None => None
  end.

(** Method 1 of the rating: the first container whose trimmed text passes
    the pattern; a container that fails it does not stop the loop. *)
Fixpoint rating_loop (doc : Document) (selectors : list string)
    (details : gmap string string) : Eval (gmap string string) :=
  match selectors with
  | [] => mret details
  | selector :: rest =>
      ratingElement ← document_querySelector doc selector;
      match rating_text ratingElement with
      | Some ratingText => mret (<["rating" := ratingText]> details)
      | None => rating_loop doc rest details
      end
  end.

(** The predicate of [ratingSpans.find] in method 2. *)
Definition is_rating_span (span : Element) : bool :=
  let text := trim (textContent span) in
  Nat.leb (String.length text) 3 && test re_rating text && parseFloat_le_5 text.

Definition rating_method2 (doc : Document) (details : gmap string string)
    : Eval (gmap string string) :=
  if prop_is details "rating" NA then
    ratingSpans ← document_querySelectorAll doc "span";
    match List.find is_rating_span ratingSpans with
    | Some ratingSpan => mret (<["rating" := trim (textContent ratingSpan)]> details)
    | None => mret details
    end
  else mret details.

(** [m && m[1]] for the result of a [match]. *)
Definition captured (m : option MatchResult) : option string :=
  match m with
  | Some r => match group1 r with
              | Some g => if truthy g then Some g else None
              | None => None
              end
  | None => None
  end.

Fixpoint reviews_loop (containers : list Element) (details : gmap string string)
    : gmap string string :=
  match containers with
  | [] => details
  | container :: rest =>
      match captured (match_ (textContent container) re_count_reviews) with
      | Some g => <["reviews" := g]> details
      | None => reviews_loop rest details
      end
  end.

Fixpoint first_captured (matches : list (option MatchResult)) : option string :=
  match matches with
  | [] => None
  | m :: rest =>
      match captured m with
      | Some g => Some g
      | None => first_captured rest
      end
  end.

Definition reviews_method2 (doc : Document) (details : gmap string string)
    : Eval (gmap string string) :=
  if prop_is details "reviews" NA then
    pageText ← document_body_innerText doc;
    let reviewsMatches :=
      [ match_ pageText re_count_reviews; match_ pageText re_reviews_count ] in
    match first_captured reviewsMatches with
    | Some g => mret (<["reviews" := g]> details)
    | None => mret details
    end
  else mret details.

Definition hoursTableSelectors : list string :=
  [ "table.eK4R0e"; "table.WgFkxc"; "div[role='region'][aria-label*='hour']" ].

(** [row.querySelector(sel)?.textContent.trim()] *)
Definition cell_text (row : Element) (selector : string) : option string :=
  match querySelector row selector with
  | Some c => Some (trim (textContent c))
  | None => None
  end.

(** One step of [rows.forEach] over the pair ([hoursData], [foundHours]). *)
Definition hours_row (acc : list string * bool) (row : Element) : list string * bool :=
  let day := cell_text row ".ylH6lf, .x4hIce" in
  let hours := cell_text row ".mxowUb, .G8aQO" in
  match day, hours with
  | Some d, Some h =>
      if truthy d && truthy h
      then ((fst acc ++ [(d ++ ": " ++ h)%string])%list, true)
      else acc
  | _, _ => acc
  end.

(** The state of the hours search: [details], [hoursData], [foundHours]. *)
Fixpoint hours_table_loop (doc : Document) (selectors : list string)
    (details : gmap string string) (acc : list string * bool)
    : Eval (gmap string string * bool) :=
  match selectors with
  | [] => mret (details, snd acc)
  | selector :: rest =>
      hoursTable ← document_querySelector doc selector;
      match hoursTable with
      | Some table =>
          let rows := querySelectorAll table "tr.y0skZc, tr" in
          let acc' := fold_left hours_row rows acc in
          if snd acc'
          then mret (<["hours" := join "; " (fst acc')]> details, true)
          else hours_table_loop doc rest details acc'
      | None => hours_table_loop doc rest details acc
      end
  end.

Definition hoursSelectors : list string :=
  [ ".OMl5r"; ".VaxuYe"; ".G8aQO"; "[aria-label*='hour']" ].

Fixpoint hours_section_loop (doc : Document) (selectors : list string)
    (details : gmap string string) : Eval (gmap string string * bool) :=
  match selectors with
  | [] => mret (details, false)
  | selector :: rest =>
      hoursSection ← document_querySelector doc selector;
      match hoursSection with
      | Some e => mret (<["hours" := trim (textContent e)]> details, true)
      | None => hours_section_loop doc rest details
      end
  end.

Definition extract_hours (doc : Document) (details : gmap string string)
    : Eval (gmap string string) :=
  '(details, foundHours) ← hours_table_loop doc hoursTableSelectors details ([], false);
  '(details, foundHours) ←
      (if negb foundHours
       then hours_section_loop doc hoursSelectors details
       else mret (details, foundHours));
  if negb foundHours then mret (<["hours" := NA]> details) else mret details.

Definition categorySelectors : list string :=
  [ "a.CsEnBe";
    "button[jsaction*='pane.rating.category']";
    "button.DkEaL";
    "span[jsaction*='category']";
    "button[aria-label*='categor']" ].

Definition category_accepts (details : gmap string string) (text : string) : bool :=
  truthy text && Nat.ltb (String.length text) 30
  && negb (includes text "http") && negb (includes text "@")
  && negb (test re_leading_digit text)
  && negb (String.eqb text "Menu") && negb (prop_is details "website" text)
  && negb (includes text "Phone:").

(** One step of [elements.forEach]: an accepted text overwrites [category]. *)
Definition category_element (details : gmap string string) (category : string)
    (element : Element) : string :=
  let text := trim (textContent element) in
  if category_accepts details text then text else category.

Fixpoint category_loop (doc : Document) (selectors : list string)
    (details : gmap string string) (category : string) : Eval string :=
  match selectors with
  | [] => mret category
  | selector :: rest =>
      elements ← document_querySelectorAll doc selector;
      let category := fold_left (category_element details) elements category in
      if negb (String.eqb category NA) then mret category
      else category_loop doc rest details category
  end.

Definition category_method2 (pageText category : string) : string :=
  if String.eqb category NA then
    let categoryTextMatches :=
      [ match_ pageText re_category; match_ pageText re_type ] in
    match first_captured categoryTextMatches with
    | Some g => trim g
    | None => category
    end
  else category.

Definition attributeSelectors : list string :=
  [ ".RcCsl .AeaXub .Io6YTe span"; ".ggc0ld .Io6YTe"; ".q5X0Ue"; "div.PODJx" ].

Definition attribute_accepts (details : gmap string string) (category text : string)
    : bool :=
  truthy text && negb (prop_is details "name" text)
  && negb (prop_is details "address" text)
  && negb (prop_is details "phone" text) && negb (prop_is details "website" text)
  && negb (String.eqb text category) && Nat.ltb (String.length text) 50.

Definition attribute_element (details : gmap string string) (category : string)
    (attributes : list string) (attr : Element) : list string :=
  let text := trim (textContent attr) in
  if attribute_accepts details category text
  then (attributes ++ [text])%list else attributes.

(** The loop over [attributeSelectors] has no [break]: every selector is
    queried and what each one yields is added to [attributes]. *)
Fixpoint attributes_loop (doc : Document) (selectors : list string)
    (details : gmap string string) (category : string) (attributes : list string)
    : Eval (list string) :=
  match selectors with
  | [] => mret attributes
  | selector :: rest =>
      attributeElements ← document_querySelectorAll doc selector;
      attributes_loop doc rest details category
        (fold_left (attribute_element details category) attributeElements attributes)
  end.

Definition priceSelectors : list string :=
  [ ".MNVeJb"; "span.mgr77e"; "span[aria-label*='Price']" ].

Definition price_text (priceElement : Element) : string :=
  trim (split_head (trim (textContent priceElement)) "Reported by").

Fixpoint price_loop (doc : Document) (selectors : list string)
    (details : gmap string string) : Eval (gmap string string) :=
  match selectors with
  | [] => mret details
  | selector :: rest =>
      priceElement ← document_querySelector doc selector;
      match priceElement with
      | Some e => mret (<["priceRange" := price_text e]> details)
      | None => price_loop doc rest details
      end
  end.

Definition extractBusinessDetails (doc : Document) : Eval (gmap string string) :=
  let details : gmap string string := ∅ in
  details ← name_loop doc nameSelectors details;
  let details := <["address" := NA]> details in
  details ← address_loop doc addressSelectors details;
  let details := <["phone" := NA]> details in
  details ← phone_loop doc phoneSelectors details;
  let details := <["website" := NA]> details in
  details ← website_loop doc websiteSelectors details;
  let details := <["rating" := NA]> details in
  details ← rating_loop doc ratingSelectors details;
  details ← rating_method2 doc details;
  let details := <["reviews" := NA]> details in
  reviewContainers ←
    document_querySelectorAll doc "span.F7nice, div.F7nice, div.review-score";
  let details := reviews_loop reviewContainers details in
  details ← reviews_method2 doc details;
  details ← extract_hours doc details;
  pageText ← document_body_innerText doc;
  let emailMatch := match_ pageText emailRegex in
  let details :=
    <["email" := match emailMatch with Some m => whole m | None => NA end]> details in
  category ← category_loop doc categorySelectors details NA;
  let category := category_method2 pageText category in
  let details := <["category" := category]> details in
  attributes ← attributes_loop doc attributeSelectors details category [];
  let details :=
    if Nat.ltb 0 (length attributes)
    then <["attributes" := join ", " attributes]> details
    else details in
  details ← price_loop doc priceSelectors details;
  mret details.

(** *** [collectListingUrls] *)

Record Listing : Type := mkListing { name : string; url : string }.

Definition listingLinkSelectors : list string :=
  [ "a.hfpxzc";
    ".Nv2PK a[href*='/maps/place/']";
    "div[role='article'] a[data-value]";
    "a[jsaction*='mouseup']";
    "a[aria-label][href*='/maps/place/']" ].

(** The first selector with at least one element decides [listingLinks]. *)
Fixpoint listingLinks_loop (doc : Document) (selectors : list string)
    : Eval (list Element) :=
  match selectors with
  | [] => mret []
  | selector :: rest =>
      elements ← document_querySelectorAll doc selector;
      if Nat.ltb 0 (length elements) then mret elements
      else listingLinks_loop doc rest
  end.

(** The name of a link: its label, else a nearby heading, else the first
    line of its text. [link.closest('div')] may be [null], and reading a
    property of it then throws. *)
Definition link_name (link : Element) : Res string :=
  let nearby :=
    match closest link "div" with
    | None => Throw (TypeError "Cannot read properties of null (reading 'querySelector')")
    | Some div =>
        match querySelector div "div[role='heading'], h3, h2, h1" with
        | Some nearbyHeading => Ok (trim (textContent nearbyHeading))
        | None =>
            let text :=
              if truthy (textContent link) then textContent link
              else textContent div in
            Ok (trim (split_head (trim text) newline))
        end
    end in
  match getAttribute link "aria-label" with
  | Some label => if truthy label then Ok label else nearby
  | None => nearby
  end.

(** One step of [listingLinks.forEach]. The test is
    [url && name && url.includes('/maps/place/')]: with a name, a truthy
    [href] that is not a string reaches the call of [includes], which
    throws. *)
Definition harvest_link (results : list Listing) (link : Element)
    : Res (list Listing) :=
  match link_name link with
  | Throw e => Throw e
  | Ok name =>
      match href link with
      | StringHref url =>
          if truthy url && truthy name && includes url "/maps/place/"
          then Ok (results ++ [mkListing name url])%list
          else Ok results
      | ObjectHref =>
          if truthy name then Throw (not_a_function "url.includes")
          else Ok results
      | NoHref => Ok results
      end
  end.

Fixpoint harvest_links (links : list Element) (results : list Listing)
    : Res (list Listing) :=
  match links with
  | [] => Ok results
  | link :: rest =>
      match harvest_link results link with
      | Ok results' => harvest_links rest results'
      | Throw e => Throw e
      end
  end.

(** The function passed to [page.evaluate] in the discovery loop. *)
Definition harvest (doc : Document) : Eval (list Listing) :=
  listingLinks ← listingLinks_loop doc listingLinkSelectors;
  ([], harvest_links listingLinks []).

(** [listingUrls.some(existing => existing.url === item.url)] *)
Definition url_known (listingUrls : list Listing) (item : Listing) : bool :=
  existsb (fun existing => String.eqb (url existing) (url item)) listingUrls.

(** The loop that adds new unique URLs, on ([listingUrls], [addedNewUrls]);
    it stops as soon as the collection has reached [limit]. *)
Fixpoint add_new (limit : Z) (newUrls listingUrls : list Listing)
    (addedNewUrls : bool) : list Listing * bool :=
  match newUrls with
  | [] => (listingUrls, addedNewUrls)
  | item :: rest =>
      if negb (url_known listingUrls item) then
        let listingUrls := (listingUrls ++ [item])%list in
        if limit <=? Z.of_nat (length listingUrls) then (listingUrls, true)
        else add_new limit rest listingUrls true
      else add_new limit rest listingUrls addedNewUrls
  end.

(** [array.slice(0, end)] for an integer [end]. *)
Definition slice0 {A : Type} (end_ : Z) (l : list A) : list A :=
  if end_ <? 0
  then take (Z.to_nat (Z.max (Z.of_nat (length l) + end_) 0)) l
  else take (Z.to_nat end_) l.

Definition maxScrollAttempts : nat := 30.
Definition maxConsecutiveNoNewUrls : nat := 5.

Definition inspect {A : Type} (a : A) : { b : A | a = b } := exist _ a eq_refl.

(** The results page is driven through an opaque handle: waiting and
    scrolling change what the next evaluation sees, in ways only the
    browser decides. *)
Section Discovery.
Context {Page : Type}.
Variable waitForTimeout : Z -> Page -> Page.
Variable document : Page -> Document.
Variable improvedAutoScroll : Page -> Page.

Record LoopState : Type := mkLoopState {
  listingUrls : list Listing;
  scrollAttempts : nat;
  consecutiveNoNewUrls : nat;
  page : Page
}.

Definition loop_cond (limit : Z) (st : LoopState) : bool :=
  (Z.of_nat (length (listingUrls st)) <? limit)
  && Nat.ltb (scrollAttempts st) maxScrollAttempts
  && Nat.ltb (consecutiveNoNewUrls st) maxConsecutiveNoNewUrls.

Definition loop_body (limit : Z) (st : LoopState) : Res LoopState :=
  let page := waitForTimeout 2000 (page st) in
  match result (harvest (document page)) with
  | Throw e => Throw e
  | Ok newUrls =>
      let '(listingUrls, addedNewUrls) :=
        add_new limit newUrls (listingUrls st) false in
      let consecutiveNoNewUrls :=
        if addedNewUrls then O else S (consecutiveNoNewUrls st) in
      if Z.of_nat (length listingUrls) <? limit then
        let page := improvedAutoScroll page in
        let scrollAttempts := S (scrollAttempts st) in
        let waitTime := 3000 + Z.of_nat scrollAttempts * 500 in
        let page := waitForTimeout waitTime page in
        Ok (mkLoopState listingUrls scrollAttempts consecutiveNoNewUrls page)
      else
        Ok (mkLoopState listingUrls (scrollAttempts st) consecutiveNoNewUrls page)
  end.

(** What is left to run: nothing once the condition fails, else the
    scroll attempts still allowed. *)
Definition loop_measure (limit : Z) (st : LoopState) : nat :=
  if loop_cond limit st then S (maxScrollAttempts - scrollAttempts st) else O.

(** Counts one more executed loop body. *)
Definition tick {A : Type} (r : nat * A) : nat * A := (S (fst r), snd r).

(** The [while] loop. Next to its outcome it returns the number of times
    the body was entered (a ghost counter, not a variable of the source). *)
Equations? discovery_loop (limit : Z) (st : LoopState) : nat * Res LoopState
  by wf (loop_measure limit st) lt :=
  discovery_loop limit st with inspect (loop_cond limit st) := {
    | exist _ false _ => (O, Ok st);
    | exist _ true Hcond with inspect (loop_body limit st) := {
        | exist _ (Throw e) _ => (1%nat, Throw e);
        | exist _ (Ok st') Hbody => tick (discovery_loop limit st') } }.
Proof.
  unfold loop_measure. rewrite Hcond.
  unfold loop_body in Hbody.
  destruct (result (harvest (document (waitForTimeout 2000 (page st)))));
    [| discriminate].
  destruct (add_new limit a (listingUrls st) false) as [urls added].
  destruct (Z.of_nat (length urls) <? limit) eqn:Hlen;
    injection Hbody as <-; unfold loop_cond in *; simpl in *.
  - rewrite Hlen. simpl.
    apply andb_prop in Hcond as [Hcond _]. apply andb_prop in Hcond as [_ Hsa].
    apply Nat.ltb_lt in Hsa. unfold maxScrollAttempts in *.
    destruct (_ && _); lia.
  - rewrite Hlen. simpl. lia.
Qed.

Definition initial_state (page : Page) : LoopState := mkLoopState [] O O page.

Definition collectListingUrls (page : Page) (limit : Z) : Res (list Listing) :=
  match snd (discovery_loop limit (initial_state page)) with
  | Ok st => Ok (slice0 limit (listingUrls st))
  | Throw e => Throw e
  end.

(** How many times [collectListingUrls] runs the body of its loop. *)
Definition discovery_iterations (page : Page) (limit : Z) : nat :=
  fst (discovery_loop limit (initial_state page)).

End Discovery.

(** *** [scrapeGoogleMaps] *)

(** The browser session as the driver keeps it: whether the process runs,
    the handles of the pages that are open, and the next fresh handle. *)
Record Browser : Type := mkBrowser {
  running : bool;
  open_pages : list nat;
  next_handle : nat
}.

(** The kinds of driver call the function makes. *)
Inductive Call : Type :=
| CLaunch | CNewPage | CSetUserAgent | CSetExtraHTTPHeaders
| CSetRequestInterception | CGoto | CWaitForSelector | CType | CRandomDelay
| CPressEnter | CWaitForTimeout | CEvaluate | CClosePage.

(** Where a call is made: in the search phase, or in the visit of the
    listing with a given index. Each kind occurs once per scope. *)
Inductive Scope : Type :=
| Session
| Visit (i : nat).

(** What the loop over the listings has in hand: the session and the
    records pushed so far. *)
Record ScrapeState : Type := mkScrapeState {
  browser : Browser;
  detailedData : list (gmap string string)
}.

Definition Run (A : Type) : Type := ScrapeState -> ScrapeState * Res A.

#[export] Instance Run_ret : MRet Run := fun A a s => (s, Ok a).

#[export] Instance Run_bind : MBind Run := fun A B f m s =>
  match m s with
  | (s', Ok a) => f a s'
  | (s', Throw e) => (s', Throw e)
  end.

(** [try { body } catch (error) { log; continue }]: the exception is
    dropped, what the body did before it stays done. *)
Definition try_continue (body : Run unit) : Run unit := fun s =>
  (fst (body s), Ok tt).

Definition close_browser (b : Browser) : Browser :=
  mkBrowser false [] (next_handle b).

(** [{ name, ...detailedInfo }] *)
Definition merge_record (name : string) (detailedInfo : gmap string string)
    : gmap string string :=
  detailedInfo ∪ {[ "name" := name ]}.

Section Scrape.
(** The outside world of one scrape: which driver calls throw, the
    results page, and the document each listing page shows when it is
    evaluated. *)
Variable fails : Scope -> Call -> bool.
Context {Page : Type}.
Variable waitForTimeout : Z -> Page -> Page.
Variable document : Page -> Document.
Variable improvedAutoScroll : Page -> Page.
Variable results_page : Page.
Variable detail_document : nat -> string -> Document.

Definition call (scope : Scope) (c : Call) : Run unit := fun s =>
  if fails scope c then (s, Throw (DriverError "driver call failed"))
  else (s, Ok tt).

Definition newPage (scope : Scope) : Run nat := fun s =>
  if fails scope CNewPage then (s, Throw (DriverError "newPage failed"))
  else
    let b := browser s in
    let handle := next_handle b in
    (mkScrapeState
       (mkBrowser (running b) (open_pages b ++ [handle]) (S handle))
       (detailedData s),
     Ok handle).

Definition closePage (scope : Scope) (handle : nat) : Run unit := fun s =>
  if fails scope CClosePage then (s, Throw (DriverError "close failed"))
  else
    let b := browser s in
    (mkScrapeState
       (mkBrowser (running b)
          (List.filter (fun h => negb (Nat.eqb h handle)) (open_pages b))
          (next_handle b))
       (detailedData s),
     Ok tt).

Definition evaluate_details (scope : Scope) (doc : Document)
    : Run (gmap string string) := fun s =>
  if fails scope CEvaluate then (s, Throw (DriverError "evaluate failed"))
  else (s, result (extractBusinessDetails doc)).

Definition push (record : gmap string string) : Run unit := fun s =>
  (mkScrapeState (browser s) (detailedData s ++ [record]), Ok tt).

(** The body of the [try] block for the listing at index [i]. *)
Definition visit_listing (i : nat) (listing : Listing) : Run unit :=
  let scope := Visit i in
  detailPage ← newPage scope;
  _ ← call scope CSetUserAgent;
  _ ← call scope CSetExtraHTTPHeaders;
  _ ← call scope CSetRequestInterception;
  _ ← call scope CGoto;
  _ ← call scope CWaitForTimeout;
  detailedInfo ← evaluate_details scope (detail_document i (url listing));
  _ ← push (merge_record (name listing) detailedInfo);
  _ ← closePage scope detailPage;
  call scope CRandomDelay.

(** The [for] loop over [listingUrls], from index [i] on. *)
Fixpoint listing_loop (i : nat) (listingUrls : list Listing) : Run unit :=
  match listingUrls with
  | [] => mret tt
  | listing :: rest =>
      _ ← try_continue (visit_listing i listing);
      listing_loop (S i) rest
  end.

Definition discover (limit : Z) : Run (list Listing) := fun s =>
  (s, collectListingUrls waitForTimeout document improvedAutoScroll
        results_page limit).

Definition collected : Run (list (gmap string string)) := fun s =>
  (s, Ok (detailedData s)).

(** The body of the outer [try], once the browser is launched. *)
Definition session (searchQuery : string) (limit : Z)
    : Run (list (gmap string string)) :=
  searchPage ← newPage Session;
  _ ← call Session CSetUserAgent;
  _ ← call Session CSetExtraHTTPHeaders;
  _ ← call Session CSetRequestInterception;
  _ ← call Session CGoto;
  _ ← call Session CWaitForSelector;
  _ ← call Session CType;
  _ ← call Session CRandomDelay;
  _ ← call Session CPressEnter;
  _ ← call Session CWaitForTimeout;
  listingUrls ← discover limit;
  _ ← listing_loop O listingUrls;
  collected.

(** [scrapeGoogleMaps]: the session as it is left, and the value returned
    or the exception thrown. The [finally] block closes the browser when
    there is one. *)
Definition scrapeGoogleMaps (searchQuery : string) (limit : Z)
    : Browser * Res (list (gmap string string)) :=
  if fails Session CLaunch
  then (mkBrowser false [] O, Throw (DriverError "launch failed"))
  else
    let '(s, r) :=
      session searchQuery limit (mkScrapeState (mkBrowser true [] O) []) in
    (close_browser (browser s), r).

(** *** The [/api/scrape] route *)

Record ScrapeRequest : Type := mkScrapeRequest {
  query : option string;
  location : option string;
  limit : option Z
}.

Inductive ResponseBody : Type :=
| Success (data : list (gmap string string))
| Failure (error : string).

Record Response : Type := mkResponse { status : nat; body : ResponseBody }.

Definition api_scrape (req : ScrapeRequest) : Response :=
  let limit := default 20 (limit req) in
  match query req, location req with
  | Some query, Some location =>
      if negb (truthy query) || negb (truthy location)
      then mkResponse 400 (Failure "Query and location are required")
      else
        let searchQuery := query ++ " in " ++ location in
        match snd (scrapeGoogleMaps searchQuery limit) with
        | Ok results => mkResponse 200 (Success results)
        | Throw _ => mkResponse 500 (Failure "Failed to scrape data")
        end
  | _, _ => mkResponse 400 (Failure "Query and location are required")
  end.

End Scrape.

(** *** The export encoders

    Both encoders hand a list of keys to a library that is not part of the
    repository (ExcelJS, json2csv). A sheet is modelled by its cells: one
    header row, then one row per record with the record's value under each
    key, in the order of the keys; a record without the key leaves the
    cell empty. *)

Record Column : Type := mkColumn { header : string; key : string; width : nat }.

Definition cells (keys : list string) (record : gmap string string) : list string :=
  map (fun k => default EmptyString (record !! k)) keys.

Definition columns : list Column :=
  [ mkColumn "Name" "name" 30;
    mkColumn "Address" "address" 40;
    mkColumn "Phone" "phone" 20;
    mkColumn "Website" "website" 30;
    mkColumn "Email" "email" 30;
    mkColumn "Rating" "rating" 10;
    mkColumn "Reviews" "reviews" 10;
    mkColumn "Hours" "hours" 40;
    mkColumn "Category" "category" 20;
    mkColumn "Price Range" "priceRange" 15;
    mkColumn "Attributes" "attributes" 30 ].

Definition exportToExcel (data : list (gmap string string)) : list (list string) :=
  map header columns :: map (cells (map key columns)) data.

Definition fields : list string :=
  [ "name"; "address"; "phone"; "website"; "email"; "rating"; "reviews";
    "hours"; "category"; "priceRange"; "attributes" ].

Definition exportToCSV (data : list (gmap string string)) : list (list string) :=
  fields :: map (cells fields) data.

End Server.

(** ** The older variant

    Its [extractBusinessDetails], its [exportToExcel] and its [/api/scrape]
    route are, line for line, those of [Server]; what differs is modelled
    here: the loop over the listings, which revisits the results page and
    clicks each listing, and the CSV encoder. *)

Module CorrectCode.
Import Js Dom.

(** A listing as [collectListings] returns it: a name and its position. *)
Record Listing : Type := mkListing { name : string; index : nat }.

Inductive Value : Type :=
| Str (s : string)
| Num (n : nat).

(** The driver calls of one pass of the loop that may throw. *)
Inductive Step : Type :=
| BackToResults | WaitResults | Scroll (j : nat) | WaitScroll (j : nat)
| WaitDetails | Evaluate | Delay.

(** [{ ...listing, ...detailedInfo }] *)
Definition merge_record (listing : Listing) (detailedInfo : gmap string string)
    : gmap string Value :=
  (Str <$> detailedInfo)
  ∪ {[ "name" := Str (name listing); "index" := Num (index listing) ]}.

Section Loop.
(** Which calls throw in the pass for listing [i], whether click
    strategy [k] (1, 2 or 3, each of which swallows its own exceptions)
    clicked it, and the document shown when it is evaluated. *)
Variable fails : nat -> Step -> bool.
Variable clicks : nat -> nat -> bool.
Variable detail_document : nat -> Document.

Definition step (i : nat) (s : Step) : Res unit :=
  if fails i s then Throw (DriverError "driver call failed") else Ok tt.

Fixpoint scroll_loop (i j count : nat) : Res unit :=
  match count with
  | O => Ok tt
  | S count' =>
      match step i (Scroll j) with
      | Throw e => Throw e
      | Ok _ =>
          match step i (WaitScroll j) with
          | Throw e => Throw e
          | Ok _ => scroll_loop i (S j) count'
          end
      end
  end.

(** [if (i > 0) { goto; wait; scroll Math.floor(i / 3) times }] *)
Definition back_to_results (i : nat) : Res unit :=
  if Nat.ltb 0 i then
    match step i BackToResults with
    | Throw e => Throw e
    | Ok _ =>
        match step i WaitResults with
        | Throw e => Throw e
        | Ok _ => scroll_loop i O (i / 3)
        end
    end
  else Ok tt.

Definition clickSuccess (i : nat) : bool :=
  clicks i 1%nat || clicks i 2%nat || clicks i 3%nat.

Definition evaluate_details (i : nat) : Res (gmap string string) :=
  if fails i Evaluate then Throw (DriverError "evaluate failed")
  else result (Server.extractBusinessDetails (detail_document i)).

(** One pass of the loop, [try] and [catch] included: [detailedData]
    as the pass leaves it. *)
Definition visit_listing (i : nat) (listing : Listing)
    (detailedData : list (gmap string Value)) : list (gmap string Value) :=
  match back_to_results i with
  | Throw _ => detailedData
  | Ok _ =>
      if negb (clickSuccess i) then detailedData
      else
        match step i WaitDetails with
        | Throw _ => detailedData
        | Ok _ =>
            match evaluate_details i with
            | Throw _ => detailedData
            | Ok detailedInfo =>
                let detailedData :=
                  (detailedData ++ [merge_record listing detailedInfo])%list in
                match step i Delay with
                | Throw _ => detailedData
                | Ok _ => detailedData
                end
            end
        end
  end.

Fixpoint listing_loop (i : nat) (businessListings : list Listing)
    (detailedData : list (gmap string Value)) : list (gmap string Value) :=
  match businessListings with
  | [] => detailedData
  | listing :: rest =>
      listing_loop (S i) rest (visit_listing i listing detailedData)
  end.

End Loop.

Definition fields : list string :=
  [ "name"; "address"; "phone"; "website"; "email"; "rating"; "reviews";
    "hours"; "category" ].

Definition exportToCSV (data : list (gmap string string)) : list (list string) :=
  fields :: map (Server.cells fields) data.

End CorrectCode.

(** ** Pages and feeds used as test inputs *)

Module Mock.
Import Js Dom Server.

(** An element with text only. *)
Definition text_element (text : string) : Element :=
  mkElement text NoHref (fun _ => None) (fun _ => []) (fun _ => None).

(** A result link with a label and a target. *)
Definition link (label target : string) : Element :=
  mkElement label (StringHref target)
    (fun a => if String.eqb a "aria-label" then Some label else None)
    (fun _ => []) (fun _ => None).

(** A document that answers the listed selectors and nothing else. *)
Fixpoint answers (table : list (string * list Element)) (selector : string)
    : list Element :=
  match table with
  | [] => []
  | (s, els) :: rest => if String.eqb s selector then els else answers rest selector
  end.

Definition page_of (table : list (string * list Element)) (bodyText : option string)
    : Document :=
  mkDocument (answers table) bodyText.

Definition empty_page : Document := page_of [] (Some EmptyString).

(** A results page that shows two listings (one of them twice) and, after
    two scrolls, a third. The page handle counts the scrolls. *)
Definition feed (scrolls : nat) : Document :=
  page_of
    [ ("a.hfpxzc",
        [ link "Cafe A" "https://maps.example/maps/place/A";
          link "Cafe B" "https://maps.example/maps/place/B";
          link "Cafe A again" "https://maps.example/maps/place/A" ]
        ++ (if Nat.ltb 1 scrolls
            then [ link "Cafe C" "https://maps.example/maps/place/C" ]
            else []))%list ]
    (Some EmptyString).

Definition stay (ms : Z) (p : nat) : nat := p.

(** Reading the outcome of an extraction: whether it returned, and the
    field of the record it returned. *)
Definition returned {A : Type} (m : Eval A) : bool :=
  match result m with Ok _ => true | Throw _ => false end.

Definition field (m : Eval (gmap string string)) (key : string) : option string :=
  match result m with
  | Ok r => r !! key
  | Throw _ => None
  end.

(** A listing page that exposes a name and a rating and nothing else. *)
Definition name_rating_page : Document :=
  page_of
    [ ("h1.DUwDvf", [ text_element " Cafe Nero " ]);
      ("span.ceJTW", [ text_element "4.5" ]) ]
    (Some "Cafe Nero 4.5").

(** A listing page whose rating container shows a number above 5. *)
Definition high_rating_page : Document :=
  page_of
    [ ("h1.DUwDvf", [ text_element "Cafe Nero" ]);
      ("span.ceJTW", [ text_element "9.5" ]) ]
    (Some "Cafe Nero 9.5").

(** A listing page with a name and an address in a document that has no
    body. *)
Definition no_body_page : Document :=
  page_of
    [ ("h1.DUwDvf", [ text_element "Cafe Nero" ]);
      ("button[data-item-id='address']", [ text_element "1 Main St" ]) ]
    None.

(** A link of an SVG drawing: its [href] is an object, not a string. *)
Definition svg_link (label : string) : Element :=
  mkElement label ObjectHref (fun _ => None) (fun _ => []) (fun _ => None).

(** A listing page with a body, a name and an address, whose phone link
    is drawn in SVG. *)
Definition svg_phone_page : Document :=
  page_of
    [ ("h1.DUwDvf", [ text_element "Cafe Nero" ]);
      ("button[data-item-id='address']", [ text_element "1 Main St" ]);
      ("a[href^='tel:']", [ svg_link "Call" ]) ]
    (Some "Cafe Nero 1 Main St Call").


(** A full listing page. *)
Definition full_page : Document :=
  page_of
    [ ("h1.DUwDvf", [ text_element "Cafe Nero" ]);
      ("button[data-item-id='address']", [ text_element "1 Main St" ]);
      ("span.ceJTW", [ text_element "4.5" ]);
      (".MNVeJb", [ text_element "$$" ]) ]
    (Some "Cafe Nero 4.5 (120 reviews) info@nero.example").

(** Three discovered listings, and a world in which only the navigation
    to the second one throws; another in which only the navigation to the
    first one does. *)
Definition three_listings : list Listing :=
  [ mkListing "Cafe A" "https://maps.example/maps/place/A";
    mkListing "Cafe B" "https://maps.example/maps/place/B";
    mkListing "Cafe C" "https://maps.example/maps/place/C" ].

Definition goto_fails_second (scope : Scope) (c : Call) : bool :=
  match scope, c with
  | Visit 1, CGoto => true
  | _, _ => false
  end.

Definition goto_fails_first (scope : Scope) (c : Call) : bool :=
  match scope, c with
  | Visit 0, CGoto => true
  | _, _ => false
  end.

Definition never_fails (scope : Scope) (c : Call) : bool := false.

(** Every listing page shows the same details. *)
Definition same_details (i : nat) (url : string) : Document := full_page.

(** The session once the search page (handle 0) is open. *)
Definition search_open : ScrapeState := mkScrapeState (mkBrowser true [O] 1%nat) [].

(** A record with all eleven fields. *)
Definition full_record : gmap string string :=
  <["attributes" := "Free Wi-Fi"]>
    (<["priceRange" := "$$"]>
       (<["category" := "Cafe"]>
          (<["email" := "info@nero.example"]>
             (<["hours" := "Mon: 8-17"]>
                (<["reviews" := "120"]>
                   (<["rating" := "4.5"]>
                      (<["website" := "nero.example"]>
                         (<["phone" := "555-0100"]>
                            (<["address" := "1 Main St"]>
                               (<["name" := "Cafe Nero"]> ∅)))))))))).

(** A results page whose first link selector matches one link that is not a
    place link, while a later selector would match a place link. *)
Definition shadowed_feed : Document :=
  page_of
    [ ("a.hfpxzc", [ link "Sponsored" "https://ads.example/offer" ]);
      ("a[jsaction*='mouseup']",
        [ link "Cafe A" "https://maps.example/maps/place/A" ]) ]
    (Some EmptyString).

(** A link with no label and no enclosing [div]. *)
Definition orphan_link : Element :=
  mkElement "Cafe A" (StringHref "https://maps.example/maps/place/A")
    (fun _ => None) (fun _ => []) (fun _ => None).

Definition broken_feed : Document :=
  page_of [ ("a.hfpxzc", [ orphan_link ]) ] (Some EmptyString).

(** A listing page with a review container, a category button of which
    one text is rejected, and attributes of which one repeats the name. *)
Definition rich_page : Document :=
  page_of
    [ ("h1.DUwDvf", [ text_element "Cafe Nero" ]);
      ("span.F7nice, div.F7nice, div.review-score",
        [ text_element "4.5 (1,234 reviews)" ]);
      ("button.DkEaL", [ text_element "Coffee shop"; text_element "Menu" ]);
      (".q5X0Ue", [ text_element "Cafe Nero"; text_element " Free Wi-Fi " ]);
      ("div.PODJx", [ text_element "Free Wi-Fi"; text_element "Takeaway" ]) ]
    (Some "Cafe Nero, write to: info@nero.example, or call us").

(** A row of an hours table. *)
Definition hours_row_of (day hours : list Element) : Element :=
  mkElement EmptyString NoHref (fun _ => None)
    (fun s => if String.eqb s ".ylH6lf, .x4hIce" then day
              else if String.eqb s ".mxowUb, .G8aQO" then hours
              else [])
    (fun _ => None).

(** A listing page with an hours table: two full rows and one row without
    hours. *)
Definition hours_page : Document :=
  page_of
    [ ("h1.DUwDvf", [ text_element "Cafe Nero" ]);
      ("table.eK4R0e",
        [ mkElement EmptyString NoHref (fun _ => None)
            (fun s =>
               if String.eqb s "tr.y0skZc, tr"
               then [ hours_row_of [ text_element "Mon" ] [ text_element " 8-17 " ];
                      hours_row_of [ text_element "Sun" ] [];
                      hours_row_of [ text_element "Tue" ] [ text_element "8-17" ] ]
               else [])
            (fun _ => None) ]) ]
    (Some "Cafe Nero").

End Mock.

(** ** The cascade as the specification words it

    Strategies are tried in order; the first one that yields a value wins
    and no later one is invoked. [first_wins] is the value so resolved and
    [invoked] the strategies that get to run. The loops of
    [extractBusinessDetails] are compared with these below. *)

Module Cascade.
Import Dom.

Section FirstWins.
Context {S V : Type}.
Variable yield : S -> option V.

Fixpoint first_wins (strategies : list S) : option V :=
  match strategies with
  | [] => None
  | s :: rest =>
      match yield s with
      | Some v => Some v
      | None => first_wins rest
      end
  end.

Fixpoint invoked (strategies : list S) : list S :=
  match strategies with
  | [] => []
  | s :: rest =>
      match yield s with
      | Some _ => [s]
      | None => s :: invoked rest
      end
  end.
End FirstWins.

(** The field is set when a strategy won and left alone otherwise. *)
Definition assign (key : string) (v : option string) (details : gmap string string)
    : gmap string string :=
  match v with
  | Some text => <[key := text]> details
  | None => details
  end.

(** The first element a selector locates in the document. *)
Definition located (doc : Document) (selector : string) : option Element :=
  head (doc_querySelectorAll doc selector).

(** A detail record by its fields, written in the order in which
    [extractBusinessDetails] sets them. The three optional fields are the
    ones the function sets only when it has a value for them. *)
Definition detail_record (name : option string)
    (address phone website rating reviews hours email category : string)
    (attributes priceRange : option string) : gmap string string :=
  assign "priceRange" priceRange
    (assign "attributes" attributes
       (<["category" := category]>
          (<["email" := email]>
             (<["hours" := hours]>
                (<["reviews" := reviews]>
                   (<["rating" := rating]>
                      (<["website" := website]>
                         (<["phone" := phone]>
                            (<["address" := address]>
                               (assign "name" name ∅)))))))))).

(** What one category strategy yields: the last accepted text among the
    elements of its selector, unless that is the sentinel itself. *)
Definition category_yield (doc : Document) (details : gmap string string)
    (selector : string) : option string :=
  let category :=
    fold_left (Server.category_element details)
      (doc_querySelectorAll doc selector) Server.NA in
  if String.eqb category Server.NA then None else Some category.


(** A loop whose first located element decides, when the value read from
    that element may throw: the field is set, or the exception goes up, or
    nothing was located. *)
Definition settle (key : string) (outcome : option (Res string))
    (details : gmap string string) : Res (gmap string string) :=
  match outcome with
  | Some (Ok text) => Ok (<[key := text]> details)
  | Some (Throw e) => Throw e
  | None => Ok details
  end.

Definition value_of (outcome : option (Res string)) : option string :=
  match outcome with
  | Some (Ok text) => Some text
  | _ => None
  end.

Definition fault_of (outcome : option (Res string)) : option Exn :=
  match outcome with
  | Some (Throw e) => Some e
  | _ => None
  end.


(** What the phone loop and the website loop come to on a document. *)
Definition phone_outcome (doc : Document) : option (Res string) :=
  first_wins (fun s => Server.phone_text <$> located doc s) Server.phoneSelectors.

Definition website_outcome (doc : Document) : option (Res string) :=
  first_wins (fun s => Server.website_text <$> located doc s)
    Server.websiteSelectors.

(** The exception [extractBusinessDetails] meets first, when it meets one:
    in the phone loop, in the website loop, or reading the body text. *)
Definition extraction_fault (doc : Document) : option Exn :=
  match fault_of (phone_outcome doc) with
  | Some e => Some e
  | None =>
      match fault_of (website_outcome doc) with
      | Some e => Some e
      | None =>
          match body_innerText doc with
          | Some _ => None
          | None => Some null_body
          end
      end
  end.

(** What one hours table yields: the entries of its rows, joined, when
    there is at least one. *)
Definition table_yield (doc : Document) (selector : string) : option string :=
  match located doc selector with
  | Some table =>
      let found :=
        fold_left Server.hours_row (querySelectorAll table "tr.y0skZc, tr")
          ([], false) in
      if snd found then Some (Js.join "; " (fst found)) else None
  | None => None
  end.

Definition section_yield (doc : Document) (selector : string) : option string :=
  (fun e => Js.trim (textContent e)) <$> located doc selector.

(** The hours: of the first table that yields, else of the first section
    located, else the sentinel. *)
Definition hours_value (doc : Document) : string :=
  match first_wins (table_yield doc) Server.hoursTableSelectors with
  | Some hours => hours
  | None => default Server.NA (first_wins (section_yield doc) Server.hoursSelectors)
  end.

(** The review count: of the first container in which the pattern
    captures, else of the first pattern that captures in the page text,
    else the sentinel. *)
Definition reviews_value (doc : Document) (pageText : string) : string :=
  let found :=
    first_wins
      (fun c => Server.captured (Js.match_ (textContent c) Js.re_count_reviews))
      (doc_querySelectorAll doc "span.F7nice, div.F7nice, div.review-score") in
  default (default Server.NA found)
    (if bool_decide (default Server.NA found = Server.NA)
     then Server.first_captured [ Js.match_ pageText Js.re_count_reviews;
                                  Js.match_ pageText Js.re_reviews_count ]
     else None).

(** The texts the attributes loop collects over all of its selectors, and
    the field they give: none when nothing was collected. *)
Definition found_attributes (doc : Document) (details : gmap string string)
    (category : string) : list string :=
  fold_left
    (fun acc s =>
       fold_left (Server.attribute_element details category)
         (doc_querySelectorAll doc s) acc)
    Server.attributeSelectors [].

Definition attributes_field (found : list string) : option string :=
  if Nat.ltb 0 (length found) then Some (Js.join ", " found) else None.

(** A body text in which none of the text patterns finds anything. *)
Definition plain_text (pageText : string) : bool :=
  negb (Js.test Js.re_count_reviews pageText)
  && negb (Js.test Js.re_reviews_count pageText)
  && negb (Js.test Js.emailRegex pageText)
  && negb (Js.test Js.re_category pageText)
  && negb (Js.test Js.re_type pageText).

(** Per-listing isolation as the specification words it: the result holds
    one record per listing that was processed without an exception up to the
    point where its record is pushed, in discovery order. *)
Section Recorded.
Variable fails : Server.Scope -> Server.Call -> bool.
Variable detail_document : nat -> string -> Document.

Definition reaches_extraction (i : nat) : bool :=
  forallb (fun c => negb (fails (Server.Visit i) c))
    [ Server.CNewPage; Server.CSetUserAgent; Server.CSetExtraHTTPHeaders;
      Server.CSetRequestInterception; Server.CGoto; Server.CWaitForTimeout;
      Server.CEvaluate ].

Definition record_of (i : nat) (listing : Server.Listing)
    : option (gmap string string) :=
  if reaches_extraction i then
    match result (Server.extractBusinessDetails
                    (detail_document i (Server.url listing))) with
    | Ok detailedInfo =>
        Some (Server.merge_record (Server.name listing) detailedInfo)
    | Throw _ => None
    end
  else None.

Fixpoint records_from (i : nat) (listings : list Server.Listing)
    : list (gmap string string) :=
  match listings with
  | [] => []
  | listing :: rest =>
      match record_of i listing with
      | Some record => record :: records_from (S i) rest
      | None => records_from (S i) rest
      end
  end.
End Recorded.

(** The same for the older variant, where a listing also has to be clicked. *)
Section RecordedOlder.
Variable fails : nat -> CorrectCode.Step -> bool.
Variable clicks : nat -> nat -> bool.
Variable detail_document : nat -> Document.


End RecordedOlder.

(** A results page on which no evaluation ever finds a listing. *)
Definition never_yields {Page : Type} (document : Page -> Document) : Prop :=
  forall p : Page, result (Server.harvest (document p)) = Ok [].

End Cascade.

(** ** Discovery order

    What a harvest adds to the collection, said directly: the items whose
    locator is neither collected already nor met earlier in the same
    harvest, in the order of the harvest. *)

Module Order.
Import Dom.

Fixpoint unseen (known newUrls : list Server.Listing) : list Server.Listing :=
  match newUrls with
  | [] => []
  | item :: rest =>
      if Server.url_known known item then unseen known rest
      else item :: unseen (known ++ [item]) rest
  end.

(** A reference the harvest may push: a name that is not empty and a
    locator that points into a place page. *)
Definition place_reference (l : Server.Listing) : Prop :=
  Js.truthy (Server.name l) = true
  /\ Js.includes (Server.url l) "/maps/place/" = true.

(** What one selector of the listing links yields: its elements, when there
    is at least one. *)
Definition links_yield (doc : Document) (selector : string) : option (list Element) :=
  match doc_querySelectorAll doc selector with
  | [] => None
  | els => Some els
  end.

End Order.

(** ** What a request can count on

    Reference notions for the orchestrator and the route: the driver calls
    of the search phase, and the shape of a record in a response. *)

Module Contract.
Import Dom Server.

(** The driver calls [scrapeGoogleMaps] makes before discovery, in order. *)
Definition search_phase : list Call :=
  [ CLaunch; CNewPage; CSetUserAgent; CSetExtraHTTPHeaders;
    CSetRequestInterception; CGoto; CWaitForSelector; CType; CRandomDelay;
    CPressEnter; CWaitForTimeout ].

Definition search_phase_ok (fails : Scope -> Call -> bool) : bool :=
  forallb (fun c => negb (fails Session c)) search_phase.

(** The fields [extractBusinessDetails] gives a default to. *)
Definition always_set : list string :=
  [ "address"; "phone"; "website"; "email"; "rating"; "reviews"; "hours";
    "category" ].

(** A record with a name, with every defaulted field, and with no key
    outside the eleven fields. *)
Definition complete_record (r : gmap string string) : Prop :=
  (forall k, k ∈ "name" :: always_set -> is_Some (r !! k))
  /\ (forall k, is_Some (r !! k) -> k ∈ fields).

(** The data array of a response, empty for an error response. *)
Definition data (r : Response) : list (gmap string string) :=
  match body r with
  | Success d => d
  | Failure _ => []
  end.

Definition returns {A : Type} (r : Res A) : bool :=
  match r with Ok _ => true | Throw _ => false end.

(** The status the route answers with, from the request, the search phase
    and the outcome of discovery. *)
Definition request_status (req : ScrapeRequest) (search_ok discovered : bool) : nat :=
  match query req, location req with
  | Some q, Some l =>
      if Js.truthy q && Js.truthy l
      then (if search_ok && discovered then 200 else 500)%nat
      else 400%nat
  | _, _ => 400%nat
  end.

End Contract.

(** ** What the patterns accept

    A relational reading of the patterns, against which the backtracking
    matcher is checked, and the shapes of the texts the patterns let
    through. *)

Module Lang.
Import Js.

(** [Matches r x y]: the pattern [r] can take the matcher from state [x] to
    state [y]. *)
Inductive Matches : Regex -> MatchState -> MatchState -> Prop :=
| MChr (p : ascii -> bool) (x : MatchState) (c : ascii) (rest : string) :
    input x = String c rest -> p c = true ->
    Matches (Chr p) x (mkMatchState false rest (capture x))
| MSeq (a b : Regex) (x y z : MatchState) :
    Matches a x y -> Matches b y z -> Matches (Seq a b) x z
| MOptSkip (a : Regex) (x : MatchState) : Matches (Opt a) x x
| MOptTake (a : Regex) (x y : MatchState) : Matches a x y -> Matches (Opt a) x y
| MStarStop (a : Regex) (x : MatchState) : Matches (Star a) x x
| MStarStep (a : Regex) (x y z : MatchState) :
    Matches a x y -> Matches (Star a) y z -> Matches (Star a) x z
| MGroup (a : Regex) (x y : MatchState) :
    Matches a x y ->
    Matches (Group a) x (mkMatchState (at_start y) (input y) (Some (consumed x y)))
| MBol (x : MatchState) : at_start x = true -> Matches Bol x x
| MEol (x : MatchState) : input x = EmptyString -> Matches Eol x x.

(** The code units a pattern can consume, and its capturing groups. *)
Fixpoint chars (r : Regex) (c : ascii) : bool :=
  match r with
  | Chr p => p c
  | Seq a b => chars a c || chars b c
  | Opt a | Star a | Group a => chars a c
  | Bol | Eol => false
  end.

Fixpoint groups (r : Regex) : list Regex :=
  match r with
  | Chr _ | Bol | Eol => []
  | Seq a b => (groups a ++ groups b)%list
  | Opt a | Star a => groups a
  | Group a => a :: groups a
  end.

Fixpoint all_chars (p : ascii -> bool) (s : string) : bool :=
  match s with
  | EmptyString => true
  | String c s' => p c && all_chars p s'
  end.

(** [v] is a piece of [s]. *)
Definition occurs_in (v s : string) : Prop :=
  exists pre post, s = pre ++ v ++ post.

(** local@domain.tld, each part non-empty; letters, digits, underscore, dot
    and hyphen in the first two, no dot or hyphen in the last. *)
Definition email_shaped (v : string) : Prop :=
  exists loc dom tld,
    v = loc ++ "@" ++ dom ++ "." ++ tld
    /\ truthy loc = true /\ truthy dom = true /\ truthy tld = true
    /\ all_chars email_atom loc = true
    /\ all_chars email_atom dom = true
    /\ all_chars is_word tld = true.

(** A digit, then digits and commas. *)
Definition count_shaped (v : string) : Prop :=
  exists d rest,
    v = String d rest /\ is_digit d = true
    /\ all_chars (fun c => is_digit c || Ascii.eqb c ",") rest = true.

(** An entry of the hours table: a day and its hours, both non-empty. *)
Definition entry_shaped (v : string) : Prop :=
  exists day hours,
    v = day ++ ": " ++ hours /\ truthy day = true /\ truthy hours = true.

(** What the rows of the hours tables have given so far: entries of a day
    and its hours, and none exactly as long as nothing was found. *)
Definition gathered (acc : list string * bool) : Prop :=
  Forall entry_shaped (fst acc) /\ (snd acc = false <-> fst acc = []%list).

End Lang.

(** ** The time discovery spends waiting

    The discovery loop is written over any kind of page. Run over pages
    that carry a clock, it tells how long [collectListingUrls] sits in
    [waitForTimeout]. *)

Module Clock.
Import Dom Server.

Section Timed.
Context {Page : Type}.
Variable waitForTimeout : Z -> Page -> Page.
Variable document : Page -> Document.
Variable improvedAutoScroll : Page -> Page.

(** A page and the milliseconds waited so far. *)
Definition timed_wait (ms : Z) (p : Page * Z) : Page * Z :=
  (waitForTimeout ms (fst p), snd p + ms).

Definition timed_document (p : Page * Z) : Document := document (fst p).

Definition timed_scroll (p : Page * Z) : Page * Z :=
  (improvedAutoScroll (fst p), snd p).

Definition timed_loop (limit : Z) (st : @LoopState (Page * Z))
    : nat * Res (@LoopState (Page * Z)) :=
  discovery_loop timed_wait timed_document timed_scroll limit st.

(** The milliseconds [collectListingUrls] waits, when it returns. *)
Definition waited (pg : Page) (limit : Z) : option Z :=
  match snd (timed_loop limit (initial_state (pg, 0))) with
  | Ok st => Some (snd (page st))
  | Throw _ => None
  end.

(** The state of the loop without the clock. *)
Definition untimed (st : @LoopState (Page * Z)) : @LoopState Page :=
  mkLoopState (listingUrls st) (scrollAttempts st) (consecutiveNoNewUrls st)
    (fst (page st)).

End Timed.

(** The waits after the first [n] scrolls: 3000 + 500 k for the k-th. *)
Definition scroll_waits (n : nat) : Z :=
  3000 * Z.of_nat n + 250 * Z.of_nat n * (Z.of_nat n + 1).

End Clock.

(** ** The older variant: finding the listings and the session

    [getListingsCount], [collectListings] and [scrapeGoogleMaps] of
    [correctcode.js]. The loop over the listings and the encoders are in
    [CorrectCode]. *)

Module CorrectCodeSession.
Import Js Dom.

Definition itemSelectors : list string :=
  [ "a.hfpxzc"; "div.Nv2PK"; "div.V0h1Ob-haAclf"; "div[role='article']";
    "a[jsaction*='click']" ].

(** The function passed to [page.evaluate] in [getListingsCount]. *)
Fixpoint getListingsCount_loop (doc : Document) (selectors : list string) : nat :=
  match selectors with
  | [] => O
  | selector :: rest =>
      let items := doc_querySelectorAll doc selector in
      if Nat.ltb 0 (length items) then length items
      else getListingsCount_loop doc rest
  end.

Definition getListingsCount (doc : Document) : nat :=
  getListingsCount_loop doc itemSelectors.

(** The loop of [collectListings] that decides [items]. *)
Fixpoint items_loop (doc : Document) (selectors : list string) : list Element :=
  match selectors with
  | [] => []
  | selector :: rest =>
      let elements := doc_querySelectorAll doc selector in
      if Nat.ltb 0 (length elements) then elements
      else items_loop doc rest
  end.

(** The three approaches to a name; [None] is [null]. *)
Definition item_name (item : Element) : option string :=
  let name : option string := None in
  let name :=
    if negb (truthy_opt name) && truthy_opt (getAttribute item "aria-label")
    then getAttribute item "aria-label" else name in
  let name :=
    if negb (truthy_opt name) then
      match querySelector item "h3, h2, h1, div[role='heading']" with
      | Some heading => Some (trim (textContent heading))
      | None => name
      end
    else name in
  let name :=
    if negb (truthy_opt name)
    then Some (trim (split_head (trim (textContent item)) Server.newline))
    else name in
  name.

(** The [for] loop of [collectListings], from index [i] on. *)
Fixpoint collect_loop (i : nat) (items : list Element)
    (listings : list CorrectCode.Listing) : list CorrectCode.Listing :=
  match items with
  | [] => listings
  | item :: rest =>
      let listings :=
        match item_name item with
        | Some name =>
            if truthy name then (listings ++ [CorrectCode.mkListing name i])%list
            else listings
        | None => listings
        end in
      collect_loop (S i) rest listings
  end.

(** The function passed to [page.evaluate] in [collectListings]: the loop
    runs over the indices below [Math.min(items.length, maxResults)]. *)
Definition collectListings (doc : Document) (maxResults : Z)
    : list CorrectCode.Listing :=
  let items := items_loop doc itemSelectors in
  let bound := Z.min (Z.of_nat (length items)) maxResults in
  collect_loop O (take (Z.to_nat bound) items) [].

(** The driver calls of the search phase that may throw. *)
Inductive Call : Type :=
| Launch | NewPage | SetUserAgent | SetExtraHTTPHeaders
| SetRequestInterception | Goto
| CookieQuery (k : nat) | CookieClick | CookieWait
| WaitForSelector | TypeQuery | RandomDelay | PressEnter | WaitForTimeout
| FeedQuery (k : nat) | Screenshot
| CountListings (n : nat) | AutoScroll (n : nat) | CollectListings.

Definition maxScrollAttempts : nat := 20.

Section Session.
(** The outside world of one scrape: which calls throw, which cookie
    button and which results container is on the page, the results page
    and how it scrolls, and the world of the loop over the listings. *)
Variable throws : Call -> bool.
Variable cookie_button : nat -> bool.
Variable feed : nat -> bool.
Context {Page : Type}.
Variable document : Page -> Document.
Variable autoScroll : Page -> Page.
Variable results_page : Page.
Variable fails : nat -> CorrectCode.Step -> bool.
Variable clicks : nat -> nat -> bool.
Variable detail_document : nat -> Document.

Definition call (c : Call) : Res unit :=
  if throws c then Throw (DriverError "driver call failed") else Ok tt.

Definition and_then {A B : Type} (r : Res A) (f : A -> Res B) : Res B :=
  match r with
  | Ok a => f a
  | Throw e => Throw e
  end.

(** The loop over [cookieSelectors], from selector [k] on. *)
Fixpoint cookie_loop (k count : nat) : Res unit :=
  match count with
  | O => Ok tt
  | S count' =>
      and_then (call (CookieQuery k)) (fun _ =>
      if cookie_button k then
        and_then (call CookieClick) (fun _ => call CookieWait)
      else cookie_loop (S k) count')
  end.

(** [try { ... } catch (error) { log }] around the cookie dialog. *)
Definition accept_cookies : unit :=
  match cookie_loop O 4 with
  | Ok _ => tt
  | Throw _ => tt
  end.

(** The loop over [feedSelectors]: the index of the selector found. *)
Fixpoint feed_loop (k count : nat) : Res (option nat) :=
  match count with
  | O => Ok None
  | S count' =>
      and_then (call (FeedQuery k)) (fun _ =>
      if feed k then Ok (Some k) else feed_loop (S k) count')
  end.

Record ScrollState : Type := mkScrollState {
  listingsCount : nat;
  previousCount : nat;
  scrollAttempts : nat;
  page : Page
}.

Definition scroll_cond (limit : Z) (st : ScrollState) : bool :=
  (Z.of_nat (listingsCount st) <? limit)
  && Nat.ltb (scrollAttempts st) maxScrollAttempts
  && negb (Nat.eqb (listingsCount st) (previousCount st)).

Definition count_listings (n : nat) (p : Page) : Res nat :=
  and_then (call (CountListings n)) (fun _ => Ok (getListingsCount (document p))).

Definition scroll_body (st : ScrollState) : Res ScrollState :=
  let previousCount := listingsCount st in
  and_then (call (AutoScroll (scrollAttempts st))) (fun _ =>
  let page := autoScroll (page st) in
  and_then (count_listings (S (scrollAttempts st)) page) (fun listingsCount =>
  Ok (mkScrollState listingsCount previousCount (S (scrollAttempts st)) page))).

Equations? results_loop (limit : Z) (st : ScrollState) : Res ScrollState
  by wf (maxScrollAttempts - scrollAttempts st)%nat lt :=
  results_loop limit st with Server.inspect (scroll_cond limit st) := {
    | exist _ false _ => Ok st;
    | exist _ true Hcond with Server.inspect (scroll_body st) := {
        | exist _ (Throw e) _ => Throw e;
        | exist _ (Ok st') Hbody => results_loop limit st' } }.
Proof.
  unfold scroll_cond in Hcond.
  apply andb_prop in Hcond as [Hcond _]. apply andb_prop in Hcond as [_ Hsa].
  apply Nat.ltb_lt in Hsa.
  unfold scroll_body, and_then, count_listings, call in Hbody.
  destruct (throws (AutoScroll _)); [discriminate |].
  destruct (throws (CountListings _)); [discriminate |].
  simpl in Hbody. injection Hbody as <-.
  cbn [scrollAttempts]. unfold maxScrollAttempts in *. lia.
Qed.

(** The body of the outer [try]: the page as it is left and the listings
    collected, then the loop over them. *)
Definition find_listings (limit : Z) : Res (ScrollState * list CorrectCode.Listing) :=
  and_then (call SetRequestInterception) (fun _ =>
  and_then (call Goto) (fun _ =>
  let _ := accept_cookies in
  and_then (call WaitForSelector) (fun _ =>
  and_then (call TypeQuery) (fun _ =>
  and_then (call RandomDelay) (fun _ =>
  and_then (call PressEnter) (fun _ =>
  and_then (call WaitForTimeout) (fun _ =>
  and_then (feed_loop O 5) (fun feedSelector =>
  and_then (match feedSelector with
            | None => call Screenshot
            | Some _ => Ok tt
            end) (fun _ =>
  and_then (count_listings O results_page) (fun listingsCount =>
  and_then (results_loop limit (mkScrollState listingsCount O O results_page))
    (fun st =>
  and_then (call CollectListings) (fun _ =>
  Ok (st, collectListings (document (page st)) limit))))))))))))).

Definition session (limit : Z) : Res (list (gmap string CorrectCode.Value)) :=
  and_then (find_listings limit) (fun found =>
  Ok (CorrectCode.listing_loop fails clicks detail_document O (snd found) [])).

(** [browser.newPage()]: the page gets the next handle. *)
Definition newPage (b : Server.Browser) : Server.Browser * Res nat :=
  if throws NewPage then (b, Throw (DriverError "newPage failed"))
  else
    let handle := Server.next_handle b in
    (Server.mkBrowser (Server.running b) (Server.open_pages b ++ [handle])%list
       (S handle),
     Ok handle).

(** What comes between the launch and the [try]: the page is opened and
    configured. *)
Definition setup (b : Server.Browser) : Server.Browser * Res unit :=
  let '(b, page) := newPage b in
  (b, and_then page (fun _ =>
      and_then (call SetUserAgent) (fun _ => call SetExtraHTTPHeaders))).

(** [scrapeGoogleMaps]: the browser as it is left, and the value returned
    or the exception thrown. An exception of the launch leaves no browser;
    one of the setup is thrown before the [try] is entered; the [finally]
    of the [try] closes the browser. *)
Definition scrapeGoogleMaps (searchQuery : string) (limit : Z)
    : Server.Browser * Res (list (gmap string CorrectCode.Value)) :=
  if throws Launch
  then (Server.mkBrowser false [] O, Throw (DriverError "launch failed"))
  else
    let '(b, configured) := setup (Server.mkBrowser true [] O) in
    match configured with
    | Throw e => (b, Throw e)
    | Ok _ => (Server.close_browser b, session limit)
    end.

End Session.

End CorrectCodeSession.

(** ** Worlds for the older session *)

Module Scenario.
Import Dom CorrectCodeSession.

(** Every scroll throws; no other call does. *)
Definition scrolls_throw (c : Call) : bool :=
  match c with
  | AutoScroll _ => true
  | _ => false
  end.

Definition nothing_throws (c : Call) : bool := false.

Definition no_button (k : nat) : bool := false.
Definition first_feed (k : nat) : bool := Nat.eqb k 0.

Definition steps_pass (i : nat) (s : CorrectCode.Step) : bool := false.
Definition first_click (i k : nat) : bool := Nat.eqb k 1.

End Scenario.

(** ** The [/api/export] route *)

Module ExportRoute.
Import Js Dom Server.

(** The body of an export request: the array of records, when there is
    one, and the format. *)
Record ExportRequest : Type := mkExportRequest {
  data : option (list (gmap string string));
  format : option string
}.

(** What is sent: a sheet or a CSV text by its cells, or the records as
    JSON. The sheet and the JSON are buffers, the CSV is a string. *)
Inductive Payload : Type :=
| Workbook (rows : list (list string))
| Csv (rows : list (list string))
| Json (records : list (gmap string string)).

(** A response: a file with the content type and the file name of its
    headers as they go out, or a refusal. *)
Inductive ExportResponse : Type :=
| File (contentType filename : string) (payload : Payload)
| Refused (status : nat) (error : string).

Definition is_string (payload : Payload) : bool :=
  match payload with
  | Csv _ => true
  | Workbook _ | Json _ => false
  end.

(** [res.setHeader('Content-Type', contentType)], the disposition header
    and [res.send(exportedData)]: for a body that is a string [send] adds
    the charset to the content type, a buffer goes out under the type that
    was set. *)
Definition send (contentType filename : string) (payload : Payload)
    : ExportResponse :=
  File (if is_string payload then contentType ++ "; charset=utf-8" else contentType)
    filename payload.

Section Route.
(** Whether the encoder for a format throws. *)
Variable throws : string -> bool.

Definition api_export (req : ExportRequest) : ExportResponse :=
  match data req, format req with
  | Some data, Some format =>
      if negb (truthy format)
      then Refused 400 "Data and format are required"
      else if String.eqb format "xlsx" then
        if throws "xlsx" then Refused 500 "Failed to export data"
        else send "application/vnd.openxmlformats-officedocument.spreadsheetml.sheet"
               "google_maps_data.xlsx" (Workbook (exportToExcel data))
      else if String.eqb format "csv" then
        if throws "csv" then Refused 500 "Failed to export data"
        else send "text/csv" "google_maps_data.csv" (Csv (exportToCSV data))
      else if String.eqb format "json" then
        if throws "json" then Refused 500 "Failed to export data"
        else send "application/json" "google_maps_data.json" (Json data)
      else Refused 400 "Unsupported format"
  | _, _ => Refused 400 "Data and format are required"
  end.

End Route.

(** The rows of a payload that has rows. *)
Definition rows_of (p : Payload) : option (list (list string)) :=
  match p with
  | Workbook rows | Csv rows => Some rows
  | Json _ => None
  end.

End ExportRoute.

(** ** The page script

    [escapeHtml] and [displayResults] of [public/app.js]. A table row is
    modelled by the contents of its cells. *)

Module App.
Import Js.

Definition double_quote : ascii := Eval cbv in ascii_of_nat 34.
Definition quoted (s : string) : string :=
  String double_quote (s ++ String double_quote EmptyString).

(** [s.replace(/c/g, r)] for a pattern of one code unit. *)
Fixpoint replace_all (c : ascii) (r : string) (s : string) : string :=
  match s with
  | EmptyString => EmptyString
  | String d s' =>
      if Ascii.eqb d c then r ++ replace_all c r s'
      else String d (replace_all c r s')
  end.

Definition escapeHtml (unsafe : string) : string :=
  replace_all "'" "&#039;"
    (replace_all double_quote "&quot;"
       (replace_all ">" "&gt;"
          (replace_all "<" "&lt;"
             (replace_all "&" "&amp;" unsafe)))).

(** [item.key || 'N/A'] *)
Definition or_NA (v : option string) : string :=
  if truthy_opt v then default EmptyString v else "N/A".

Inductive Cell : Type :=
| Number (n : nat)
| Html (s : string).

Definition website_cell (website : option string) : string :=
  if truthy_opt website && negb (String.eqb (default EmptyString website) "N/A")
  then "<a href=" ++ quoted (escapeHtml (default EmptyString website))
       ++ " target=" ++ quoted "_blank"
       ++ " class=" ++ quoted "btn btn-sm btn-outline-primary" ++ ">Visit</a>"
  else "N/A".

Definition row_cells (index : nat) (item : gmap string string) : list Cell :=
  [ Number (index + 1);
    Html (escapeHtml (or_NA (item !! "name")));
    Html (escapeHtml (or_NA (item !! "category")));
    Html (escapeHtml (or_NA (item !! "address")));
    Html (escapeHtml (or_NA (item !! "phone")));
    Html (website_cell (item !! "website"));
    Html (escapeHtml (or_NA (item !! "email")));
    Html (escapeHtml (or_NA (item !! "rating")));
    Html (escapeHtml (or_NA (item !! "reviews"))) ].

Inductive Row : Type :=
| NoResults                      (* one cell over nine columns *)
| Item (cells : list Cell).

(** [data.forEach((item, index) => ...)], from index [index] on. *)
Fixpoint rows_from (index : nat) (data : list (gmap string string)) : list Row :=
  match data with
  | [] => []
  | item :: rest => Item (row_cells index item) :: rows_from (S index) rest
  end.

(** The rows of the table body after [displayResults(data)]. *)
Definition displayResults (data : list (gmap string string)) : list Row :=
  if Nat.eqb (length data) 0 then [ NoResults ] else rows_from O data.

(** The code units that open or close markup or an attribute value. *)
Definition markup (c : ascii) : bool :=
  Ascii.eqb c "<" || Ascii.eqb c ">" || Ascii.eqb c double_quote || Ascii.eqb c "'".

(** Escaping in one pass, one code unit at a time. *)
Definition escape_char (c : ascii) : string :=
  if Ascii.eqb c "&" then "&amp;"
  else if Ascii.eqb c "<" then "&lt;"
  else if Ascii.eqb c ">" then "&gt;"
  else if Ascii.eqb c double_quote then "&quot;"
  else if Ascii.eqb c "'" then "&#039;"
  else String c EmptyString.

Fixpoint escape_each (s : string) : string :=
  match s with
  | EmptyString => EmptyString
  | String c s' => escape_char c ++ escape_each s'
  end.

End App.

(** * Properties *)

(** ** Listing discovery *)

Section DiscoveryFacts.
Import Js Dom Server Cascade.
Context {Page : Type}.
Variable waitForTimeout : Z -> Page -> Page.
Variable document : Page -> Document.
Variable improvedAutoScroll : Page -> Page.

Abbreviation loop := (discovery_loop waitForTimeout document improvedAutoScroll).
Abbreviation body := (loop_body waitForTimeout document improvedAutoScroll).
Abbreviation collect := (collectListingUrls waitForTimeout document improvedAutoScroll).
Abbreviation iterations := (discovery_iterations waitForTimeout document improvedAutoScroll).

(** The loop, one step unfolded. *)
Lemma discovery_loop_unfold (limit : Z) (st : LoopState) :
  loop limit st =
    if loop_cond limit st then
      match body limit st with
      | Ok st' => tick (loop limit st')
      | Throw e => (1%nat, Throw e)
      end
    else (O, Ok st).
Proof.
  funelim (loop limit st).
  all: try match goal with H : loop_cond _ _ = _ |- _ => rewrite H end;
    try match goal with H : body _ _ = _ |- _ => rewrite H end;
    reflexivity.
Qed.

(** Induction along the executions of the loop. *)
Lemma discovery_loop_ind (limit : Z) (P : LoopState -> nat * Res LoopState -> Prop) :
  (forall st, loop_cond limit st = false -> P st (O, Ok st)) ->
  (forall st e, loop_cond limit st = true -> body limit st = Throw e ->
                P st (1%nat, Throw e)) ->
  (forall st st', loop_cond limit st = true -> body limit st = Ok st' ->
                  P st' (loop limit st') -> P st (tick (loop limit st'))) ->
  forall st, P st (loop limit st).
Proof.
  intros Hexit Hthrow Hstep st.
  funelim (loop limit st); eauto.
  match goal with IH : forall P, _ |- _ => eapply Hstep, IH; eauto end.
Qed.

Lemma url_known_spec (l : list Listing) (item : Listing) :
  url_known l item = true <-> url item ∈ map url l.
Proof.
  unfold url_known. rewrite existsb_exists, list_elem_of_fmap. split.
  - intros (x & Hin & Heq). apply String.eqb_eq in Heq.
    exists x. split; [congruence | by apply list_elem_of_In].
  - intros (x & Heq & Hin). exists x. split; [by apply list_elem_of_In |].
    apply String.eqb_eq. congruence.
Qed.

(** Adding harvested items only appends, and only unseen locators. *)
Lemma add_new_spec (limit : Z) (newUrls l : list Listing) (b : bool) :
  exists extra,
    fst (add_new limit newUrls l b) = (l ++ extra)%list
    /\ snd (add_new limit newUrls l b) = b || negb (Nat.eqb (length extra) 0)
    /\ (NoDup (map url l) -> NoDup (map url (l ++ extra))).
Proof.
  revert l b. induction newUrls as [| item rest IH]; intros l b; simpl.
  - exists []. rewrite app_nil_r, orb_false_r. auto.
  - destruct (url_known l item) eqn:Hknown; simpl.
    + apply IH.
    + destruct (limit <=? Z.of_nat (length (l ++ [item]))).
      * exists [item]. simpl. rewrite orb_true_r. repeat split.
        intros Hnd. rewrite map_app. simpl. apply NoDup_app. repeat split; auto.
        -- intros x Hx Hx'. apply list_elem_of_singleton in Hx' as ->.
           apply url_known_spec in Hx. congruence.
        -- apply NoDup_singleton.
      * destruct (IH (l ++ [item])%list true) as (extra & Hfst & Hsnd & Hnd).
        assert (Heq : ((l ++ [item]) ++ extra = l ++ item :: extra)%list)
          by (rewrite <- app_assoc; reflexivity).
        rewrite Heq in *.
        exists (item :: extra). rewrite Hfst, Hsnd. simpl.
        rewrite orb_true_r. repeat split.
        intros Hl. apply Hnd.
        rewrite map_app. simpl. apply NoDup_app. repeat split; auto.
        -- intros x Hx Hx'. apply list_elem_of_singleton in Hx' as ->.
           apply url_known_spec in Hx. congruence.
        -- apply NoDup_singleton.
Qed.

(** What one pass of the loop body does to the loop variables. *)
Lemma loop_body_spec (limit : Z) (st st' : LoopState) :
  body limit st = Ok st' ->
  exists extra,
    listingUrls st' = (listingUrls st ++ extra)%list
    /\ (NoDup (map url (listingUrls st)) -> NoDup (map url (listingUrls st')))
    /\ consecutiveNoNewUrls st' =
         (if Nat.eqb (length extra) 0 then S (consecutiveNoNewUrls st) else O)
    /\ ((limit <= Z.of_nat (length (listingUrls st'))
         /\ scrollAttempts st' = scrollAttempts st)
        \/ (Z.of_nat (length (listingUrls st')) < limit
            /\ scrollAttempts st' = S (scrollAttempts st))).
Proof.
  unfold loop_body. intros Hbody.
  destruct (result (harvest _)) as [newUrls |]; [| discriminate].
  destruct (add_new_spec limit newUrls (listingUrls st) false)
    as (extra & Hfst & Hsnd & Hnd).
  destruct (add_new limit newUrls (listingUrls st) false) as [urls added].
  simpl in Hfst, Hsnd. subst urls added.
  exists extra.
  destruct (Z.of_nat (length (listingUrls st ++ extra)) <? limit) eqn:Hlen;
    injection Hbody as <-; simpl.
  - apply Z.ltb_lt in Hlen. repeat split; auto.
    destruct (Nat.eqb (length extra) 0); reflexivity.
  - apply Z.ltb_ge in Hlen. repeat split; auto.
    destruct (Nat.eqb (length extra) 0); reflexivity.
Qed.

Lemma loop_cond_scroll (limit : Z) (st : @LoopState Page) :
  loop_cond limit st = true ->
  Z.of_nat (length (listingUrls st)) < limit
  /\ (scrollAttempts st < maxScrollAttempts)%nat
  /\ (consecutiveNoNewUrls st < maxConsecutiveNoNewUrls)%nat.
Proof.
  unfold loop_cond. intros H.
  apply andb_prop in H as [H Hc]. apply andb_prop in H as [Hl Hs].
  apply Z.ltb_lt in Hl. apply Nat.ltb_lt in Hs, Hc. auto.
Qed.

Lemma loop_cond_reached (limit : Z) (st : @LoopState Page) :
  limit <= Z.of_nat (length (listingUrls st)) -> loop_cond limit st = false.
Proof.
  intros H. unfold loop_cond.
  destruct (Z.ltb_spec (Z.of_nat (length (listingUrls st))) limit); [lia | reflexivity].
Qed.

(** The body runs at most as often as scroll attempts are left. *)
Lemma discovery_loop_bound (limit : Z) (st : LoopState) :
  (fst (loop limit st) <=
     if loop_cond limit st then maxScrollAttempts - scrollAttempts st else 0)%nat.
Proof.
  apply (discovery_loop_ind limit
           (fun st r => (fst r <= if loop_cond limit st
                                  then maxScrollAttempts - scrollAttempts st
                                  else 0)%nat)).
  - intros st0 H. rewrite H. simpl. lia.
  - intros st0 e H _. rewrite H. simpl.
    apply loop_cond_scroll in H. lia.
  - intros st0 st' Hc Hb IH. rewrite Hc. simpl.
    apply loop_cond_scroll in Hc as (_ & Hs & _).
    destruct (loop_body_spec _ _ _ Hb) as (extra & _ & _ & _ & [[Hl Hsa] | [Hl Hsa]]).
    + rewrite (loop_cond_reached _ _ Hl) in IH. lia.
    + destruct (loop_cond limit st'); lia.
Qed.

(** Locators stay pairwise distinct along the loop. *)
Lemma discovery_loop_NoDup (limit : Z) (st st' : LoopState) :
  NoDup (map url (listingUrls st)) ->
  snd (loop limit st) = Ok st' ->
  NoDup (map url (listingUrls st')).
Proof.
  revert st'.
  apply (discovery_loop_ind limit
           (fun st r => forall st', NoDup (map url (listingUrls st)) ->
                                    snd r = Ok st' ->
                                    NoDup (map url (listingUrls st')))).
  - intros st0 _ st' Hnd [= <-]. exact Hnd.
  - intros st0 e _ _ st' _ [=].
  - intros st0 st1 _ Hb IH st' Hnd Hr. simpl in Hr.
    destruct (loop_body_spec _ _ _ Hb) as (extra & _ & Hnd' & _).
    eauto.
Qed.

Lemma stagnant_loop (limit : Z) (st : LoopState) :
  never_yields document ->
  listingUrls st = [] ->
  exists st', snd (loop limit st) = Ok st' /\ listingUrls st' = []
    /\ (fst (loop limit st) <=
           maxConsecutiveNoNewUrls - consecutiveNoNewUrls st)%nat.
Proof.
  intros Hfeed.
  apply (discovery_loop_ind limit
           (fun st r => listingUrls st = [] ->
              exists st', snd r = Ok st' /\ listingUrls st' = []
                /\ (fst r <= maxConsecutiveNoNewUrls - consecutiveNoNewUrls st)%nat)).
  - intros st0 _ Hl. exists st0. simpl. repeat split; auto. lia.
  - intros st0 e _ Hb _. unfold loop_body in Hb. rewrite Hfeed in Hb.
    simpl in Hb. destruct (_ <? _); discriminate.
  - intros st0 st1 Hc Hb IH Hl.
    apply loop_cond_scroll in Hc as (_ & _ & Hcons).
    unfold loop_body in Hb. rewrite Hfeed in Hb. simpl in Hb.
    assert (Hst1 : listingUrls st1 = []
                   /\ consecutiveNoNewUrls st1 = S (consecutiveNoNewUrls st0)).
    { destruct (_ <? _); injection Hb as <-; simpl; auto. }
    destruct Hst1 as [Hl1 Hc1].
    destruct (IH Hl1) as (st' & Hr & Hl' & Hn).
    exists st'. simpl. repeat split; auto. lia.
Qed.

(** Discovery returns, rather than throws, when no evaluation of the
    results page throws. *)
Lemma collectListingUrls_returns (pg : Page) (limit : Z) :
  (forall p, exists found, result (harvest (document p)) = Ok found) ->
  exists refs, collect pg limit = Ok refs.
Proof.
  intros Hfeed. unfold collectListingUrls.
  enough (H : exists st, snd (loop limit (initial_state pg)) = Ok st)
    by (destruct H as [st ->]; eauto).
  apply (discovery_loop_ind limit (fun _ r => exists st, snd r = Ok st)).
  - intros st _. eauto.
  - intros st e _ Hbody. unfold loop_body in Hbody.
    destruct (Hfeed (waitForTimeout 2000 (page st))) as [found Hfound].
    rewrite Hfound in Hbody.
    destruct (add_new limit found (listingUrls st) false).
    destruct (_ <? _); discriminate.
  - intros st st' _ _ IH. exact IH.
Qed.

(** C2. For every results page and every limit of at least 1, discovery
    returns at most [limit] references and no two of them have the same
    locator. *)
Theorem collectListingUrls_bounded_distinct
    (page : Page) (limit : Z) (refs : list Listing) :
  1 <= limit ->
  collect page limit = Ok refs ->
  Z.of_nat (length refs) <= limit /\ NoDup (map url refs).
Proof.
  intros Hlimit. unfold collectListingUrls.
  destruct (snd (loop limit (initial_state page))) as [st |] eqn:Hloop; [| discriminate].
  intros [= <-]. unfold slice0.
  destruct (Z.ltb_spec limit 0) as [? | _]; [lia |]. split.
  - rewrite length_take. lia.
  - apply discovery_loop_NoDup in Hloop; [| apply NoDup_nil_2].
    change (map url (take (Z.to_nat limit) (listingUrls st)))
      with (url <$> take (Z.to_nat limit) (listingUrls st)).
    rewrite fmap_take.
    exact (sublist_NoDup _ _ Hloop (sublist_take _ _)).
Qed.

(** C3. The discovery loop terminates on every input. A pass of its body
    either brings the collection to [limit] or uses up one of the 30 scroll
    attempts, and a pass that adds no locator uses up one of the 5 allowed
    stagnant passes; so the body runs at most 30 times, and on a page that
    never yields a listing it runs at most 5 times and discovery returns
    the empty sequence. *)
Theorem discovery_terminates (limit : Z) :
  (forall st st' : LoopState,
      loop_cond limit st = true -> body limit st = Ok st' ->
      (limit <= Z.of_nat (length (listingUrls st'))
       \/ (scrollAttempts st' = S (scrollAttempts st)
           /\ (scrollAttempts st' <= maxScrollAttempts)%nat))
      /\ (listingUrls st' = listingUrls st ->
          consecutiveNoNewUrls st' = S (consecutiveNoNewUrls st)
          /\ (consecutiveNoNewUrls st' <= maxConsecutiveNoNewUrls)%nat))
  /\ (forall page, (iterations page limit <= maxScrollAttempts)%nat)
  /\ (never_yields document ->
      forall page,
        collect page limit = Ok []
        /\ (iterations page limit <= maxConsecutiveNoNewUrls)%nat).
Proof.
  split; [| split].
  - intros st st' Hcond Hbody.
    apply loop_cond_scroll in Hcond as (_ & Hs & Hc').
    destruct (loop_body_spec _ _ _ Hbody) as (extra & Hurls & _ & Hc & Hsa).
    split.
    + destruct Hsa as [[Hl _] | [_ Hsa]]; [left; exact Hl | right; lia].
    + intros Hsame. rewrite Hsame in Hurls.
      assert (extra = []) as ->.
      { apply (app_inv_head (listingUrls st)). rewrite app_nil_r. congruence. }
      simpl in Hc. lia.
  - intros pg. unfold discovery_iterations.
    pose proof (discovery_loop_bound limit (initial_state pg)) as Hb.
    unfold maxScrollAttempts in *.
    destruct (loop_cond limit (initial_state pg)); simpl in Hb; lia.
  - intros Hfeed pg.
    destruct (stagnant_loop limit (initial_state pg) Hfeed eq_refl)
      as (st' & Hr & Hl & Hn).
    split.
    + unfold collectListingUrls. rewrite Hr, Hl. unfold slice0.
      destruct (limit <? 0); rewrite take_nil; reflexivity.
    + unfold discovery_iterations, maxConsecutiveNoNewUrls in *.
      simpl in Hn. lia.
Qed.

(** With a limit of 0 or less the body of the loop is never entered. *)
Lemma discovery_skipped (page : Page) (limit : Z) :
  limit <= 0 ->
  iterations page limit = O /\ collect page limit = Ok [].
Proof.
  intros Hlimit.
  unfold discovery_iterations, collectListingUrls.
  rewrite discovery_loop_unfold.
  rewrite loop_cond_reached by (simpl; lia). simpl.
  split; [reflexivity |]. unfold slice0.
  destruct (limit <? 0); rewrite take_nil; reflexivity.
Qed.
End DiscoveryFacts.

(** A run of C2 on the mock feed with a limit of 3. *)
Lemma collectListingUrls_bounded_distinct_witness :
  exists refs,
    Server.collectListingUrls Mock.stay Mock.feed S O 3 = Dom.Ok refs
    /\ Z.of_nat (length refs) <= 3 /\ NoDup (map Server.url refs).
Proof.
  eexists. split; [vm_compute; reflexivity |].
  apply (collectListingUrls_bounded_distinct Mock.stay Mock.feed S O 3);
    [lia | vm_compute; reflexivity].
Defined.

(** A run of C3 on a page without any listing. *)
Lemma discovery_terminates_witness :
  Server.collectListingUrls Mock.stay (fun _ => Mock.empty_page) S O 3 = Dom.Ok []
  /\ (Server.discovery_iterations Mock.stay (fun _ => Mock.empty_page) S O 3 <= 5)%nat.
Proof.
  apply (discovery_terminates Mock.stay (fun _ => Mock.empty_page) S 3).
  intros p. reflexivity.
Defined.

(** ** Field extraction *)

Section ExtractionFacts.
Import Js Dom Server Cascade.

Lemma Ok_inj {A : Type} (a b : A) : Ok a = Ok b -> a = b.
Proof. congruence. Qed.

Lemma result_bind {A B : Type} (m : Eval A) (f : A -> Eval B) :
  result (m ≫= f) =
    match result m with
    | Ok a => result (f a)
    | Throw e => Throw e
    end.
Proof.
  destruct m as [t [a | e]]; simpl; [| reflexivity].
  destruct (f a); reflexivity.
Qed.

Lemma trace_bind {A B : Type} (m : Eval A) (f : A -> Eval B) :
  trace (m ≫= f) =
    (trace m ++ match result m with
                | Ok a => trace (f a)
                | Throw _ => []
                end)%list.
Proof.
  destruct m as [t [a | e]]; simpl; [| by rewrite app_nil_r].
  destruct (f a); reflexivity.
Qed.

(** A loop of the shape "query the selector, assign and break when the
    pass yields, else go on" is the first-wins cascade. *)
Ltac cascade :=
  let sels := fresh "selectors" in
  let IH := fresh "IH" in
  intros ? sels ?; induction sels as [| ? ? IH]; simpl; [reflexivity |];
  unfold located in *;
  match goal with
  | |- context [head (doc_querySelectorAll ?d ?s)] =>
      destruct (head (doc_querySelectorAll d s)) eqn:?
  end; simpl;
  try reflexivity;
  try (rewrite IH; reflexivity).

Lemma name_loop_cascade :
  forall doc selectors details,
    let yield s := (fun e => trim (textContent e)) <$> located doc s in
    name_loop doc selectors details =
      (map Query (invoked yield selectors),
       Ok (assign "name" (first_wins yield selectors) details)).
Proof. cascade. Qed.

Lemma address_loop_cascade :
  forall doc selectors details,
    let yield s := address_text <$> located doc s in
    address_loop doc selectors details =
      (map Query (invoked yield selectors),
       Ok (assign "address" (first_wins yield selectors) details)).
Proof. cascade. Qed.

(** The phone loop and the website loop are first-wins cascades too, with
    the value or the exception of the first element located. *)
Lemma phone_loop_cascade :
  forall doc selectors details,
    let yield s := phone_text <$> located doc s in
    phone_loop doc selectors details =
      (map Query (invoked yield selectors),
       settle "phone" (first_wins yield selectors) details).
Proof.
  intros doc selectors details. induction selectors as [| s rest IH]; simpl;
    [reflexivity |].
  unfold located in *. destruct (head (doc_querySelectorAll doc s)) as [e |]; simpl.
  - destruct (phone_text e); reflexivity.
  - rewrite IH. reflexivity.
Qed.

Lemma website_loop_cascade :
  forall doc selectors details,
    let yield s := website_text <$> located doc s in
    website_loop doc selectors details =
      (map Query (invoked yield selectors),
       settle "website" (first_wins yield selectors) details).
Proof.
  intros doc selectors details. induction selectors as [| s rest IH]; simpl;
    [reflexivity |].
  unfold located in *. destruct (head (doc_querySelectorAll doc s)) as [e |]; simpl.
  - destruct (website_text e); reflexivity.
  - rewrite IH. reflexivity.
Qed.

Lemma settle_value (key : string) (outcome : option (Res string))
    (details : gmap string string) :
  fault_of outcome = None ->
  settle key outcome details = Ok (assign key (value_of outcome) details).
Proof. destruct outcome as [[text | e] |]; simpl; [reflexivity | discriminate | reflexivity]. Qed.

Lemma settle_fault (key : string) (outcome : option (Res string))
    (details : gmap string string) (e : Exn) :
  fault_of outcome = Some e -> settle key outcome details = Throw e.
Proof. destruct outcome as [[text | e'] |]; simpl; congruence. Qed.

Lemma price_loop_cascade :
  forall doc selectors details,
    let yield s := price_text <$> located doc s in
    price_loop doc selectors details =
      (map Query (invoked yield selectors),
       Ok (assign "priceRange" (first_wins yield selectors) details)).
Proof. cascade. Qed.

Lemma rating_loop_cascade :
  forall doc selectors details,
    let yield s := rating_text (located doc s) in
    rating_loop doc selectors details =
      (map Query (invoked yield selectors),
       Ok (assign "rating" (first_wins yield selectors) details)).
Proof.
  intros doc selectors details. induction selectors as [| s rest IH]; simpl;
    [reflexivity |].
  unfold located in *. destruct (rating_text (head (doc_querySelectorAll doc s)));
    simpl; [reflexivity |].
  rewrite IH. reflexivity.
Qed.

Lemma hours_section_loop_cascade :
  forall doc selectors details,
    let yield s := (fun e => trim (textContent e)) <$> located doc s in
    hours_section_loop doc selectors details =
      (map Query (invoked yield selectors),
       Ok (assign "hours" (first_wins yield selectors) details,
           bool_decide (is_Some (first_wins yield selectors)))).
Proof.
  intros doc selectors details. induction selectors as [| s rest IH]; simpl;
    [reflexivity |].
  unfold located in *. destruct (head (doc_querySelectorAll doc s)); simpl;
    [reflexivity |].
  rewrite IH. reflexivity.
Qed.

Lemma category_loop_cascade :
  forall doc selectors details,
    category_loop doc selectors details NA =
      (map QueryAll (invoked (category_yield doc details) selectors),
       Ok (default NA (first_wins (category_yield doc details) selectors))).
Proof.
  intros doc selectors details. induction selectors as [| s rest IH]; simpl;
    [reflexivity |].
  unfold category_yield at 1 3.
  destruct (String.eqb_spec
              (fold_left (category_element details) (doc_querySelectorAll doc s) NA)
              NA) as [Heq | Hne]; simpl.
  - rewrite Heq, IH. reflexivity.
  - reflexivity.
Qed.

(** The attributes loop queries every selector, whatever the earlier ones
    gave, and accumulates over all of them. *)
Lemma attributes_loop_all :
  forall doc selectors details category attributes,
    attributes_loop doc selectors details category attributes =
      (map QueryAll selectors,
       Ok (fold_left
             (fun acc s =>
                fold_left (attribute_element details category)
                  (doc_querySelectorAll doc s) acc)
             selectors attributes)).
Proof.
  intros doc selectors details category.
  induction selectors as [| s rest IH]; intros attributes; simpl; [reflexivity |].
  rewrite IH. reflexivity.
Qed.

Lemma reviews_loop_cascade (containers : list Element) (details : gmap string string) :
  reviews_loop containers details =
    assign "reviews"
      (first_wins (fun c => captured (match_ (textContent c) re_count_reviews))
         containers)
      details.
Proof.
  induction containers as [| c rest IH]; simpl; [reflexivity |].
  destruct (captured _); [reflexivity | exact IH].
Qed.

Lemma lookup_assign (key k : string) (v : option string) (d : gmap string string) :
  assign key v d !! k =
    if decide (key = k)
    then match v with Some t => Some t | None => d !! k end
    else d !! k.
Proof.
  destruct v as [t |]; simpl.
  - rewrite lookup_insert. case_decide; reflexivity.
  - case_decide; reflexivity.
Qed.

(** Once a row has given an entry the flag stays set, and as long as it is
    not set nothing has been gathered. *)
Lemma hours_rows_found (rows : list Element) (acc : list string * bool) :
  snd acc = true -> snd (fold_left hours_row rows acc) = true.
Proof.
  revert acc. induction rows as [| row rows IH]; intros acc Hacc; simpl; [exact Hacc |].
  apply IH. unfold hours_row.
  destruct (cell_text row ".ylH6lf, .x4hIce"); [| exact Hacc].
  destruct (cell_text row ".mxowUb, .G8aQO"); [| exact Hacc].
  destruct (truthy _ && truthy _); [reflexivity | exact Hacc].
Qed.

Lemma hours_rows_none (rows : list Element) (acc : list string * bool) :
  snd (fold_left hours_row rows acc) = false -> fold_left hours_row rows acc = acc.
Proof.
  revert acc. induction rows as [| row rows IH]; intros acc Hnone; simpl in *;
    [reflexivity |].
  rewrite (IH _ Hnone). rewrite (IH _ Hnone) in Hnone. revert Hnone.
  unfold hours_row.
  destruct (cell_text row ".ylH6lf, .x4hIce"); [| reflexivity].
  destruct (cell_text row ".mxowUb, .G8aQO"); [| reflexivity].
  destruct (truthy _ && truthy _); [discriminate | reflexivity].
Qed.

(** One pass of the loop over the hours tables: a table that gives no
    entry leaves the search as it found it. *)
Lemma hours_table_loop_step doc s rest details :
  hours_table_loop doc (s :: rest) details ([], false) =
    match table_yield doc s with
    | Some hours => ([Query s], Ok (<["hours" := hours]> details, true))
    | None =>
        let '(t, r) := hours_table_loop doc rest details ([], false) in
        (Query s :: t, r)
    end.
Proof.
  cbn [hours_table_loop]. unfold table_yield, located, document_querySelector.
  simpl. destruct (head (doc_querySelectorAll doc s)) as [table |]; [| reflexivity].
  destruct (snd (fold_left hours_row (querySelectorAll table "tr.y0skZc, tr")
                   ([], false))) eqn:Hfound; [reflexivity |].
  rewrite (hours_rows_none _ _ Hfound). reflexivity.
Qed.

(** The loop over the hours tables is a first-wins cascade. *)
Lemma hours_table_loop_cascade :
  forall doc selectors details,
    hours_table_loop doc selectors details ([], false) =
      (map Query (invoked (table_yield doc) selectors),
       Ok (assign "hours" (first_wins (table_yield doc) selectors) details,
           bool_decide (is_Some (first_wins (table_yield doc) selectors)))).
Proof.
  intros doc selectors details. induction selectors as [| s rest IH];
    [reflexivity |].
  rewrite hours_table_loop_step. cbn [invoked first_wins].
  destruct (table_yield doc s); [reflexivity |].
  rewrite IH. reflexivity.
Qed.

Lemma first_wins_located_none {V : Type} (f : Element -> V) doc selectors :
  Forall (fun s => doc_querySelectorAll doc s = []) selectors ->
  first_wins (fun s => f <$> located doc s) selectors = None.
Proof.
  induction 1 as [| s l Hs _ IH]; simpl; [reflexivity |].
  unfold located at 1. rewrite Hs. exact IH.
Qed.

(** The hours search leaves in the record the hours of the first table
    that yields, else of the first section located, else the sentinel. *)
Lemma extract_hours_result doc details :
  result (extract_hours doc details) = Ok (<["hours" := hours_value doc]> details).
Proof.
  unfold extract_hours, hours_value.
  rewrite result_bind, hours_table_loop_cascade. cbn [result snd].
  destruct (first_wins (table_yield doc) hoursTableSelectors) as [hours |].
  - rewrite bool_decide_eq_true_2 by eauto. reflexivity.
  - rewrite bool_decide_eq_false_2 by (intros [? ?]; discriminate).
    cbn [negb assign]. cbv beta iota.
    rewrite result_bind, hours_section_loop_cascade. cbv zeta. cbn [result snd].
    change (fun s => (fun e => trim (textContent e)) <$> located doc s)
      with (section_yield doc).
    destruct (first_wins (section_yield doc) hoursSelectors) as [hours |].
    + rewrite bool_decide_eq_true_2 by eauto. reflexivity.
    + rewrite bool_decide_eq_false_2 by (intros [? ?]; discriminate). reflexivity.
Qed.

Lemma table_yield_none doc selectors :
  Forall (fun s => doc_querySelectorAll doc s = []) selectors ->
  first_wins (table_yield doc) selectors = None.
Proof.
  induction 1 as [| s l Hs _ IH]; simpl; [reflexivity |].
  unfold table_yield at 1, located. rewrite Hs. exact IH.
Qed.

Lemma hours_value_none doc :
  Forall (fun s => doc_querySelectorAll doc s = [])
         (hoursTableSelectors ++ hoursSelectors) ->
  hours_value doc = NA.
Proof.
  intros Hempty. apply Forall_app in Hempty as [Htables Hsections].
  unfold hours_value. rewrite (table_yield_none _ _ Htables).
  unfold section_yield. by rewrite (first_wins_located_none _ _ _ Hsections).
Qed.

Lemma assign_insert (key : string) (v : option string) (t : string)
    (d : gmap string string) :
  assign key v (<[key := t]> d) = <[key := default t v]> d.
Proof. destruct v; simpl; [apply insert_insert_eq | reflexivity]. Qed.

Lemma body_innerText_result (doc : Document) :
  result (document_body_innerText doc) =
    match body_innerText doc with
    | Some text => Ok text
    | None => Throw null_body
    end.
Proof. unfold document_body_innerText. destruct (body_innerText doc); reflexivity. Qed.

Lemma rating_method2_result (doc : Document) (d : gmap string string) :
  result (rating_method2 doc d) =
    Ok (assign "rating"
          (if prop_is d "rating" NA
           then (fun span => trim (textContent span))
                  <$> List.find is_rating_span (doc_querySelectorAll doc "span")
           else None)
          d).
Proof.
  unfold rating_method2. destruct (prop_is d "rating" NA); [| reflexivity].
  rewrite result_bind. simpl.
  destruct (List.find is_rating_span _); reflexivity.
Qed.

Lemma reviews_method2_result (doc : Document) (d : gmap string string) :
  result (reviews_method2 doc d) =
    if prop_is d "reviews" NA then
      match body_innerText doc with
      | Some pageText =>
          Ok (assign "reviews"
                (first_captured [ match_ pageText re_count_reviews;
                                  match_ pageText re_reviews_count ])
                d)
      | None => Throw null_body
      end
    else Ok d.
Proof.
  unfold reviews_method2. destruct (prop_is d "reviews" NA); [| reflexivity].
  rewrite result_bind, body_innerText_result.
  destruct (body_innerText doc); [| reflexivity].
  destruct (first_captured _); reflexivity.
Qed.

(** A text that passes the rating pattern is not the sentinel. *)
Lemma rating_text_not_NA (e : option Element) (t : string) :
  rating_text e = Some t -> t <> NA /\ test re_rating t = true.
Proof.
  unfold rating_text, test. destruct e as [e |]; [| discriminate].
  destruct (truthy _); [| discriminate].
  destruct (match_ (trim (textContent e)) re_rating) eqn:Hm; [| discriminate].
  intros [= <-]. rewrite Hm. split; [| reflexivity].
  intros Heq. rewrite Heq in Hm. vm_compute in Hm. discriminate.
Qed.

Lemma first_wins_some {S V : Type} (yield : S -> option V) (l : list S) (v : V) :
  first_wins yield l = Some v -> exists s, s ∈ l /\ yield s = Some v.
Proof.
  induction l as [| s l IH]; simpl; [discriminate |].
  destruct (yield s) eqn:Hs.
  - intros [= <-]. exists s. split; [left | exact Hs].
  - intros H. destruct (IH H) as (s' & Hin & Hy). exists s'. split; [by right | exact Hy].
Qed.

Lemma reviews_method2_body (doc : Document) (d : gmap string string) (pageText : string) :
  body_innerText doc = Some pageText ->
  result (reviews_method2 doc d) =
    Ok (assign "reviews"
          (if prop_is d "reviews" NA
           then first_captured [ match_ pageText re_count_reviews;
                                 match_ pageText re_reviews_count ]
           else None)
          d).
Proof.
  intros Hbody. rewrite reviews_method2_result, Hbody.
  destruct (prop_is d "reviews" NA); reflexivity.
Qed.

Lemma prop_is_insert (d : gmap string string) (key v t : string) :
  prop_is (<[key := v]> d) key t = bool_decide (v = t).
Proof.
  unfold prop_is. rewrite lookup_insert_eq.
  apply bool_decide_ext. split; congruence.
Qed.

Lemma category_yield_none doc details selectors :
  Forall (fun s => doc_querySelectorAll doc s = []) selectors ->
  first_wins (category_yield doc details) selectors = None.
Proof.
  induction 1 as [| s l Hs _ IH]; simpl; [reflexivity |].
  unfold category_yield at 1. rewrite Hs. simpl. exact IH.
Qed.

Lemma attributes_none doc details category selectors :
  Forall (fun s => doc_querySelectorAll doc s = []) selectors ->
  fold_left
    (fun acc s =>
       fold_left (attribute_element details category) (doc_querySelectorAll doc s) acc)
    selectors [] = [].
Proof.
  induction 1 as [| s l Hs _ IH]; simpl; [reflexivity |].
  rewrite Hs. simpl. exact IH.
Qed.

Lemma attribute_element_ext (d d' : gmap string string) (category : string) :
  (forall k, k ∈ [ "name"; "address"; "phone"; "website" ] -> d !! k = d' !! k) ->
  forall acc e, attribute_element d category acc e = attribute_element d' category acc e.
Proof.
  intros Hagree acc e. unfold attribute_element, attribute_accepts, prop_is.
  rewrite (Hagree "name"), (Hagree "address"), (Hagree "phone"), (Hagree "website");
    [reflexivity | ..];
    repeat (first [apply list_elem_of_here | apply list_elem_of_further]).
Qed.

(** The attributes collected depend on the record only through the name,
    the address, the phone and the website. *)
Lemma found_attributes_ext doc (d d' : gmap string string) (category : string)
    (selectors : list string) (acc : list string) :
  (forall k, k ∈ [ "name"; "address"; "phone"; "website" ] -> d !! k = d' !! k) ->
  fold_left
    (fun acc s =>
       fold_left (attribute_element d category) (doc_querySelectorAll doc s) acc)
    selectors acc
  = fold_left
      (fun acc s =>
         fold_left (attribute_element d' category) (doc_querySelectorAll doc s) acc)
      selectors acc.
Proof.
  intros Hagree. revert acc.
  induction selectors as [| s rest IH]; intros acc; simpl; [reflexivity |].
  rewrite IH. f_equal.
  generalize (doc_querySelectorAll doc s). intros els. revert acc.
  induction els as [| e els IHe]; intros acc; simpl; [reflexivity |].
  rewrite IHe, (attribute_element_ext d d' category Hagree). reflexivity.
Qed.

Lemma attributes_field_eq (l1 l2 : list string) :
  l1 = l2 ->
  (if Nat.ltb 0 (length l1) then Some (join ", " l1) else None) = attributes_field l2.
Proof. intros ->. reflexivity. Qed.

Lemma if_assign (b : bool) (key v : string) (d : gmap string string) :
  (if b then <[key := v]> d else d) = assign key (if b then Some v else None) d.
Proof. destruct b; reflexivity. Qed.

(** Reads a field of a record given by [detail_record]. *)
Ltac lookup_record :=
  unfold detail_record;
  repeat (rewrite lookup_assign || rewrite lookup_insert || rewrite lookup_empty);
  repeat (case_decide; try discriminate; try congruence).

Ltac step_with lem := rewrite result_bind, lem; cbn [result snd]; cbv beta iota.

Lemma category_accepts_ext (d d' : gmap string string) (text : string) :
  d !! "website" = d' !! "website" ->
  category_accepts d text = category_accepts d' text.
Proof. intros H. unfold category_accepts, prop_is. by rewrite H. Qed.

(** What a category strategy yields depends on the record only through
    the website. *)
Lemma category_yield_ext doc (d d' : gmap string string) (selectors : list string) :
  d !! "website" = d' !! "website" ->
  first_wins (category_yield doc d) selectors
  = first_wins (category_yield doc d') selectors.
Proof.
  intros Hweb. induction selectors as [| s rest IH]; simpl; [reflexivity |].
  assert (Hs : category_yield doc d s = category_yield doc d' s).
  { assert (Hfold : forall els c,
              fold_left (category_element d) els c
              = fold_left (category_element d') els c).
    { induction els as [| e els IHe]; intros c; simpl; [reflexivity |].
      rewrite IHe. unfold category_element.
      by rewrite (category_accepts_ext d d' _ Hweb). }
    unfold category_yield. by rewrite Hfold. }
  by rewrite Hs, IH.
Qed.

(** The outcome of [extractBusinessDetails], exactly: the exception it
    meets first, or else the record, field by field. *)
Lemma extract_result (doc : Document) :
  match extraction_fault doc with
  | Some e => result (extractBusinessDetails doc) = Throw e
  | None =>
      exists pageText rating category attributes,
        let r :=
          detail_record
            (first_wins (fun s => (fun e => trim (textContent e)) <$> located doc s)
               nameSelectors)
            (default NA (first_wins (fun s => address_text <$> located doc s)
                           addressSelectors))
            (default NA (value_of (phone_outcome doc)))
            (default NA (value_of (website_outcome doc)))
            rating (reviews_value doc pageText) (hours_value doc)
            (match match_ pageText emailRegex with
             | Some m => whole m
             | None => NA
             end)
            category attributes
            (first_wins (fun s => price_text <$> located doc s) priceSelectors) in
        body_innerText doc = Some pageText
        /\ result (extractBusinessDetails doc) = Ok r
        /\ attributes = attributes_field (found_attributes doc r category)
        /\ (first_wins (fun s => rating_text (located doc s)) ratingSelectors
              = Some rating
            \/ (first_wins (fun s => rating_text (located doc s)) ratingSelectors
                  = None
                /\ rating =
                     default NA
                       ((fun span => trim (textContent span))
                          <$> List.find is_rating_span
                                (doc_querySelectorAll doc "span"))))
        /\ category =
             category_method2 pageText
               (default NA (first_wins (category_yield doc r) categorySelectors))
  end.
Proof.
  unfold extraction_fault, phone_outcome, website_outcome.
  unfold extractBusinessDetails. cbv zeta.
  set (phone := first_wins (fun s => phone_text <$> located doc s) phoneSelectors).
  set (website :=
         first_wins (fun s => website_text <$> located doc s) websiteSelectors).
  destruct (fault_of phone) as [e |] eqn:Hphone.
  { step_with name_loop_cascade.
    step_with address_loop_cascade.
    rewrite result_bind, phone_loop_cascade. cbv zeta. cbn [result snd].
    fold phone. by rewrite (settle_fault _ _ _ _ Hphone). }
  destruct (fault_of website) as [e |] eqn:Hwebsite.
  { step_with name_loop_cascade.
    step_with address_loop_cascade.
    rewrite result_bind, phone_loop_cascade. cbv zeta. cbn [result snd].
    fold phone. rewrite (settle_value _ _ _ Hphone). cbv beta iota.
    rewrite result_bind, website_loop_cascade. cbv zeta. cbn [result snd].
    fold website. by rewrite (settle_fault _ _ _ _ Hwebsite). }
  destruct (body_innerText doc) as [pageText |] eqn:Hbody.
  - step_with name_loop_cascade.
    step_with address_loop_cascade. rewrite assign_insert.
    rewrite result_bind, phone_loop_cascade. cbv zeta. cbn [result snd].
    fold phone. rewrite (settle_value _ _ _ Hphone), assign_insert. cbv beta iota.
    rewrite result_bind, website_loop_cascade. cbv zeta. cbn [result snd].
    fold website. rewrite (settle_value _ _ _ Hwebsite), assign_insert.
    cbv beta iota.
    step_with rating_loop_cascade. rewrite assign_insert.
    step_with rating_method2_result. rewrite prop_is_insert, assign_insert.
    rewrite result_bind. cbn [result snd document_querySelectorAll]. cbv beta iota.
    rewrite reviews_loop_cascade, assign_insert.
    rewrite result_bind, (reviews_method2_body _ _ _ Hbody). cbv beta iota.
    rewrite prop_is_insert, assign_insert.
    rewrite result_bind, extract_hours_result. cbv beta iota.
    rewrite result_bind, body_innerText_result, Hbody. cbv beta iota.
    step_with category_loop_cascade.
    step_with attributes_loop_all.
    step_with price_loop_cascade.
    rewrite if_assign.
    exists pageText. do 3 eexists. cbv zeta.
    split; [reflexivity |]. split; [reflexivity |].
    split; [| split].
    + apply attributes_field_eq. unfold found_attributes.
      apply found_attributes_ext.
      intros k Hk.
      repeat (apply elem_of_cons in Hk as [-> | Hk]);
        try (exfalso; by apply elem_of_nil in Hk);
        lookup_record.
    + destruct (first_wins (fun s => rating_text (located doc s)) ratingSelectors)
        as [t |] eqn:Hfw; simpl.
      * left. apply first_wins_some in Hfw as (s & _ & Hs).
        apply rating_text_not_NA in Hs as [Hne _].
        rewrite bool_decide_eq_false_2 by exact Hne. reflexivity.
      * right. split; reflexivity.
    + f_equal. f_equal. apply category_yield_ext. lookup_record.
  - step_with name_loop_cascade.
    step_with address_loop_cascade.
    rewrite result_bind, phone_loop_cascade. cbv zeta. cbn [result snd].
    fold phone. rewrite (settle_value _ _ _ Hphone). cbv beta iota.
    rewrite result_bind, website_loop_cascade. cbv zeta. cbn [result snd].
    fold website. rewrite (settle_value _ _ _ Hwebsite). cbv beta iota.
    step_with rating_loop_cascade.
    step_with rating_method2_result.
    rewrite result_bind. cbn [result snd document_querySelectorAll]. cbv beta iota.
    rewrite result_bind, reviews_method2_result, Hbody.
    match goal with |- context [prop_is ?d "reviews" NA] =>
      destruct (prop_is d "reviews" NA) end; [reflexivity |].
    rewrite result_bind, extract_hours_result. cbv beta iota.
    rewrite result_bind, body_innerText_result, Hbody. reflexivity.
Qed.

Lemma plain_text_spec (pageText : string) :
  plain_text pageText = true ->
  first_captured [ match_ pageText re_count_reviews;
                   match_ pageText re_reviews_count ] = None
  /\ match_ pageText emailRegex = None
  /\ category_method2 pageText NA = NA.
Proof.
  unfold plain_text, test, category_method2. simpl.
  destruct (match_ pageText re_count_reviews); [discriminate |].
  destruct (match_ pageText re_reviews_count); [discriminate |].
  destruct (match_ pageText emailRegex); [discriminate |].
  destruct (match_ pageText re_category); [discriminate |].
  destruct (match_ pageText re_type); [discriminate |].
  auto.
Qed.

(** When it meets no exception, the extraction returns a record. *)
Lemma extract_returns (doc : Document) :
  extraction_fault doc = None ->
  exists r, result (extractBusinessDetails doc) = Ok r.
Proof.
  intros Hfault. pose proof (extract_result doc) as Hshape. rewrite Hfault in Hshape.
  cbv zeta in Hshape. destruct Hshape as (? & ? & ? & ? & _ & Heq & _). eauto.
Qed.

(** An exception comes from the first phone element or the first website
    element located, or from the missing body. *)
Lemma extract_throws (doc : Document) (e : Exn) :
  result (extractBusinessDetails doc) = Throw e <-> extraction_fault doc = Some e.
Proof.
  pose proof (extract_result doc) as Hshape.
  destruct (extraction_fault doc) as [e' |].
  - rewrite Hshape. split; congruence.
  - cbv zeta in Hshape. destruct Hshape as (? & ? & ? & ? & _ & Heq & _).
    rewrite Heq. split; discriminate.
Qed.

(** C1, as the code has it. A record returned by [extractBusinessDetails]
    always carries address, phone, website, email, rating, reviews, hours
    and category, and no key outside the eleven fields. The name and the
    price range are there exactly when one of their selectors locates an
    element, and the attributes exactly when the attributes loop collected
    a text. A page that exposes only a name and a rating gives a record with
    those two fields, the sentinel in the seven other fields that are always
    set, and neither attributes nor price range. *)
Theorem extractBusinessDetails_record_shape (doc : Document) (r : gmap string string) :
  result (extractBusinessDetails doc) = Ok r ->
  (forall k, k ∈ [ "address"; "phone"; "website"; "email"; "rating"; "reviews";
                   "hours"; "category" ] -> is_Some (r !! k))
  /\ (forall k, is_Some (r !! k) -> k ∈ fields)
  /\ r !! "name" =
       first_wins (fun s => (fun e => trim (textContent e)) <$> located doc s)
         nameSelectors
  /\ r !! "priceRange" =
       first_wins (fun s => price_text <$> located doc s) priceSelectors
  /\ r !! "attributes" =
       attributes_field (found_attributes doc r (default NA (r !! "category")))
  /\ (forall pageText name rating,
        Forall (fun s => doc_querySelectorAll doc s = [])
          (addressSelectors ++ phoneSelectors ++ websiteSelectors
           ++ [ "span.F7nice, div.F7nice, div.review-score" ]
           ++ hoursTableSelectors ++ hoursSelectors ++ categorySelectors
           ++ attributeSelectors ++ priceSelectors) ->
        body_innerText doc = Some pageText ->
        plain_text pageText = true ->
        first_wins (fun s => (fun e => trim (textContent e)) <$> located doc s)
          nameSelectors = Some name ->
        first_wins (fun s => rating_text (located doc s)) ratingSelectors
          = Some rating ->
        r = detail_record (Some name) NA NA NA rating NA NA NA NA None None).
Proof.
  intros Hr. pose proof (extract_result doc) as Hshape.
  destruct (extraction_fault doc) as [e |] eqn:Hfault; [congruence |].
  cbv zeta in Hshape.
  destruct Hshape
    as (pageText & rating & category & attributes & Hbody & Heq & Hfound & Hrating
        & Hcategory).
  rewrite Heq in Hr. apply Ok_inj in Hr. clear Heq.
  assert (Hrc : r !! "category" = Some category) by (subst r; lookup_record).
  assert (Hra : r !! "attributes" = attributes)
    by (subst r; lookup_record; by destruct attributes).
  rewrite Hr in Hfound. rewrite Hrc, Hra. cbn [default]. clear Hrc Hra. subst r.
  remember (first_wins (fun s => (fun e => trim (textContent e)) <$> located doc s)
              nameSelectors) as vname eqn:Hvname.
  remember (first_wins (fun s => price_text <$> located doc s) priceSelectors)
    as vprice eqn:Hvprice.
  split; [| split; [| split; [| split; [| split]]]].
  - intros k Hk.
    repeat (apply elem_of_cons in Hk as [-> | Hk]);
      try (exfalso; by apply elem_of_nil in Hk);
      lookup_record; destruct attributes, vprice; eauto.
  - intros k [v Hv]. revert Hv. unfold fields. lookup_record;
      try (intros _; subst k;
           repeat (first [apply list_elem_of_here | apply list_elem_of_further])).
  - lookup_record. by destruct vname.
  - lookup_record. by destruct vprice.
  - exact Hfound.
  - intros pageText' name rating' Hempty Hbody' Hplain Hname Hrate.
    assert (pageText' = pageText) as -> by congruence.
    repeat (apply Forall_app in Hempty as [? Hempty]).
    apply plain_text_spec in Hplain as (Hcap & Hemail & Hcat).
    subst vprice. rewrite Hname.
    unfold phone_outcome, website_outcome.
    rewrite !first_wins_located_none by assumption.
    destruct Hrating as [Hrating | [Hrating _]]; [| congruence].
    assert (rating = rating') as -> by congruence.
    rewrite Hemail. cbn [value_of default from_option id].
    rewrite category_yield_none in Hcategory by assumption.
    cbn [default from_option id] in Hcategory. rewrite Hcat in Hcategory.
    unfold found_attributes in Hfound.
    rewrite attributes_none in Hfound by assumption.
    rewrite Hcategory, Hfound, hours_value_none by (apply Forall_app; auto).
    unfold reviews_value.
    match goal with
    | H : Forall _ (cons _ nil) |- _ => rewrite (Forall_inv H)
    end.
    rewrite Hcap. reflexivity.
Qed.

Lemma invoked_first {S V : Type} (yield : S -> option V)
    (before : list S) (s : S) (after : list S) (v : V) :
  Forall (fun s' => yield s' = None) before ->
  yield s = Some v ->
  invoked yield (before ++ s :: after) = (before ++ [s])%list
  /\ first_wins yield (before ++ s :: after) = Some v.
Proof.
  intros Hbefore Hs. induction Hbefore as [| s' l Hs' _ [IHi IHf]]; simpl.
  - rewrite Hs. auto.
  - rewrite Hs', IHi, IHf. auto.
Qed.



(** Whatever the page, the rating is the sentinel or a text that passes the
    pattern of one digit with an optional decimal; when it comes from the
    scan of the spans it is also at most 5. *)
Lemma rating_resolved_shape (doc : Document) (r : gmap string string) :
  result (extractBusinessDetails doc) = Ok r ->
  r !! "rating" = Some NA
  \/ exists t, r !! "rating" = Some t /\ test re_rating t = true
               /\ (first_wins (fun s => rating_text (located doc s)) ratingSelectors
                     = None -> parseFloat_le_5 t = true).
Proof.
  intros Hr. pose proof (extract_result doc) as Hshape.
  destruct (extraction_fault doc) as [e |] eqn:Hfault; [congruence |].
  cbv zeta in Hshape.
  destruct Hshape
    as (pageText & rating & category & attributes & _ & Heq & _ & Hrating & _).
  rewrite Heq in Hr. apply Ok_inj in Hr. subst r. clear Heq.
  assert (Hlookup : forall a b c d e f g h i j,
             detail_record a b c d rating e f g h i j !! "rating" = Some rating).
  { intros. lookup_record. }
  rewrite Hlookup.
  destruct Hrating as [Hfw | [Hfw ->]].
  - right. exists rating.
    destruct (first_wins_some _ _ _ Hfw) as (s & _ & Hs).
    apply rating_text_not_NA in Hs as [_ Htest].
    repeat split; auto. congruence.
  - destruct (List.find is_rating_span _) as [span |] eqn:Hfind; simpl.
    + right. exists (trim (textContent span)).
      apply find_some in Hfind as [_ Hspan]. unfold is_rating_span in Hspan.
      apply andb_prop in Hspan as [Hspan Hle].
      apply andb_prop in Hspan as [_ Htest]. auto.
    + left. reflexivity.
Qed.

End ExtractionFacts.

(** C1, as stated, fails on a page that exposes only a name and a rating:
    the record has no attributes and no price range at all. *)
Lemma record_lacks_optional_fields :
  Mock.returned (Server.extractBusinessDetails Mock.name_rating_page) = true
  /\ Mock.field (Server.extractBusinessDetails Mock.name_rating_page) "name"
      = Some "Cafe Nero"
  /\ Mock.field (Server.extractBusinessDetails Mock.name_rating_page) "rating"
      = Some "4.5"
  /\ Mock.field (Server.extractBusinessDetails Mock.name_rating_page) "attributes"
      = None
  /\ Mock.field (Server.extractBusinessDetails Mock.name_rating_page) "priceRange"
      = None.
Proof. repeat split; vm_compute; reflexivity. Qed.

(** A run of the amended C1 on that page. *)
Lemma extractBusinessDetails_record_shape_witness :
  exists r,
    Dom.result (Server.extractBusinessDetails Mock.name_rating_page) = Dom.Ok r
    /\ r = Cascade.detail_record (Some "Cafe Nero") Server.NA Server.NA Server.NA
             "4.5" Server.NA Server.NA Server.NA Server.NA None None.
Proof.
  destruct (extract_returns Mock.name_rating_page eq_refl) as [r Hr].
  exists r. split; [exact Hr |].
  destruct (extractBusinessDetails_record_shape Mock.name_rating_page r Hr)
    as (_ & _ & _ & _ & _ & Hscenario).
  apply (Hscenario "Cafe Nero 4.5"); try (vm_compute; reflexivity).
  repeat constructor.
Defined.

(** C4 at a page whose rating container reads 9.5: the first method takes
    the text although it is above 5. *)
Theorem rating_above_five_accepted :
  Mock.returned (Server.extractBusinessDetails Mock.high_rating_page) = true
  /\ Mock.field (Server.extractBusinessDetails Mock.high_rating_page) "rating"
      = Some "9.5"
  /\ Js.parseFloat_le_5 "9.5" = false.
Proof. repeat split; vm_compute; reflexivity. Qed.



(** ** The orchestrator *)

Section ScrapeFacts.
Import Js Dom Server Cascade.
Variable fails : Scope -> Call -> bool.
Context {Page : Type}.
Variable waitForTimeout : Z -> Page -> Page.
Variable document : Page -> Document.
Variable improvedAutoScroll : Page -> Page.
Variable results_page : Page.
Variable detail_document : nat -> string -> Document.

Abbreviation visit := (visit_listing fails detail_document).
Abbreviation loop := (listing_loop fails detail_document).

Lemma run_bind {A B : Type} (m : Run A) (f : A -> Run B) (s : ScrapeState) :
  (m ≫= f) s =
    match m s with
    | (s', Ok a) => f a s'
    | (s', Throw e) => (s', Throw e)
    end.
Proof. reflexivity. Qed.

Lemma call_run (scope : Scope) (c : Call) (s : ScrapeState) :
  call fails scope c s =
    (s, if fails scope c then Throw (DriverError "driver call failed") else Ok tt).
Proof. unfold call. destruct (fails scope c); reflexivity. Qed.

(** One pass of the loop never throws, and adds the listing's record when
    the listing got as far as having one. *)
Lemma visit_listing_isolated (i : nat) (listing : Listing) (s : ScrapeState) :
  snd (try_continue (visit i listing) s) = Ok tt
  /\ detailedData (fst (try_continue (visit i listing) s)) =
       (detailedData s ++ option_list (record_of fails detail_document i listing))%list.
Proof.
  split; [reflexivity |].
  unfold try_continue, visit_listing, record_of, reaches_extraction.
  cbn [fst forallb].
  rewrite run_bind. unfold newPage.
  destruct (fails (Visit i) CNewPage); cbn [negb andb];
    [cbn; by rewrite app_nil_r |].
  repeat (rewrite run_bind, call_run;
          match goal with
          | |- context [fails (Visit i) ?c] =>
              destruct (fails (Visit i) c); cbn [negb andb];
              [cbn; by rewrite app_nil_r |]
          end).
  rewrite run_bind. unfold evaluate_details.
  destruct (fails (Visit i) CEvaluate); cbn [negb andb];
    [cbn; by rewrite app_nil_r |].
  destruct (result (extractBusinessDetails (detail_document i (url listing))));
    [| cbn; by rewrite app_nil_r].
  rewrite run_bind. unfold push at 1. cbn [detailedData browser].
  rewrite run_bind. unfold closePage.
  destruct (fails (Visit i) CClosePage); [reflexivity |].
  rewrite call_run. reflexivity.
Qed.

(** A pass whose navigation throws leaves the page it opened among the open
    pages: nothing closes it before the browser itself is closed. *)
Lemma failed_navigation_keeps_page_open (i : nat) (listing : Listing) (s : ScrapeState) :
  fails (Visit i) CNewPage = false ->
  fails (Visit i) CSetUserAgent = false ->
  fails (Visit i) CSetExtraHTTPHeaders = false ->
  fails (Visit i) CSetRequestInterception = false ->
  fails (Visit i) CGoto = true ->
  open_pages (browser (fst (try_continue (visit i listing) s))) =
    (open_pages (browser s) ++ [next_handle (browser s)])%list.
Proof.
  intros Hnew Hagent Hheaders Hintercept Hgoto.
  unfold try_continue, visit_listing. cbn [fst].
  rewrite run_bind. unfold newPage. rewrite Hnew.
  rewrite run_bind, call_run, Hagent.
  rewrite run_bind, call_run, Hheaders.
  rewrite run_bind, call_run, Hintercept.
  rewrite run_bind, call_run, Hgoto. reflexivity.
Qed.

(** A pushed record always has a name: the listing's, unless the page gave
    one. *)
Lemma merge_record_has_name (name : string) (detailedInfo : gmap string string) :
  merge_record name detailedInfo !! "name" =
    Some (default name (detailedInfo !! "name")).
Proof.
  unfold merge_record. rewrite lookup_union.
  destruct (detailedInfo !! "name"); simpl; [reflexivity |].
  rewrite lookup_singleton_eq. reflexivity.
Qed.

Lemma listing_loop_isolated (listings : list Listing) (i : nat) (s : ScrapeState) :
  snd (loop i listings s) = Ok tt
  /\ detailedData (fst (loop i listings s)) =
       (detailedData s ++ records_from fails detail_document i listings)%list.
Proof.
  revert i s. induction listings as [| listing rest IH]; intros i s.
  - cbn. by rewrite app_nil_r.
  - cbn [listing_loop records_from]. rewrite run_bind.
    destruct (visit_listing_isolated i listing s) as [_ Hdata].
    destruct (try_continue (visit i listing) s) as [s' [[] | e]] eqn:Hvisit;
      [| discriminate].
    cbn [fst] in Hdata.
    destruct (IH (S i) s') as [Hok Hrest]. split; [exact Hok |].
    rewrite Hrest, Hdata, <- app_assoc. f_equal.
    destruct (record_of fails detail_document i listing); reflexivity.
Qed.

(** What [scrapeGoogleMaps] returns once the search phase has gone through. *)
Lemma scrapeGoogleMaps_result (searchQuery : string) (limit : Z) :
  (forall c, fails Session c = false) ->
  snd (scrapeGoogleMaps fails waitForTimeout document improvedAutoScroll
         results_page detail_document searchQuery limit) =
    match collectListingUrls waitForTimeout document improvedAutoScroll
            results_page limit with
    | Ok listings => Ok (records_from fails detail_document O listings)
    | Throw e => Throw e
    end.
Proof.
  intros Hstart. unfold scrapeGoogleMaps. rewrite Hstart.
  unfold session. rewrite run_bind. unfold newPage at 1. rewrite Hstart.
  repeat (rewrite run_bind, call_run, Hstart).
  rewrite run_bind. unfold discover at 1.
  destruct (collectListingUrls _ _ _ _ _) as [listings | e]; [| reflexivity].
  rewrite run_bind.
  match goal with
  | |- context [listing_loop _ _ O listings ?s] =>
      destruct (listing_loop_isolated listings O s) as [Hok Hdata];
      destruct (listing_loop fails detail_document O listings s) as [s' r]
  end.
  cbn [fst snd] in Hok, Hdata. subst r. cbn. rewrite Hdata. reflexivity.
Qed.

(** Whatever happens, the browser is not left running and no page is left
    open when [scrapeGoogleMaps] is over. *)
Lemma scrapeGoogleMaps_releases_browser (searchQuery : string) (limit : Z) :
  let b := fst (scrapeGoogleMaps fails waitForTimeout document improvedAutoScroll
                  results_page detail_document searchQuery limit) in
  running b = false /\ open_pages b = [].
Proof.
  unfold scrapeGoogleMaps. destruct (fails Session CLaunch); [split; reflexivity |].
  destruct (session _ _ _ _ _ _ _ _) as [s r]. split; reflexivity.
Qed.

(** With a limit of 0 or less and a search phase that goes through, the
    scrape succeeds with no record. *)
Lemma scrapeGoogleMaps_nonpositive_limit (searchQuery : string) (limit : Z) :
  limit <= 0 ->
  (forall c, fails Session c = false) ->
  snd (scrapeGoogleMaps fails waitForTimeout document improvedAutoScroll
         results_page detail_document searchQuery limit) = Ok [].
Proof.
  intros Hlimit Hstart. rewrite scrapeGoogleMaps_result by exact Hstart.
  destruct (discovery_skipped waitForTimeout document improvedAutoScroll
              results_page limit Hlimit) as [_ ->].
  reflexivity.
Qed.

End ScrapeFacts.

Section OlderLoopFacts.
Import Dom Cascade.
Variable fails : nat -> CorrectCode.Step -> bool.
Variable clicks : nat -> nat -> bool.
Variable detail_document : nat -> Document.



End OlderLoopFacts.



(** The partial-failure scenario end to end: the feed yields three listings,
    the navigation to the second throws, and the scrape returns the records
    of the first and the third. *)
Example partial_failure_scenario :
  match snd (Server.scrapeGoogleMaps Mock.goto_fails_second Mock.stay Mock.feed S O
               (fun _ _ => Mock.empty_page) "coffee shops in Seattle" 3) with
  | Dom.Ok records => map (fun record => record !! "name") records
  | Dom.Throw _ => []
  end = [ Some "Cafe A"; Some "Cafe C" ].
Proof. vm_compute. reflexivity. Qed.

(** C5, as stated, fails on a document without a body: the name and the
    address could be resolved, but reading the body text throws and the
    extraction returns no record at all. *)
Lemma no_body_extraction_throws :
  Cascade.first_wins
    (fun s => (fun e => Js.trim (Dom.textContent e)) <$> Cascade.located Mock.no_body_page s)
    Server.nameSelectors = Some "Cafe Nero"
  /\ Dom.result (Server.extractBusinessDetails Mock.no_body_page)
      = Dom.Throw Dom.null_body.
Proof. split; vm_compute; reflexivity. Qed.

(** C5, as the code has it. [extractBusinessDetails] has no exception
    boundary of its own. It throws in exactly three cases, tried in this
    order: the first phone element located has no [.Io6YTe] child and an
    [href] that is an object, so that [href.startsWith] is no function; the
    same for the first website element located and [href.includes]; the
    document has no body. In every other case it returns a record. An
    exception aborts the whole extraction and is swallowed one level up, by
    the [try] of the loop over the listings: the pass for that listing ends
    without a record and without an exception. *)
Theorem extraction_exception_skips_listing :
  (forall doc e,
      Dom.result (Server.extractBusinessDetails doc) = Dom.Throw e
      <-> Cascade.extraction_fault doc = Some e)
  /\ (forall doc,
        Cascade.extraction_fault doc = None ->
        exists r, Dom.result (Server.extractBusinessDetails doc) = Dom.Ok r)
  /\ (forall element e,
        Server.phone_text element = Dom.Throw e
        <-> Dom.querySelector element ".Io6YTe" = None
            /\ Dom.href element = Dom.ObjectHref
            /\ e = Dom.not_a_function "phoneElement.href.startsWith")
  /\ (forall element e,
        Server.website_text element = Dom.Throw e
        <-> Dom.querySelector element ".Io6YTe" = None
            /\ Dom.href element = Dom.ObjectHref
            /\ e = Dom.not_a_function "websiteElement.href.includes")
  /\ (forall doc,
        Cascade.fault_of (Cascade.phone_outcome doc) = None ->
        Cascade.fault_of (Cascade.website_outcome doc) = None ->
        Dom.body_innerText doc = None ->
        Dom.result (Server.extractBusinessDetails doc) = Dom.Throw Dom.null_body)
  /\ (forall fails detail_document i listing s e,
        Cascade.extraction_fault (detail_document i (Server.url listing)) = Some e ->
        let pass :=
          Server.try_continue (Server.visit_listing fails detail_document i listing) s in
        snd pass = Dom.Ok tt
        /\ Server.detailedData (fst pass) = Server.detailedData s).
Proof.
  split; [| split; [| split; [| split; [| split]]]].
  - apply extract_throws.
  - apply extract_returns.
  - intros element e. unfold Server.phone_text, Server.href_satisfies, Dom.querySelector.
    destruct (head _); [split; [discriminate | intros [? _]; discriminate] |].
    destruct (Dom.href element) as [| h |].
    + split; [discriminate | intros (_ & ? & _); discriminate].
    + destruct (_ && _); (split; [discriminate | intros (_ & ? & _); discriminate]).
    + split; [intros [= <-]; auto | intros (_ & _ & ->); reflexivity].
  - intros element e. unfold Server.website_text, Server.href_satisfies, Dom.querySelector.
    destruct (head _); [split; [discriminate | intros [? _]; discriminate] |].
    destruct (Dom.href element) as [| h |].
    + split; [discriminate | intros (_ & ? & _); discriminate].
    + destruct (_ && _); (split; [discriminate | intros (_ & ? & _); discriminate]).
    + split; [intros [= <-]; auto | intros (_ & _ & ->); reflexivity].
  - intros doc Hphone Hwebsite Hbody. apply extract_throws.
    unfold Cascade.extraction_fault. by rewrite Hphone, Hwebsite, Hbody.
  - intros fails detail_document i listing s e Hfault pass.
    destruct (visit_listing_isolated fails detail_document i listing s) as [Hok Hdata].
    split; [exact Hok |]. subst pass. rewrite Hdata.
    unfold Cascade.record_of.
    apply extract_throws in Hfault. rewrite Hfault.
    destruct (Cascade.reaches_extraction fails i); simpl; by rewrite app_nil_r.
Qed.

(** A run of the amended C5 on the page without a body and on the page
    whose phone link is drawn in SVG. *)
Lemma extraction_exception_skips_listing_witness :
  Dom.result (Server.extractBusinessDetails Mock.no_body_page) = Dom.Throw Dom.null_body
  /\ Dom.result (Server.extractBusinessDetails Mock.svg_phone_page)
      = Dom.Throw (Dom.TypeError "phoneElement.href.startsWith is not a function")
  /\ Server.detailedData
       (fst (Server.try_continue
               (Server.visit_listing Mock.never_fails (fun _ _ => Mock.svg_phone_page) O
                  (Server.mkListing "Cafe A" "https://maps.example/maps/place/A"))
               Mock.search_open)) = [].
Proof.
  split; [| split].
  - apply (proj1 extraction_exception_skips_listing). reflexivity.
  - apply (proj1 extraction_exception_skips_listing). reflexivity.
  - apply (proj2 (proj2 (proj2 (proj2 (proj2 extraction_exception_skips_listing))))
             Mock.never_fails (fun _ _ => Mock.svg_phone_page) O
             (Server.mkListing "Cafe A" "https://maps.example/maps/place/A")
             Mock.search_open
             (Dom.TypeError "phoneElement.href.startsWith is not a function")).
    reflexivity.
Defined.

(** C9 at a visit whose navigation throws: the detail page opened for it
    (handle 1) is still open when the pass is over, and is still open after
    the next listing has been visited, which opened and closed its own page
    (handle 2). A visit that goes through closes its page. *)
Theorem failed_visit_leaks_page :
  let first := Server.mkListing "Cafe A" "https://maps.example/maps/place/A" in
  let second := Server.mkListing "Cafe B" "https://maps.example/maps/place/B" in
  let after_first :=
    fst (Server.try_continue
           (Server.visit_listing Mock.goto_fails_first Mock.same_details O first)
           Mock.search_open) in
  let after_second :=
    fst (Server.try_continue
           (Server.visit_listing Mock.goto_fails_first Mock.same_details 1%nat second)
           after_first) in
  Server.open_pages (Server.browser after_first) = [ O; 1%nat ]
  /\ Server.open_pages (Server.browser after_second) = [ O; 1%nat ]
  /\ Server.next_handle (Server.browser after_second) = 3%nat
  /\ Server.open_pages
       (Server.browser
          (fst (Server.try_continue
                  (Server.visit_listing Mock.never_fails Mock.same_details O first)
                  Mock.search_open))) = [ O ].
Proof. repeat split; vm_compute; reflexivity. Qed.

(** C10. The route takes a limit of 0 or less as it comes: with a query and
    a location and a search phase that goes through, the body of the
    discovery loop is never entered, discovery returns the empty sequence,
    and the response is a success with an empty data array. A request without
    a limit is served as one with a limit of 20. *)
Theorem nonpositive_limit_not_rejected :
  forall fails (Page : Type) (waitForTimeout : Z -> Page -> Page) document
         improvedAutoScroll results_page detail_document,
    (forall req,
        Server.limit req = None ->
        Server.api_scrape fails waitForTimeout document improvedAutoScroll
          results_page detail_document req =
        Server.api_scrape fails waitForTimeout document improvedAutoScroll
          results_page detail_document
          (Server.mkScrapeRequest (Server.query req) (Server.location req) (Some 20)))
    /\ (forall req q loc lim,
          Server.query req = Some q -> Server.location req = Some loc ->
          Js.truthy q = true -> Js.truthy loc = true ->
          Server.limit req = Some lim -> lim <= 0 ->
          (forall c, fails Server.Session c = false) ->
          Server.discovery_iterations waitForTimeout document improvedAutoScroll
            results_page lim = O
          /\ Server.collectListingUrls waitForTimeout document improvedAutoScroll
               results_page lim = Dom.Ok []
          /\ Server.api_scrape fails waitForTimeout document improvedAutoScroll
               results_page detail_document req =
               Server.mkResponse 200 (Server.Success [])).
Proof.
  intros. split.
  - intros req Hnone. unfold Server.api_scrape. simpl. rewrite Hnone. reflexivity.
  - intros req q loc lim Hq Hloc Htq Htl Hlim Hle Hstart.
    destruct (discovery_skipped waitForTimeout document improvedAutoScroll
                results_page lim Hle) as [Hiter Hcollect].
    repeat split; [exact Hiter | exact Hcollect |].
    unfold Server.api_scrape. rewrite Hq, Hloc, Htq, Htl, Hlim. simpl.
    rewrite scrapeGoogleMaps_nonpositive_limit by assumption. reflexivity.
Qed.

(** A run of C10: a request for coffee shops in Seattle with a limit of 0. *)
Lemma nonpositive_limit_not_rejected_witness :
  Server.api_scrape Mock.never_fails Mock.stay Mock.feed S O Mock.same_details
    (Server.mkScrapeRequest (Some "coffee shops") (Some "Seattle") (Some 0))
  = Server.mkResponse 200 (Server.Success []).
Proof.
  apply (proj2 (nonpositive_limit_not_rejected Mock.never_fails nat Mock.stay
                  Mock.feed S O Mock.same_details)
           _ "coffee shops" "Seattle" 0);
    try reflexivity; lia.
Defined.

(** ** The export encoders *)

(** The encoders of the serverless variant keep the eleven fields in the
    fixed order, in the header and in every row. *)
Lemma encoders_keep_field_order (data : list (gmap string string)) :
  head (Server.exportToCSV data) = Some Server.fields
  /\ tail (Server.exportToCSV data) = map (Server.cells Server.fields) data
  /\ map Server.key Server.columns = Server.fields
  /\ tail (Server.exportToExcel data) = map (Server.cells Server.fields) data
  /\ length Server.fields = 11%nat.
Proof. repeat split. Qed.

(** C8 at a result of one record with all eleven fields: the CSV encoder of
    the older variant writes nine columns and drops the price range and the
    attributes, which its own spreadsheet encoder keeps. *)
Theorem older_csv_drops_fields :
  CorrectCode.exportToCSV [ Mock.full_record ] =
    [ [ "name"; "address"; "phone"; "website"; "email"; "rating"; "reviews";
        "hours"; "category" ];
      [ "Cafe Nero"; "1 Main St"; "555-0100"; "nero.example"; "info@nero.example";
        "4.5"; "120"; "Mon: 8-17"; "Cafe" ] ]
  /\ nth_error (Server.exportToExcel [ Mock.full_record ]) 1 =
      Some [ "Cafe Nero"; "1 Main St"; "555-0100"; "nero.example";
             "info@nero.example"; "4.5"; "120"; "Mon: 8-17"; "Cafe"; "$$";
             "Free Wi-Fi" ]
  /\ CorrectCode.fields <> Server.fields.
Proof.
  split; [vm_compute; reflexivity |]. split; [vm_compute; reflexivity |].
  discriminate.
Qed.

(** ** More on listing discovery *)

(** The loop's one-step equation, under a name of its own. *)
Lemma discovery_loop_step {Page : Type} (waitForTimeout : Z -> Page -> Page)
    (document : Page -> Dom.Document) (improvedAutoScroll : Page -> Page)
    (limit : Z) (st : Server.LoopState) :
  Server.discovery_loop waitForTimeout document improvedAutoScroll limit st =
    if Server.loop_cond limit st then
      match Server.loop_body waitForTimeout document improvedAutoScroll limit st with
      | Dom.Ok st' =>
          Server.tick
            (Server.discovery_loop waitForTimeout document improvedAutoScroll limit st')
      | Dom.Throw e => (1%nat, Dom.Throw e)
      end
    else (O, Dom.Ok st).
Proof. apply discovery_loop_unfold. Qed.

(** The loop's induction principle, under a name of its own. *)
Lemma discovery_loop_induction {Page : Type} (waitForTimeout : Z -> Page -> Page)
    (document : Page -> Dom.Document) (improvedAutoScroll : Page -> Page)
    (limit : Z)
    (P : Server.LoopState -> nat * Dom.Res (@Server.LoopState Page) -> Prop) :
  (forall st, Server.loop_cond limit st = false -> P st (O, Dom.Ok st)) ->
  (forall st e, Server.loop_cond limit st = true ->
                Server.loop_body waitForTimeout document improvedAutoScroll limit st
                  = Dom.Throw e ->
                P st (1%nat, Dom.Throw e)) ->
  (forall st st', Server.loop_cond limit st = true ->
                  Server.loop_body waitForTimeout document improvedAutoScroll limit st
                    = Dom.Ok st' ->
                  P st' (Server.discovery_loop waitForTimeout document
                           improvedAutoScroll limit st') ->
                  P st (Server.tick
                          (Server.discovery_loop waitForTimeout document
                             improvedAutoScroll limit st'))) ->
  forall st,
    P st (Server.discovery_loop waitForTimeout document improvedAutoScroll limit st).
Proof. apply discovery_loop_ind. Qed.

Section DiscoveryOrder.
Import Js Dom Server Cascade Order.
Local Open Scope list_scope.
Context {Page : Type}.
Variable waitForTimeout : Z -> Page -> Page.
Variable document : Page -> Document.
Variable improvedAutoScroll : Page -> Page.

Abbreviation dloop := (discovery_loop waitForTimeout document improvedAutoScroll).
Abbreviation dbody := (loop_body waitForTimeout document improvedAutoScroll).
Abbreviation dcollect := (collectListingUrls waitForTimeout document improvedAutoScroll).
Abbreviation diterations :=
  (discovery_iterations waitForTimeout document improvedAutoScroll).

Lemma loop_cond_initial (pg : Page) (limit : Z) :
  1 <= limit -> loop_cond limit (initial_state pg) = true.
Proof.
  intros Hlimit. unfold loop_cond, initial_state. cbn.
  rewrite !andb_true_r. apply Z.ltb_lt. lia.
Qed.

(** Below the limit, the add loop appends the unseen items and stops at the
    limit. *)
Lemma add_new_unseen (limit : Z) (newUrls l : list Listing) (b : bool) :
  Z.of_nat (length l) < limit ->
  fst (add_new limit newUrls l b) = take (Z.to_nat limit) (l ++ unseen l newUrls).
Proof.
  revert l b. induction newUrls as [| item rest IH]; intros l b Hlen; simpl.
  - rewrite app_nil_r, take_ge; [reflexivity | lia].
  - destruct (url_known l item); simpl; [by apply IH |].
    destruct (Z.leb_spec limit (Z.of_nat (length (l ++ [item])))) as [Hle | Hlt].
    + simpl. rewrite length_app in Hle. simpl in Hle.
      replace (l ++ item :: unseen (l ++ [item]) rest)
        with ((l ++ [item]) ++ unseen (l ++ [item]) rest)
        by (rewrite <- app_assoc; reflexivity).
      rewrite take_app_le by (rewrite length_app; simpl; lia).
      rewrite take_ge; [reflexivity | rewrite length_app; simpl; lia].
    + rewrite IH by exact Hlt. rewrite <- app_assoc. reflexivity.
Qed.

Lemma unseen_NoDup (known newUrls : list Listing) :
  NoDup (map url (known ++ newUrls)) -> unseen known newUrls = newUrls.
Proof.
  revert known. induction newUrls as [| item rest IH]; intros known Hnd; simpl;
    [reflexivity |].
  destruct (url_known known item) eqn:Hknown.
  - apply url_known_spec in Hknown. rewrite map_app in Hnd. simpl in Hnd.
    apply NoDup_app in Hnd as (_ & Hdisj & _).
    exfalso. apply (Hdisj _ Hknown). left.
  - f_equal. apply IH. rewrite <- app_assoc. exact Hnd.
Qed.

(** X1. When the first evaluation of the results page already shows at
    least [limit] new locators, discovery takes the first [limit] of them in
    page order, in one pass of its loop and without scrolling; a locator met
    twice counts once, under the name it had the first time. *)
Theorem discovery_single_pass (pg : Page) (limit : Z) (found : list Listing) :
  1 <= limit ->
  result (harvest (document (waitForTimeout 2000 pg))) = Ok found ->
  limit <= Z.of_nat (length (unseen [] found)) ->
  dcollect pg limit = Ok (take (Z.to_nat limit) (unseen [] found))
  /\ diterations pg limit = 1%nat
  /\ (NoDup (map url found) -> dcollect pg limit = Ok (take (Z.to_nat limit) found)).
Proof.
  intros Hlimit Hfound Henough.
  assert (Hrun : dloop limit (initial_state pg) =
                 (1%nat, Ok (mkLoopState (take (Z.to_nat limit) (unseen [] found))
                               O O (waitForTimeout 2000 pg)))).
  { rewrite (discovery_loop_step waitForTimeout document improvedAutoScroll).
    rewrite (loop_cond_initial pg limit Hlimit). unfold loop_body. cbn [page initial_state listingUrls].
    rewrite Hfound.
    pose proof (add_new_unseen limit found [] false ltac:(simpl; lia)) as Hadd.
    pose proof (add_new_spec limit found [] false) as (extra & Hfst & Hsnd & _).
    destruct (add_new limit found [] false) as [urls added].
    cbn [fst snd] in Hadd, Hfst, Hsnd. rewrite app_nil_l in Hadd. subst urls.
    assert (Hlen : length (take (Z.to_nat limit) (unseen [] found)) = Z.to_nat limit)
      by (rewrite length_take; lia).
    assert (added = true) as ->.
    { rewrite Hsnd. simpl in Hfst. rewrite <- Hfst, Hlen.
      destruct (Z.to_nat limit) eqn:Hz; [lia | reflexivity]. }
    destruct (Z.ltb_spec (Z.of_nat (length (take (Z.to_nat limit) (unseen [] found))))
                limit) as [Hlt | _]; [lia |].
    rewrite (discovery_loop_step waitForTimeout document improvedAutoScroll), loop_cond_reached by (simpl; lia).
    reflexivity. }
  assert (Hcollect : dcollect pg limit = Ok (take (Z.to_nat limit) (unseen [] found))).
  { unfold collectListingUrls. rewrite Hrun. cbn [snd listingUrls]. unfold slice0.
    destruct (Z.ltb_spec limit 0); [lia |]. rewrite take_take. f_equal. f_equal. lia. }
  repeat split.
  - exact Hcollect.
  - unfold discovery_iterations. rewrite Hrun. reflexivity.
  - intros Hnd. rewrite Hcollect, (unseen_NoDup [] found) by exact Hnd. reflexivity.
Qed.

Lemma harvest_links_place (links : list Element) (results r : list Listing) :
  Forall place_reference results ->
  harvest_links links results = Ok r ->
  Forall place_reference r.
Proof.
  revert results. induction links as [| link rest IH]; intros results Hres; simpl.
  - intros [= <-]. exact Hres.
  - unfold harvest_link. destruct (link_name link) as [nm |]; [| discriminate].
    destruct (href link) as [| u |];
      [by apply IH | | destruct (truthy nm); [discriminate | by apply IH]].
    destruct (truthy u && truthy nm && includes u "/maps/place/") eqn:Hok;
      [| by apply IH].
    apply IH. apply Forall_app. split; [exact Hres |].
    apply Forall_singleton. apply andb_prop in Hok as [Hok Hinc].
    apply andb_prop in Hok as [_ Hnm]. split; assumption.
Qed.

Lemma harvest_place (doc : Document) (found : list Listing) :
  result (harvest doc) = Ok found -> Forall place_reference found.
Proof.
  unfold harvest. rewrite result_bind.
  destruct (result (listingLinks_loop doc listingLinkSelectors)) as [links |];
    [| discriminate].
  cbn [result snd]. apply harvest_links_place. constructor.
Qed.

Lemma add_new_Forall (P : Listing -> Prop) (limit : Z) (newUrls l : list Listing)
    (b : bool) :
  Forall P l -> Forall P newUrls -> Forall P (fst (add_new limit newUrls l b)).
Proof.
  revert l b. induction newUrls as [| item rest IH]; intros l b Hl Hnew; simpl;
    [exact Hl |].
  inversion Hnew as [| ? ? Hitem Hrest]; subst.
  destruct (url_known l item); simpl; [by apply IH |].
  assert (Hl' : Forall P (l ++ [item]))
    by (apply Forall_app; split; [exact Hl | by apply Forall_singleton]).
  destruct (limit <=? _); [exact Hl' | by apply IH].
Qed.

(** X2. Every reference discovery returns has a name that is not empty and
    a locator that contains the place path: anything else on the results
    page is left out. *)
Theorem discovered_references_are_places (pg : Page) (limit : Z) (refs : list Listing) :
  dcollect pg limit = Ok refs -> Forall place_reference refs.
Proof.
  unfold collectListingUrls.
  destruct (snd (dloop limit (initial_state pg))) as [st |] eqn:Hloop; [| discriminate].
  intros [= <-].
  assert (Hinv : Forall place_reference (listingUrls st)).
  { assert (Hind : forall st0, Forall place_reference (listingUrls st0) ->
                     forall st', snd (dloop limit st0) = Ok st' ->
                                 Forall place_reference (listingUrls st')).
    { intros st0 Hst0 st' Hr. revert st' Hst0 Hr.
      apply (discovery_loop_induction waitForTimeout document improvedAutoScroll limit
               (fun st r => forall st', Forall place_reference (listingUrls st) ->
                                        snd r = Ok st' ->
                                        Forall place_reference (listingUrls st'))).
      - intros s0 _ st' Hst [= <-]. exact Hst.
      - intros s0 e _ _ st' _ [=].
      - intros s0 s1 _ Hbody IH st' Hst Hr.
        assert (Hs1 : Forall place_reference (listingUrls s1)).
        { unfold loop_body in Hbody.
          destruct (result (harvest _)) as [found |] eqn:Hfound; [| discriminate].
          pose proof (add_new_Forall place_reference limit found (listingUrls s0) false
                        Hst (harvest_place _ _ Hfound)) as Hadd.
          destruct (add_new limit found (listingUrls s0) false) as [urls added].
          destruct (_ <? _); injection Hbody as <-; exact Hadd. }
        apply IH; [exact Hs1 |].
        destruct (dloop limit s1) as [n r]. exact Hr. }
    apply (Hind (initial_state pg)); [constructor | exact Hloop]. }
  unfold slice0.
  destruct (limit <? 0); apply Forall_take; exact Hinv.
Qed.

(** An exception in an evaluation of the results page ends the loop with
    that exception, whatever had been collected before. *)
Lemma discovery_loop_throws (limit : Z) (st : LoopState) (e : Exn) :
  loop_cond limit st = true ->
  result (harvest (document (waitForTimeout 2000 (page st)))) = Throw e ->
  dloop limit st = (1%nat, Throw e).
Proof.
  intros Hcond Hthrow. rewrite (discovery_loop_step waitForTimeout document improvedAutoScroll), Hcond.
  unfold loop_body. rewrite Hthrow. reflexivity.
Qed.

Lemma collect_throws (pg : Page) (limit : Z) (e : Exn) :
  1 <= limit ->
  result (harvest (document (waitForTimeout 2000 pg))) = Throw e ->
  dcollect pg limit = Throw e.
Proof.
  intros Hlimit Hthrow. unfold collectListingUrls.
  rewrite (discovery_loop_throws limit (initial_state pg) e); [reflexivity | | exact Hthrow].
  by apply loop_cond_initial.
Qed.

End DiscoveryOrder.

(** The loop over the link selectors is the first-wins cascade. *)
Lemma listingLinks_loop_cascade (doc : Dom.Document) (selectors : list string) :
  Server.listingLinks_loop doc selectors =
    (map Dom.QueryAll (Cascade.invoked (Order.links_yield doc) selectors),
     Dom.Ok (default [] (Cascade.first_wins (Order.links_yield doc) selectors))).
Proof.
  induction selectors as [| s rest IH]; simpl; [reflexivity |].
  unfold Order.links_yield at 1 3.
  destruct (Dom.doc_querySelectorAll doc s) as [| e els]; simpl.
  - rewrite IH. reflexivity.
  - reflexivity.
Qed.

(** X3. The harvest takes its links from the first selector that matches
    anything and asks no later selector, also when none of the links it got
    that way is a place link: what only a later selector would match is not
    harvested. *)
Theorem harvest_first_matching_selector
    (doc : Dom.Document) (before after : list string) (s : string)
    (els : list Dom.Element) :
  Server.listingLinkSelectors = (before ++ s :: after)%list ->
  Forall (fun s' => Dom.doc_querySelectorAll doc s' = []) before ->
  Dom.doc_querySelectorAll doc s = els ->
  els <> [] ->
  Server.harvest doc =
    (map Dom.QueryAll (before ++ [s])%list, Server.harvest_links els []).
Proof.
  intros Hsel Hbefore Hs Hne. unfold Server.harvest.
  rewrite listingLinks_loop_cascade, Hsel.
  assert (Hyield : Order.links_yield doc s = Some els).
  { unfold Order.links_yield. rewrite Hs. destruct els; [congruence | reflexivity]. }
  assert (Hnone : Forall (fun s' => Order.links_yield doc s' = None) before).
  { eapply Forall_impl; [exact Hbefore |]. intros s' Hs'.
    unfold Order.links_yield. rewrite Hs'. reflexivity. }
  destruct (invoked_first _ before s after els Hnone Hyield) as [-> ->].
  simpl. rewrite app_nil_r. destruct (Server.harvest_links els []); reflexivity.
Qed.

(** A run of X1 on the mock feed, which shows listing A twice: a limit of 2
    is met by A and B on the first evaluation. *)
Lemma discovery_single_pass_witness :
  let found :=
    [ Server.mkListing "Cafe A" "https://maps.example/maps/place/A";
      Server.mkListing "Cafe B" "https://maps.example/maps/place/B";
      Server.mkListing "Cafe A again" "https://maps.example/maps/place/A" ] in
  Server.collectListingUrls Mock.stay Mock.feed S O 2
    = Dom.Ok (take (Z.to_nat 2) (Order.unseen [] found))
  /\ Server.discovery_iterations Mock.stay Mock.feed S O 2 = 1%nat
  /\ (NoDup (map Server.url found) ->
      Server.collectListingUrls Mock.stay Mock.feed S O 2
        = Dom.Ok (take (Z.to_nat 2) found)).
Proof.
  apply (discovery_single_pass Mock.stay Mock.feed S O 2);
    [lia | vm_compute; reflexivity | vm_compute; discriminate].
Defined.

(** A run of X2 on the mock feed with a limit of 3. *)
Lemma discovered_references_are_places_witness :
  Forall Order.place_reference Mock.three_listings.
Proof.
  apply (discovered_references_are_places Mock.stay Mock.feed S O 3).
  vm_compute. reflexivity.
Defined.

(** A run of X3: the first selector matches a link that is not a place
    link, so nothing is harvested, though a later selector would have
    matched a place link. *)
Lemma harvest_first_matching_selector_witness :
  Server.harvest Mock.shadowed_feed = ([ Dom.QueryAll "a.hfpxzc" ], Dom.Ok [])
  /\ Dom.doc_querySelectorAll Mock.shadowed_feed "a[jsaction*='mouseup']" <> [].
Proof.
  split; [| discriminate].
  exact (harvest_first_matching_selector Mock.shadowed_feed [] _ "a.hfpxzc" _
           eq_refl (Forall_nil_2 _) eq_refl ltac:(discriminate)).
Defined.

(** ** More on the orchestrator and the route *)

Section SessionFacts.
Import Js Dom Server Cascade Contract.
Local Open Scope list_scope.
Variable fails : Scope -> Call -> bool.
Context {Page : Type}.
Variable waitForTimeout : Z -> Page -> Page.
Variable document : Page -> Document.
Variable improvedAutoScroll : Page -> Page.
Variable results_page : Page.
Variable detail_document : nat -> string -> Document.

Abbreviation scrape :=
  (scrapeGoogleMaps fails waitForTimeout document improvedAutoScroll results_page
     detail_document).
Abbreviation route :=
  (api_scrape fails waitForTimeout document improvedAutoScroll results_page
     detail_document).
Abbreviation discovery :=
  (collectListingUrls waitForTimeout document improvedAutoScroll results_page).

(** The outcome of [scrapeGoogleMaps], by the search phase and discovery. *)
Lemma scrapeGoogleMaps_outcome (searchQuery : string) (limit : Z) :
  if search_phase_ok fails
  then snd (scrape searchQuery limit) =
         match discovery limit with
         | Ok listings => Ok (records_from fails detail_document O listings)
         | Throw e => Throw e
         end
  else exists e, snd (scrape searchQuery limit) = Throw e.
Proof.
  remember (snd (scrape searchQuery limit)) as outcome eqn:Hout.
  unfold search_phase_ok, search_phase. cbn [forallb].
  unfold scrapeGoogleMaps in Hout.
  destruct (fails Session CLaunch) eqn:Hlaunch; cbn [negb andb];
    [subst outcome; eexists; reflexivity |].
  unfold session in Hout. rewrite run_bind in Hout. unfold newPage at 1 in Hout.
  destruct (fails Session CNewPage) eqn:Hnew; cbn [negb andb]; cbv beta iota zeta in Hout;
    [subst outcome; eexists; reflexivity |].
  repeat (rewrite run_bind, call_run in Hout;
          match goal with
          | |- context [fails Session ?c] =>
              destruct (fails Session c) eqn:?; cbn [negb andb];
              cbv beta iota in Hout; [subst outcome; eexists; reflexivity |]
          end).
  rewrite run_bind in Hout. unfold discover at 1 in Hout.
  destruct (collectListingUrls _ _ _ _ _) as [listings | e]; [| exact Hout].
  rewrite run_bind in Hout.
  match type of Hout with
  | context [listing_loop _ _ O listings ?s] =>
      destruct (listing_loop_isolated fails detail_document listings O s)
        as [Hok Hdata];
      destruct (listing_loop fails detail_document O listings s) as [s' r]
  end.
  cbn [fst snd] in Hok, Hdata. subst r. cbn in Hout. rewrite Hdata in Hout.
  exact Hout.
Qed.

(** X4. [scrapeGoogleMaps] returns a result exactly when none of the eleven
    driver calls of its search phase throws and discovery returns; the
    result is then the records of the discovered listings that reached
    extraction, in discovery order. Nothing a listing's visit does can make
    it throw. *)
Theorem scrape_succeeds_exactly (searchQuery : string) (limit : Z)
    (results : list (gmap string string)) :
  snd (scrape searchQuery limit) = Ok results
  <-> search_phase_ok fails = true
      /\ exists listings,
           discovery limit = Ok listings
           /\ results = records_from fails detail_document O listings.
Proof.
  pose proof (scrapeGoogleMaps_outcome searchQuery limit) as Hout.
  destruct (search_phase_ok fails).
  - rewrite Hout. destruct (discovery limit) as [listings | e]; split.
    + intros [= <-]. eauto.
    + intros (_ & l & [= <-] & ->). reflexivity.
    + discriminate.
    + intros (_ & l & [=] & _).
  - destruct Hout as [e ->]. split; [discriminate | intros [[=] _]].
Qed.

(** X5. The status of the response depends on the request, on the search
    phase and on whether discovery returns, and on nothing else: 400 for a
    missing or empty query or location, else 500 when a call of the search
    phase or discovery throws, else 200. The visits of the listings and the
    pages they show have no part in it. *)
Theorem api_scrape_status (req : ScrapeRequest) :
  status (route req) =
    request_status req (search_phase_ok fails)
      (returns (discovery (default 20 (limit req)))).
Proof.
  unfold api_scrape, request_status.
  destruct (query req) as [q |]; [| reflexivity].
  destruct (location req) as [l |]; [| reflexivity].
  destruct (truthy q); [| reflexivity]. destruct (truthy l); [| reflexivity].
  cbn [negb orb andb].
  pose proof (scrapeGoogleMaps_outcome (q ++ " in " ++ l)%string
                (default 20 (limit req))) as Hout.
  destruct (search_phase_ok fails); cbn [andb].
  - rewrite Hout. destruct (discovery _); reflexivity.
  - destruct Hout as [e ->]. reflexivity.
Qed.

Ltac lookup_fields :=
  unfold detail_record;
  repeat (rewrite lookup_assign || rewrite lookup_insert || rewrite lookup_empty);
  repeat (case_decide; try discriminate; try congruence).

(** The fields of a record the extraction returns. *)
Lemma extract_fields (doc : Document) (r : gmap string string) :
  result (extractBusinessDetails doc) = Ok r ->
  (forall k, k ∈ always_set -> is_Some (r !! k))
  /\ (forall k, is_Some (r !! k) -> k ∈ fields).
Proof.
  intros Hr. pose proof (extract_result doc) as Hshape.
  destruct (extraction_fault doc) as [e |]; [congruence |].
  cbv zeta in Hshape.
  destruct Hshape as (pageText & rating & category & attributes & _ & Heq & _).
  rewrite Heq in Hr. apply Ok_inj in Hr. clear Heq. subst r.
  remember (first_wins (fun s => (fun e => trim (textContent e)) <$> located doc s)
              nameSelectors) as vname eqn:Hvname.
  remember (first_wins (fun s => price_text <$> located doc s) priceSelectors)
    as vprice eqn:Hvprice.
  split.
  - intros k Hk. unfold always_set in Hk.
    repeat (apply elem_of_cons in Hk as [-> | Hk]);
      try (exfalso; by apply elem_of_nil in Hk);
      lookup_fields; destruct attributes, vprice; eauto.
  - intros k [v Hv]. revert Hv. unfold fields. lookup_fields;
      try (intros _; subst k;
           repeat (first [apply list_elem_of_here | apply list_elem_of_further])).
Qed.

Lemma merge_record_complete (name : string) (doc : Document)
    (detailedInfo : gmap string string) :
  result (extractBusinessDetails doc) = Ok detailedInfo ->
  complete_record (merge_record name detailedInfo).
Proof.
  intros Hr. destruct (extract_fields doc detailedInfo Hr) as [Hset Hkeys]. split.
  - intros k Hk. apply elem_of_cons in Hk as [-> | Hk].
    + rewrite merge_record_has_name. eauto.
    + unfold merge_record. rewrite lookup_union.
      destruct (Hset k Hk) as [v ->]. destruct ({[ "name" := name ]} !! k); eauto.
  - intros k. unfold merge_record. rewrite lookup_union.
    destruct (detailedInfo !! k) as [v |] eqn:Hk.
    + intros _. apply Hkeys. eauto.
    + destruct (decide (k = "name")) as [-> | Hne].
      * intros _. unfold fields. apply list_elem_of_here.
      * rewrite lookup_singleton_ne by congruence. simpl. by intros [? ?].
Qed.

Lemma records_from_complete (listings : list Listing) (i : nat) :
  Forall complete_record (records_from fails detail_document i listings)
  /\ (length (records_from fails detail_document i listings) <= length listings)%nat.
Proof.
  revert i. induction listings as [| listing rest IH]; intros i; simpl;
    [split; [constructor | lia] |].
  destruct (IH (S i)) as [Hall Hlen].
  destruct (record_of fails detail_document i listing) as [record |] eqn:Hrec;
    [| split; [exact Hall | lia]].
  split; [| simpl; lia].
  constructor; [| exact Hall].
  unfold record_of in Hrec. destruct (reaches_extraction fails i); [| discriminate].
  destruct (result (extractBusinessDetails _)) as [info |] eqn:Hinfo; [| discriminate].
  injection Hrec as <-. by eapply merge_record_complete.
Qed.

Lemma discovery_length (limit : Z) (listings : list Listing) :
  discovery limit = Ok listings -> Z.of_nat (length listings) <= Z.max 0 limit.
Proof.
  destruct (Z.le_gt_cases limit 0) as [Hle | Hgt].
  - destruct (discovery_skipped waitForTimeout document improvedAutoScroll
                results_page limit Hle) as [_ ->].
    intros [= <-]. simpl. lia.
  - unfold collectListingUrls.
    destruct (snd _) as [st |]; [| discriminate]. intros [= <-].
    unfold slice0. destruct (Z.ltb_spec limit 0); [lia |].
    rewrite length_take. lia.
Qed.

(** X6. Whatever the request and whatever goes wrong, the data of a
    response holds no more records than the limit asked for (20 when the
    request names none, none at all for a limit of 0 or less), and every
    record in it has a name and the eight defaulted fields and no key
    outside the eleven fields. *)
Theorem api_scrape_data_bounded_complete (req : ScrapeRequest) :
  Z.of_nat (length (data (route req))) <= Z.max 0 (default 20 (limit req))
  /\ Forall complete_record (data (route req)).
Proof.
  unfold api_scrape, data.
  destruct (query req) as [q |]; [| simpl; split; [lia | constructor]].
  destruct (location req) as [l |]; [| simpl; split; [lia | constructor]].
  destruct (negb (truthy q) || negb (truthy l)); [simpl; split; [lia | constructor] |].
  pose proof (scrapeGoogleMaps_outcome (q ++ " in " ++ l)%string
                (default 20 (limit req))) as Hout.
  destruct (search_phase_ok fails).
  - rewrite Hout.
    destruct (discovery (default 20 (limit req))) as [listings | e] eqn:Hdisc;
      [| simpl; split; [lia | constructor]].
    cbn [body]. apply discovery_length in Hdisc.
    destruct (records_from_complete listings O) as [Hall Hlen].
    split; [lia | exact Hall].
  - destruct Hout as [e ->]. simpl. split; [lia | constructor].
Qed.

(** X7. An exception in the page evaluation of discovery (a link with no
    label and no enclosing [div], say) is not contained: discovery throws
    it, [scrapeGoogleMaps] throws it after closing the browser, and the
    route answers 500 with no data. *)
Theorem discovery_exception_fails_request
    (req : ScrapeRequest) (q l : string) (e : Exn) :
  query req = Some q -> location req = Some l ->
  truthy q = true -> truthy l = true ->
  1 <= default 20 (limit req) ->
  search_phase_ok fails = true ->
  result (harvest (document (waitForTimeout 2000 results_page))) = Throw e ->
  scrape (q ++ " in " ++ l)%string (default 20 (limit req))
    = (mkBrowser false [] 1, Throw e)
  /\ route req = mkResponse 500 (Failure "Failed to scrape data").
Proof.
  intros Hq Hl Htq Htl Hlimit Hsearch Hthrow.
  pose proof (collect_throws waitForTimeout document improvedAutoScroll
                results_page _ e Hlimit Hthrow) as Hdisc.
  pose proof (scrapeGoogleMaps_outcome (q ++ " in " ++ l)%string
                (default 20 (limit req))) as Hout.
  rewrite Hsearch, Hdisc in Hout.
  split.
  - clear Hout. revert Hsearch. unfold search_phase_ok, search_phase, scrapeGoogleMaps.
    cbn [forallb].
    destruct (fails Session CLaunch); cbn [negb andb]; [discriminate |].
    unfold session. rewrite run_bind.
    destruct (fails Session CNewPage) eqn:Hnew; cbn [negb andb]; [discriminate |].
    unfold newPage at 1. rewrite Hnew. cbv beta iota zeta.
    repeat (rewrite run_bind, call_run;
            match goal with
            | |- context [fails Session ?c] =>
                destruct (fails Session c); cbn [negb andb]; cbv beta iota;
                [discriminate |]
            end).
    intros _. rewrite run_bind. unfold discover at 1. rewrite Hdisc. reflexivity.
  - unfold api_scrape. rewrite Hq, Hl, Htq, Htl. cbn [negb orb].
    rewrite Hout. reflexivity.
Qed.

End SessionFacts.

(** A run of X7 on a results page whose only link has no label and no
    enclosing [div]. *)
Lemma discovery_exception_fails_request_witness :
  let req := Server.mkScrapeRequest (Some "coffee shops") (Some "Seattle") None in
  Server.scrapeGoogleMaps Mock.never_fails Mock.stay (fun _ : nat => Mock.broken_feed)
    S O Mock.same_details "coffee shops in Seattle" 20
    = (Server.mkBrowser false [] 1,
       Dom.Throw (Dom.TypeError
                    "Cannot read properties of null (reading 'querySelector')"))
  /\ Server.api_scrape Mock.never_fails Mock.stay (fun _ : nat => Mock.broken_feed)
       S O Mock.same_details req
     = Server.mkResponse 500 (Server.Failure "Failed to scrape data").
Proof.
  apply (discovery_exception_fails_request Mock.never_fails Mock.stay
           (fun _ : nat => Mock.broken_feed) S O Mock.same_details
           (Server.mkScrapeRequest (Some "coffee shops") (Some "Seattle") None)
           "coffee shops" "Seattle");
    try reflexivity.
  simpl. lia.
Defined.

(** ** The matcher against the relational reading of the patterns *)

Section MatcherFacts.
Import Js Lang.

Lemma append_nil (b : string) : (EmptyString ++ b)%string = b.
Proof. reflexivity. Qed.

Lemma append_cons (c : ascii) (a b : string) :
  (String c a ++ b)%string = String c (a ++ b).
Proof. reflexivity. Qed.

Lemma append_assoc' (a b c : string) : ((a ++ b) ++ c = a ++ b ++ c)%string.
Proof.
  induction a as [| x a IH]; [reflexivity |]. by rewrite !append_cons, IH.
Qed.

Lemma append_length (a b : string) :
  String.length (a ++ b) = (String.length a + String.length b)%nat.
Proof.
  induction a as [| x a IH]; [reflexivity |]. rewrite append_cons. simpl.
  by rewrite IH.
Qed.

Lemma str_take_append (w t : string) : str_take (String.length w) (w ++ t) = w.
Proof.
  induction w as [| c w IH]; [by destruct t |]. rewrite append_cons. simpl.
  by rewrite IH.
Qed.

Lemma consumed_append (x y : MatchState) (w : string) :
  input x = (w ++ input y)%string -> consumed x y = w.
Proof.
  intros Hx. unfold consumed. rewrite Hx, append_length.
  replace (String.length w + String.length (input y) - String.length (input y))%nat
    with (String.length w) by lia.
  apply str_take_append.
Qed.

Lemma all_chars_append (p : ascii -> bool) (a b : string) :
  all_chars p (a ++ b) = all_chars p a && all_chars p b.
Proof.
  induction a as [| c a IH]; [reflexivity |]. rewrite append_cons. simpl.
  rewrite IH. by rewrite andb_assoc.
Qed.

Lemma all_chars_mono (p q : ascii -> bool) (s : string) :
  (forall c, p c = true -> q c = true) ->
  all_chars p s = true -> all_chars q s = true.
Proof.
  intros Hpq. induction s as [| c s IH]; simpl; [reflexivity |].
  intros H. apply andb_prop in H as [Hc Hs].
  by rewrite (Hpq c Hc), (IH Hs).
Qed.

(** What a match consumes is a prefix of what was left, made of code
    units the pattern can consume. *)
Lemma Matches_text (r : Regex) (x y : MatchState) :
  Matches r x y ->
  exists w, input x = (w ++ input y)%string /\ all_chars (chars r) w = true.
Proof.
  induction 1 as [p x c rest Hin Hp | a b x y z _ IHa _ IHb | a x | a x y _ IH
                  | a x | a x y z _ IHa _ IHs | a x y _ IH | x _ | x _].
  - exists (String c EmptyString). simpl. by rewrite Hin, Hp.
  - destruct IHa as (w1 & H1 & Hc1), IHb as (w2 & H2 & Hc2).
    exists (w1 ++ w2)%string. split.
    + by rewrite H1, H2, append_assoc'.
    + rewrite all_chars_append. apply andb_true_intro. split.
      * eapply all_chars_mono; [| exact Hc1]. simpl. intros c ->. reflexivity.
      * eapply all_chars_mono; [| exact Hc2]. simpl. intros c ->.
        apply orb_true_r.
  - by exists EmptyString.
  - exact IH.
  - by exists EmptyString.
  - destruct IHa as (w1 & H1 & Hc1), IHs as (w2 & H2 & Hc2).
    exists (w1 ++ w2)%string. split.
    + by rewrite H1, H2, append_assoc'.
    + rewrite all_chars_append.
      change (chars (Star a)) with (chars a) in *. by rewrite Hc1, Hc2.
  - exact IH.
  - by exists EmptyString.
  - by exists EmptyString.
Qed.

(** The capture a match leaves is the one it found, or the text one of the
    pattern's groups consumed. *)
Lemma Matches_capture (r : Regex) (x y : MatchState) :
  Matches r x y ->
  capture y = capture x
  \/ exists a x' y',
       a ∈ groups r /\ Matches a x' y' /\ capture y = Some (consumed x' y').
Proof.
  induction 1 as [p x c rest Hin Hp | a b x y z _ IHa _ IHb | a x | a x y _ IH
                  | a x | a x y z _ IHa _ IHs | a x y Ha IH | x _ | x _];
    simpl; try (by left).
  - destruct IHb as [Hb | (g & x' & y' & Hg & Hm & Hc)].
    + destruct IHa as [Ha | (g & x' & y' & Hg & Hm & Hc)]; [left; congruence |].
      right. exists g, x', y'. rewrite elem_of_app. split; [by left |].
      split; [exact Hm | congruence].
    + right. exists g, x', y'. rewrite elem_of_app. auto.
  - exact IH.
  - destruct IHs as [Hs | (g & x' & y' & Hg & Hm & Hc)].
    + destruct IHa as [Ha | (g & x' & y' & Hg & Hm & Hc)]; [left; congruence |].
      right. exists g, x', y'. split; [exact Hg |]. split; [exact Hm | congruence].
    + right. exists g, x', y'. auto.
  - right. exists a, x, y. split; [left |]. split; [exact Ha | reflexivity].
Qed.

(** The backtracking matcher accepts nothing the patterns do not describe:
    when it succeeds, the pattern relates the state it started in to a
    state its continuation accepted. *)
Lemma matcher_sound (r : Regex) (x z : MatchState)
    (k : MatchState -> option MatchState) :
  matcher r x k = Some z ->
  exists y, Matches r x y /\ k y = Some z.
Proof.
  revert x z k. induction r as [p | a IHa b IHb | a IHa | a IHa | a IHa | |];
    intros x z k H; simpl in H.
  - destruct (input x) as [| c rest] eqn:Hin; [discriminate |].
    destruct (p c) eqn:Hp; [| discriminate].
    eexists. split; [eapply MChr; eassumption | exact H].
  - apply IHa in H as (y & Ha & H). apply IHb in H as (y' & Hb & H).
    exists y'. split; [econstructor; eassumption | exact H].
  - destruct (matcher a x _) as [z' |] eqn:Hm.
    + injection H as ->. apply IHa in Hm as (y & Ha & Hk).
      destruct (progressed x y); [| discriminate].
      exists y. split; [by constructor | exact Hk].
    + exists x. split; [constructor | exact H].
  - remember (String.length (input x)) as fuel eqn:Hfuel. clear Hfuel.
    revert x H. induction fuel as [| fuel IHfuel]; intros x H.
    + exists x. split; [constructor | exact H].
    + destruct (matcher a x _) as [z' |] eqn:Hm.
      * injection H as ->. apply IHa in Hm as (y & Ha & Hk).
        destruct (progressed x y); [| discriminate].
        apply IHfuel in Hk as (y' & Hs & Hk).
        exists y'. split; [econstructor; eassumption | exact Hk].
      * exists x. split; [constructor | exact H].
  - apply IHa in H as (y & Ha & H).
    eexists. split; [constructor; exact Ha | exact H].
  - destruct (at_start x) eqn:Hs; [| discriminate].
    exists x. split; [by constructor | exact H].
  - destruct (input x) eqn:Hin; [| discriminate].
    exists x. split; [by constructor | exact H].
Qed.

(** What [match] returns: a piece of the subject that the pattern matches,
    and the capture that match left. *)
Lemma search_from_sound (r : Regex) (s : string) (start : bool) (m : MatchResult) :
  search_from r start s = Some m ->
  exists pre x y,
    s = (pre ++ input x)%string /\ capture x = None /\ Matches r x y
    /\ whole m = consumed x y /\ group1 m = capture y.
Proof.
  revert start. induction s as [| c s IH]; intros start H; simpl in H.
  - destruct (matcher r _ Some) as [y |] eqn:Hm; [| discriminate].
    injection H as <-. apply matcher_sound in Hm as (y' & Hy & [= ->]).
    exists EmptyString, (mkMatchState start EmptyString None), y.
    split; [reflexivity |]. split; [reflexivity |]. split; [exact Hy |].
    split; reflexivity.
  - destruct (matcher r _ Some) as [y |] eqn:Hm.
    + injection H as <-. apply matcher_sound in Hm as (y' & Hy & [= ->]).
      exists EmptyString, (mkMatchState start (String c s) None), y.
      split; [reflexivity |]. split; [reflexivity |]. split; [exact Hy |].
      split; reflexivity.
    + apply IH in H as (pre & x & y & Hs & Hc & Hm' & Hw & Hg).
      exists (String c pre), x, y. rewrite append_cons, <- Hs. auto.
Qed.

Lemma match_occurs (r : Regex) (s : string) (m : MatchResult) :
  match_ s r = Some m ->
  occurs_in (whole m) s
  /\ exists x y, capture x = None /\ Matches r x y
                 /\ whole m = consumed x y /\ group1 m = capture y.
Proof.
  intros H. apply search_from_sound in H as (pre & x & y & Hs & Hc & Hm & Hw & Hg).
  split; [| eauto 6].
  destruct (Matches_text r x y Hm) as (w & Hx & _).
  rewrite Hw, (consumed_append x y w Hx).
  exists pre, (input y). by rewrite Hs, Hx.
Qed.

Lemma Matches_seq_inv (a b : Regex) (x z : MatchState) :
  Matches (Seq a b) x z -> exists y, Matches a x y /\ Matches b y z.
Proof. inversion 1; subst; eauto. Qed.

Lemma Matches_chr_inv (p : ascii -> bool) (x y : MatchState) :
  Matches (Chr p) x y -> exists c, input x = String c (input y) /\ p c = true.
Proof. inversion 1; subst; simpl; eauto. Qed.

Lemma Matches_plus_text (p : ascii -> bool) (x y : MatchState) :
  Matches (plus (Chr p)) x y ->
  exists w, input x = (w ++ input y)%string
            /\ truthy w = true /\ all_chars p w = true.
Proof.
  intros H. apply Matches_seq_inv in H as (y1 & H1 & Hs).
  apply Matches_chr_inv in H1 as (c & Hx & Hc).
  apply Matches_text in Hs as (w & Hy & Hw).
  exists (String c w). rewrite append_cons, <- Hy. split; [exact Hx |].
  split; [reflexivity |]. simpl. rewrite Hc. exact Hw.
Qed.

(** What the e-mail pattern matches. *)
Lemma Matches_email (x y : MatchState) :
  Matches emailRegex x y ->
  exists v, input x = (v ++ input y)%string /\ email_shaped v.
Proof.
  unfold emailRegex. cbn [seq_all]. intros H.
  apply Matches_seq_inv in H as (y1 & Hloc & H).
  apply Matches_seq_inv in H as (y2 & Hat & H).
  apply Matches_seq_inv in H as (y3 & Hdom & H).
  apply Matches_seq_inv in H as (y4 & Hdot & Htld).
  apply Matches_plus_text in Hloc as (loc & Hx & Hloc1 & Hloc2).
  apply Matches_chr_inv in Hat as (c1 & Hy1 & Hc1).
  apply Matches_plus_text in Hdom as (dom & Hy2 & Hdom1 & Hdom2).
  apply Matches_chr_inv in Hdot as (c2 & Hy3 & Hc2).
  apply Matches_plus_text in Htld as (tld & Hy4 & Htld1 & Htld2).
  apply Ascii.eqb_eq in Hc1, Hc2. subst c1 c2.
  exists (loc ++ String "@" (dom ++ String "." tld))%string. split.
  - rewrite Hx, Hy1, Hy2, Hy3, Hy4.
    by rewrite append_assoc', append_cons, append_assoc', append_cons.
  - exists loc, dom, tld. repeat split; assumption.
Qed.

(** What the pattern for a count with thousands separators matches. *)
Lemma Matches_count (x y : MatchState) :
  Matches grouped_integer x y ->
  exists v, input x = (v ++ input y)%string /\ count_shaped v.
Proof.
  unfold grouped_integer. intros H.
  apply Matches_seq_inv in H as (y2 & H & Hgroups).
  apply Matches_seq_inv in H as (y1 & Hd & Hmore).
  apply Matches_chr_inv in Hd as (d & Hx & Hd).
  apply Matches_text in Hmore as (w1 & Hy1 & Hw1).
  apply Matches_text in Hgroups as (w2 & Hy2 & Hw2).
  exists (String d (w1 ++ w2)). split.
  - by rewrite Hx, Hy1, Hy2, append_cons, append_assoc'.
  - exists d, (w1 ++ w2)%string. split; [reflexivity |]. split; [exact Hd |].
    rewrite all_chars_append. apply andb_true_intro. split.
    + eapply all_chars_mono; [| exact Hw1]. intros c Hc.
      unfold digit in Hc. cbn [chars] in Hc.
      destruct (is_digit c); [reflexivity | discriminate].
    + eapply all_chars_mono; [| exact Hw2]. intros c Hc.
      rewrite (Ascii.eqb_sym c ","). unfold digit, lit in Hc.
      cbn [chars seq_all] in Hc.
      destruct (is_digit c), (Ascii.eqb "," c); try reflexivity; discriminate.
Qed.

(** A capture of a pattern whose only group is [a] is a text [a] matches. *)
Lemma captured_group (r a : Regex) (s g : string) :
  groups r = [a] ->
  Server.captured (match_ s r) = Some g ->
  truthy g = true
  /\ exists x y, Matches a x y /\ g = consumed x y.
Proof.
  intros Hgroups. unfold Server.captured.
  destruct (match_ s r) as [m |] eqn:Hm; [| discriminate].
  destruct (group1 m) as [g' |] eqn:Hg; [| discriminate].
  destruct (truthy g') eqn:Ht; [| discriminate]. intros [= ->].
  split; [exact Ht |].
  apply match_occurs in Hm as (_ & x & y & Hnone & Hxy & _ & Hcap).
  destruct (Matches_capture r x y Hxy) as [Hsame | (b & x' & y' & Hb & Hm' & Hc)];
    [congruence |].
  rewrite Hgroups in Hb. apply list_elem_of_singleton in Hb. subst b.
  exists x', y'. split; [exact Hm' | congruence].
Qed.

Lemma first_captured_some (matches : list (option MatchResult)) (g : string) :
  Server.first_captured matches = Some g ->
  exists m, m ∈ matches /\ Server.captured m = Some g.
Proof.
  induction matches as [| m rest IH]; simpl; [discriminate |].
  destruct (Server.captured m) eqn:Hm.
  - intros [= <-]. exists m. split; [left | exact Hm].
  - intros H. destruct (IH H) as (m' & Hin & Hc). exists m'. split; [by right | exact Hc].
Qed.

End MatcherFacts.

(** ** Where the values of a record come from *)

Section ValueFacts.
Import Js Dom Server Cascade Lang.
Local Open Scope list_scope.

Ltac step_by lem := rewrite result_bind, lem; cbn [result snd]; cbv beta iota.

Ltac lookup_value :=
  repeat (rewrite lookup_assign || rewrite lookup_insert || rewrite lookup_empty);
  repeat (rewrite decide_False by discriminate);
  rewrite ?decide_True by reflexivity;
  try reflexivity.

(** The strategy that wins is the first that yields. *)
Lemma first_wins_split {S V : Type} (yield : S -> option V) (l : list S) (v : V) :
  first_wins yield l = Some v ->
  exists before s after,
    l = before ++ s :: after
    /\ Forall (fun s' => yield s' = None) before
    /\ yield s = Some v.
Proof.
  induction l as [| a l IH]; simpl; [discriminate |].
  destruct (yield a) eqn:Ha.
  - intros [= <-]. exists [], a, l. auto.
  - intros H. destruct (IH H) as (before & s & after & -> & Hbefore & Hs).
    exists (a :: before), s, after. auto.
Qed.

Lemma first_wins_none {S V : Type} (yield : S -> option V) (l : list S) :
  first_wins yield l = None -> Forall (fun s => yield s = None) l.
Proof.
  induction l as [| a l IH]; simpl; [constructor |].
  destruct (yield a) eqn:Ha; [discriminate |]. auto.
Qed.

(** The text the loop over the elements of one category selector ends
    with: the one it started with, or an accepted text of an element. *)
Lemma fold_category (d : gmap string string) (els : list Element) (c : string) :
  fold_left (category_element d) els c = c
  \/ exists e, e ∈ els
               /\ fold_left (category_element d) els c = trim (textContent e)
               /\ category_accepts d (trim (textContent e)) = true.
Proof.
  revert c. induction els as [| a els IH]; intros c; simpl; [by left |].
  destruct (IH (category_element d c a)) as [Heq | (e & Hin & Hv & Hacc)].
  - rewrite Heq. unfold category_element.
    destruct (category_accepts d (trim (textContent a))) eqn:Ha; [| by left].
    right. exists a. split; [left |]. split; [reflexivity | exact Ha].
  - right. exists e. split; [by right |]. split; assumption.
Qed.

(** The fields of a returned record that are read from the page text or
    found by a cascade, each by the value it has. *)
Lemma extract_values (doc : Document) (r : gmap string string) :
  result (extractBusinessDetails doc) = Ok r ->
  exists pageText category,
    body_innerText doc = Some pageText
    /\ r !! "email" =
         Some (match match_ pageText emailRegex with
               | Some m => whole m
               | None => NA
               end)
    /\ r !! "reviews" = Some (reviews_value doc pageText)
    /\ r !! "hours" = Some (hours_value doc)
    /\ r !! "category" = Some category
    /\ category =
         category_method2 pageText
           (default NA (first_wins (category_yield doc r) categorySelectors))
    /\ r !! "attributes" = attributes_field (found_attributes doc r category).
Proof.
  intros Hr. pose proof (extract_result doc) as Hshape.
  destruct (extraction_fault doc) as [e |]; [congruence |].
  cbv zeta in Hshape.
  destruct Hshape
    as (pageText & rating & category & attributes & Hbody & Heq & Hfound & _
        & Hcategory).
  rewrite Heq in Hr. apply Ok_inj in Hr. clear Heq.
  rewrite Hr in Hfound, Hcategory.
  exists pageText, category. split; [exact Hbody |].
  split; [rewrite <- Hr; unfold detail_record; lookup_value |].
  split; [rewrite <- Hr; unfold detail_record; lookup_value |].
  split; [rewrite <- Hr; unfold detail_record; lookup_value |].
  split; [rewrite <- Hr; unfold detail_record; lookup_value |].
  split; [exact Hcategory |].
  rewrite <- Hfound. rewrite <- Hr. unfold detail_record. lookup_value.
  by destruct attributes.
Qed.

(** The review count, by where it was read. *)
Lemma reviews_value_from (doc : Document) (pageText : string) :
  reviews_value doc pageText = NA
  \/ (exists c,
        c ∈ doc_querySelectorAll doc "span.F7nice, div.F7nice, div.review-score"
        /\ captured (match_ (textContent c) re_count_reviews)
             = Some (reviews_value doc pageText))
  \/ first_captured [ match_ pageText re_count_reviews;
                      match_ pageText re_reviews_count ]
       = Some (reviews_value doc pageText).
Proof.
  unfold reviews_value. cbv zeta.
  set (found :=
         first_wins (fun c => captured (match_ (textContent c) re_count_reviews))
           (doc_querySelectorAll doc "span.F7nice, div.F7nice, div.review-score")).
  set (scanned := first_captured [ match_ pageText re_count_reviews;
                                   match_ pageText re_reviews_count ]).
  destruct found as [g |] eqn:Hfound; cbn [default from_option id].
  - destruct (bool_decide (g = NA)) eqn:Hna.
    + destruct scanned as [g' |] eqn:Hscan; cbn [default from_option id];
        [by right; right |].
      apply bool_decide_eq_true in Hna. by left.
    + cbn [default from_option id]. right. left.
      apply first_wins_some in Hfound as (c & Hin & Hc). eauto.
  - rewrite bool_decide_eq_true_2 by reflexivity.
    destruct scanned as [g' |] eqn:Hscan; cbn [default from_option id];
      [by right; right | by left].
Qed.

(** X8. The e-mail of a returned record is a piece of the page text of
    the shape local@domain.tld when the pattern finds one, and the sentinel
    exactly when the pattern finds nothing in the page text. *)
Theorem email_is_an_address_of_the_page (doc : Document) (r : gmap string string) :
  result (extractBusinessDetails doc) = Ok r ->
  exists pageText v,
    body_innerText doc = Some pageText
    /\ r !! "email" = Some v
    /\ (if test emailRegex pageText
        then email_shaped v /\ occurs_in v pageText
        else v = NA).
Proof.
  intros Hr.
  destruct (extract_values doc r Hr) as (pageText & category & Hbody & Hemail & _).
  exists pageText. eexists. split; [exact Hbody |]. split; [exact Hemail |].
  unfold test. destruct (match_ pageText emailRegex) as [m |] eqn:Hm; [| reflexivity].
  apply match_occurs in Hm as (Hocc & x & y & _ & Hxy & Hw & _).
  split; [| exact Hocc].
  apply Matches_email in Hxy as (v & Hx & Hv).
  by rewrite Hw, (consumed_append x y v Hx).
Qed.

(** X9. The review count of a returned record is the capture of the first
    review container in which the pattern captures, else of the first
    pattern that captures in the page text, else the sentinel; it is the
    sentinel or a digit followed by digits and commas. *)
Theorem reviews_is_a_count (doc : Document) (r : gmap string string) :
  result (extractBusinessDetails doc) = Ok r ->
  exists pageText v,
    body_innerText doc = Some pageText
    /\ r !! "reviews" = Some v
    /\ v = reviews_value doc pageText
    /\ (v = NA \/ count_shaped v).
Proof.
  intros Hr.
  destruct (extract_values doc r Hr)
    as (pageText & category & Hbody & _ & Hreviews & _).
  exists pageText, (reviews_value doc pageText).
  split; [exact Hbody |]. split; [exact Hreviews |]. split; [reflexivity |].
  pose proof (reviews_value_from doc pageText) as Hfrom.
  set (reviews := reviews_value doc pageText) in *.
  assert (Hshape : forall s re, groups re = [grouped_integer] ->
                                captured (match_ s re) = Some reviews ->
                                count_shaped reviews).
  { intros s re Hg Hc.
    apply (captured_group re grouped_integer s reviews Hg) in Hc
      as (_ & x & y & Hxy & ->).
    apply Matches_count in Hxy as (v & Hx & Hv).
    by rewrite (consumed_append x y v Hx). }
  destruct Hfrom as [-> | [(c & _ & Hc) | Hscan]]; [by left | right | right].
  - by apply (Hshape (textContent c) re_count_reviews).
  - apply first_captured_some in Hscan as (m & Hin & Hm).
    apply elem_of_cons in Hin as [-> | Hin];
      [by apply (Hshape pageText re_count_reviews) |].
    apply list_elem_of_singleton in Hin as ->.
    by apply (Hshape pageText re_reviews_count).
Qed.

Lemma trimStart_chars (p : ascii -> bool) (s : string) :
  all_chars p s = true -> all_chars p (trimStart s) = true.
Proof.
  induction s as [| c s IH]; simpl; [reflexivity |]. intros H.
  destruct (is_whitespace c); [| exact H].
  apply andb_prop in H as [_ H]. by apply IH.
Qed.

Lemma trimEnd_chars (p : ascii -> bool) (s : string) :
  all_chars p s = true -> all_chars p (trimEnd s) = true.
Proof.
  induction s as [| c s IH]; simpl; [reflexivity |]. intros H.
  apply andb_prop in H as [Hc H]. specialize (IH H).
  destruct (trimEnd s) as [| c' t]; [destruct (is_whitespace c) |]; simpl in *;
    by rewrite ?Hc, ?IH.
Qed.

(** X10. The category of a returned record is what the first category
    selector that yields has yielded: the trimmed text of one of its
    elements, which passes the filter (non-empty, under 30 code units, no
    link, no e-mail sign, no leading digit, not the menu button, not the
    website, no phone label) and is not the sentinel. When no selector
    yields, it is the trimmed capture of the first text pattern that
    captures, which holds no full stop, comma or semicolon; and when none
    does, the sentinel. *)
Theorem category_is_filtered (doc : Document) (r : gmap string string) :
  result (extractBusinessDetails doc) = Ok r ->
  exists pageText v,
    body_innerText doc = Some pageText
    /\ r !! "category" = Some v
    /\ match first_wins (category_yield doc r) categorySelectors with
       | Some c =>
           v = c /\ v <> NA /\ category_accepts r v = true
           /\ exists before s after e,
                categorySelectors = before ++ s :: after
                /\ Forall (fun s' => category_yield doc r s' = None) before
                /\ category_yield doc r s = Some v
                /\ e ∈ doc_querySelectorAll doc s
                /\ v = trim (textContent e)
       | None =>
           match first_captured [ match_ pageText re_category;
                                  match_ pageText re_type ] with
           | Some g => v = trim g /\ all_chars not_separator v = true
           | None => v = NA
           end
       end.
Proof.
  intros Hr.
  destruct (extract_values doc r Hr)
    as (pageText & category & Hbody & _ & _ & _ & Hcategory & Hfrom & _).
  exists pageText, category. split; [exact Hbody |]. split; [exact Hcategory |].
  destruct (first_wins (category_yield doc r) categorySelectors) as [c |] eqn:Hfw;
    cbn [default from_option id] in Hfrom.
  - apply first_wins_split in Hfw as (before & s & after & Hsplit & Hbefore & Hs).
    pose proof Hs as Hyield.
    unfold category_yield in Hyield. cbv zeta in Hyield.
    destruct (String.eqb _ NA) eqn:Hv; [discriminate |]. injection Hyield as Hyield.
    assert (Hne : c <> NA).
    { intros ->. rewrite Hyield in Hv. by rewrite String.eqb_refl in Hv. }
    unfold category_method2 in Hfrom.
    destruct (String.eqb_spec c NA) as [Heq | _]; [by destruct Hne |].
    subst category. split; [reflexivity |]. split; [exact Hne |].
    destruct (fold_category r (doc_querySelectorAll doc s) NA)
      as [Hsame | (e & He & Hval & Hacc)].
    + rewrite Hsame in Hyield. by destruct Hne.
    + rewrite <- Hyield, Hval. split; [exact Hacc |].
      exists before, s, after, e. rewrite <- Hval, Hyield. auto.
  - unfold category_method2 in Hfrom. rewrite String.eqb_refl in Hfrom.
    destruct (first_captured [ match_ pageText re_category; _ ]) as [g |] eqn:Hscan;
      [| exact Hfrom].
    split; [exact Hfrom |]. rewrite Hfrom.
    assert (Hshape : forall re,
               groups re = [plus (Chr not_separator)] ->
               captured (match_ pageText re) = Some g ->
               all_chars not_separator g = true).
    { intros re Hg Hc.
      apply (captured_group _ (plus (Chr not_separator)) pageText g Hg) in Hc
        as (_ & x & y & Hxy & ->).
      apply Matches_plus_text in Hxy as (w & Hx & _ & Hw).
      by rewrite (consumed_append x y w Hx). }
    unfold trim. apply trimEnd_chars, trimStart_chars.
    apply first_captured_some in Hscan as (m & Hin & Hm).
    apply elem_of_cons in Hin as [-> | Hin]; [by apply (Hshape re_category) |].
    apply list_elem_of_singleton in Hin as ->. by apply (Hshape re_type).
Qed.

(** What the attributes loop holds after the elements of one selector, and
    after all selectors: the accepted texts, in document order, every
    occurrence kept. *)
Lemma fold_attributes_filter (d : gmap string string) (category : string)
    (els : list Element) (acc : list string) :
  fold_left (attribute_element d category) els acc
  = acc ++ List.filter (attribute_accepts d category)
             (map (fun e => trim (textContent e)) els).
Proof.
  revert acc. induction els as [| e els IH]; intros acc; simpl;
    [by rewrite app_nil_r |].
  rewrite IH. unfold attribute_element.
  destruct (attribute_accepts d category (trim (textContent e)));
    [by rewrite <- app_assoc | reflexivity].
Qed.

Lemma found_attributes_filter (doc : Document) (d : gmap string string)
    (category : string) (selectors : list string) (acc : list string) :
  fold_left
    (fun acc s =>
       fold_left (attribute_element d category) (doc_querySelectorAll doc s) acc)
    selectors acc
  = acc ++ List.filter (attribute_accepts d category)
             (map (fun e => trim (textContent e))
                (concat (map (doc_querySelectorAll doc) selectors))).
Proof.
  revert acc. induction selectors as [| s rest IH]; intros acc; simpl;
    [by rewrite app_nil_r |].
  rewrite IH, fold_attributes_filter, map_app, List.filter_app.
  by rewrite <- app_assoc.
Qed.

(** X11. The attributes of a returned record are the trimmed texts of
    all the elements the four attribute selectors locate, in selector order
    and document order, less those that are empty, 50 code units or longer,
    or equal to the name, the address, the phone, the website or the
    category of the same record; a text located twice is kept twice. They
    are joined by a comma and a blank, and the field is absent when none is
    left. *)
Theorem attributes_are_filtered (doc : Document) (r : gmap string string) :
  result (extractBusinessDetails doc) = Ok r ->
  exists category,
    r !! "category" = Some category
    /\ r !! "attributes" =
         attributes_field
           (List.filter (attribute_accepts r category)
              (map (fun e => trim (textContent e))
                 (concat (map (doc_querySelectorAll doc) attributeSelectors)))).
Proof.
  intros Hr.
  destruct (extract_values doc r Hr)
    as (pageText & category & _ & _ & _ & _ & Hcategory & _ & Hattributes).
  exists category. split; [exact Hcategory |].
  rewrite Hattributes. unfold found_attributes.
  by rewrite found_attributes_filter.
Qed.

End ValueFacts.

(** A run of X8 on a page whose text holds an address. *)
Lemma email_is_an_address_of_the_page_witness :
  (exists r,
     Dom.result (Server.extractBusinessDetails Mock.rich_page) = Dom.Ok r
     /\ exists pageText v,
          Dom.body_innerText Mock.rich_page = Some pageText
          /\ r !! "email" = Some v
          /\ (if Js.test Js.emailRegex pageText
              then Lang.email_shaped v /\ Lang.occurs_in v pageText
              else v = Server.NA))
  /\ Mock.field (Server.extractBusinessDetails Mock.rich_page) "email"
     = Some "info@nero.example".
Proof.
  split; [| vm_compute; reflexivity].
  destruct (extract_returns Mock.rich_page eq_refl) as [r Hr].
  exists r. split; [exact Hr |].
  exact (email_is_an_address_of_the_page Mock.rich_page r Hr).
Defined.

(** A run of X9 on a page whose review container reads 1,234 reviews. *)
Lemma reviews_is_a_count_witness :
  (exists r,
     Dom.result (Server.extractBusinessDetails Mock.rich_page) = Dom.Ok r
     /\ exists pageText v,
          Dom.body_innerText Mock.rich_page = Some pageText
          /\ r !! "reviews" = Some v
          /\ v = Cascade.reviews_value Mock.rich_page pageText
          /\ (v = Server.NA \/ Lang.count_shaped v))
  /\ Mock.field (Server.extractBusinessDetails Mock.rich_page) "reviews"
     = Some "1,234".
Proof.
  split; [| vm_compute; reflexivity].
  destruct (extract_returns Mock.rich_page eq_refl) as [r Hr].
  exists r. split; [exact Hr |].
  exact (reviews_is_a_count Mock.rich_page r Hr).
Defined.

(** A run of X10 on a page whose category selector locates an accepted
    text and then the menu button. *)
Lemma category_is_filtered_witness :
  (exists r,
     Dom.result (Server.extractBusinessDetails Mock.rich_page) = Dom.Ok r
     /\ exists pageText v,
          Dom.body_innerText Mock.rich_page = Some pageText
          /\ r !! "category" = Some v
          /\ match Cascade.first_wins (Cascade.category_yield Mock.rich_page r)
                     Server.categorySelectors with
             | Some c =>
                 v = c /\ v <> Server.NA /\ Server.category_accepts r v = true
                 /\ exists before s after e,
                      Server.categorySelectors = (before ++ s :: after)%list
                      /\ Forall (fun s' =>
                                   Cascade.category_yield Mock.rich_page r s' = None)
                           before
                      /\ Cascade.category_yield Mock.rich_page r s = Some v
                      /\ e ∈ Dom.doc_querySelectorAll Mock.rich_page s
                      /\ v = Js.trim (Dom.textContent e)
             | None =>
                 match Server.first_captured [ Js.match_ pageText Js.re_category;
                                               Js.match_ pageText Js.re_type ] with
                 | Some g => v = Js.trim g
                             /\ Lang.all_chars Js.not_separator v = true
                 | None => v = Server.NA
                 end
             end)
  /\ Mock.field (Server.extractBusinessDetails Mock.rich_page) "category"
     = Some "Coffee shop".
Proof.
  split; [| vm_compute; reflexivity].
  destruct (extract_returns Mock.rich_page eq_refl) as [r Hr].
  exists r. split; [exact Hr |].
  exact (category_is_filtered Mock.rich_page r Hr).
Defined.

(** A run of X11 on a page where one attribute text repeats the name and
    another one is located twice: the first is left out, the second is
    kept twice. *)
Lemma attributes_are_filtered_witness :
  (exists r,
     Dom.result (Server.extractBusinessDetails Mock.rich_page) = Dom.Ok r
     /\ exists category,
          r !! "category" = Some category
          /\ r !! "attributes" =
               Cascade.attributes_field
                 (List.filter (Server.attribute_accepts r category)
                    (map (fun e => Js.trim (Dom.textContent e))
                       (concat (map (Dom.doc_querySelectorAll Mock.rich_page)
                                  Server.attributeSelectors)))))
  /\ Mock.field (Server.extractBusinessDetails Mock.rich_page) "attributes"
     = Some "Free Wi-Fi, Free Wi-Fi, Takeaway".
Proof.
  split; [| vm_compute; reflexivity].
  destruct (extract_returns Mock.rich_page eq_refl) as [r Hr].
  exists r. split; [exact Hr |].
  exact (attributes_are_filtered Mock.rich_page r Hr).
Defined.

(** ** Where the hours of a record come from *)

Section HoursFacts.
Import Js Dom Server Cascade Lang.
Local Open Scope list_scope.

Lemma hours_row_gathered (acc : list string * bool) (row : Element) :
  gathered acc -> gathered (hours_row acc row).
Proof.
  intros [Hall Hnil]. unfold hours_row.
  destruct (cell_text row ".ylH6lf, .x4hIce") as [d |]; [| by split].
  destruct (cell_text row ".mxowUb, .G8aQO") as [h |]; [| by split].
  destruct (truthy d) eqn:Hd; [| by split].
  destruct (truthy h) eqn:Hh; [| by split]. simpl.
  split.
  - apply Forall_app. split; [exact Hall |]. apply Forall_singleton.
    exists d, h. auto.
  - split; [discriminate |]. intros H. by apply app_eq_nil in H as [_ H].
Qed.

Lemma hours_rows_gathered (rows : list Element) (acc : list string * bool) :
  gathered acc -> gathered (fold_left hours_row rows acc).
Proof.
  revert acc. induction rows as [| row rows IH]; intros acc H; simpl; [exact H |].
  by apply IH, hours_row_gathered.
Qed.

(** What a table yields is the join of at least one entry of a day and
    its hours. *)
Lemma table_yield_entries (doc : Document) (s t : string) :
  table_yield doc s = Some t ->
  exists table entries,
    located doc s = Some table
    /\ entries = fst (fold_left hours_row (querySelectorAll table "tr.y0skZc, tr")
                        ([], false))
    /\ entries <> [] /\ Forall entry_shaped entries
    /\ t = join "; " entries.
Proof.
  unfold table_yield. destruct (located doc s) as [table |]; [| discriminate].
  cbv zeta.
  pose proof (hours_rows_gathered (querySelectorAll table "tr.y0skZc, tr")
                ([], false)) as Hrows.
  destruct (snd (fold_left hours_row (querySelectorAll table "tr.y0skZc, tr")
                   ([], false))) eqn:Hfound; [| discriminate].
  intros [= <-]. destruct Hrows as [Hall Hnil]; [by split |].
  exists table. eexists. split; [reflexivity |]. split; [reflexivity |].
  split; [| split; [exact Hall | reflexivity]].
  intros Hempty. apply Hnil in Hempty. congruence.
Qed.

(** X12. The hours of a returned record are those of the first hours table
    that yields: the entries of its rows, each a day and its hours and both
    non-empty, joined by a semicolon and a blank, no earlier table having
    yielded. When no table yields, they are the trimmed text of the first
    hours section located, no earlier selector having located one. When
    there is neither, they are the sentinel. *)
Theorem hours_come_from_a_table_or_a_section (doc : Document)
    (r : gmap string string) :
  result (extractBusinessDetails doc) = Ok r ->
  exists v,
    r !! "hours" = Some v
    /\ match first_wins (table_yield doc) hoursTableSelectors with
       | Some hours =>
           v = hours
           /\ exists before s after table entries,
                hoursTableSelectors = before ++ s :: after
                /\ Forall (fun s' => table_yield doc s' = None) before
                /\ located doc s = Some table
                /\ entries = fst (fold_left hours_row
                                    (querySelectorAll table "tr.y0skZc, tr")
                                    ([], false))
                /\ entries <> [] /\ Forall entry_shaped entries
                /\ v = join "; " entries
       | None =>
           Forall (fun s => table_yield doc s = None) hoursTableSelectors
           /\ match first_wins (section_yield doc) hoursSelectors with
              | Some text =>
                  v = text
                  /\ exists before s after section,
                       hoursSelectors = before ++ s :: after
                       /\ Forall (fun s' => located doc s' = None) before
                       /\ located doc s = Some section
                       /\ v = trim (textContent section)
              | None =>
                  v = NA /\ Forall (fun s => located doc s = None) hoursSelectors
              end
       end.
Proof.
  intros Hr.
  destruct (extract_values doc r Hr) as (pageText & category & _ & _ & _ & Hhours & _).
  exists (hours_value doc). split; [exact Hhours |]. unfold hours_value.
  destruct (first_wins (table_yield doc) hoursTableSelectors) as [hours |] eqn:Htable.
  - split; [reflexivity |].
    apply first_wins_split in Htable as (before & s & after & Hl & Hbefore & Hs).
    destruct (table_yield_entries doc s hours Hs)
      as (table & entries & ? & ? & ? & ? & ?).
    exists before, s, after, table, entries. auto 10.
  - split; [by apply first_wins_none |].
    destruct (first_wins (section_yield doc) hoursSelectors) as [text |] eqn:Hsection;
      cbn [default from_option id].
    + split; [reflexivity |].
      apply first_wins_split in Hsection as (before & s & after & Hl & Hbefore & Hs).
      unfold section_yield in Hs.
      destruct (located doc s) as [section |] eqn:Hloc; [| discriminate].
      injection Hs as <-. exists before, s, after, section.
      split; [exact Hl |]. split; [| auto].
      eapply Forall_impl; [exact Hbefore |]. intros s' Hs'. unfold section_yield in Hs'.
      by destruct (located doc s').
    + split; [reflexivity |]. apply first_wins_none in Hsection.
      eapply Forall_impl; [exact Hsection |]. intros s' Hs'. unfold section_yield in Hs'.
      by destruct (located doc s').
Qed.

End HoursFacts.

(** A run of X12 on a page with an hours table of two rows, one of them
    without hours. *)
Lemma hours_come_from_a_table_or_a_section_witness :
  (exists r,
     Dom.result (Server.extractBusinessDetails Mock.hours_page) = Dom.Ok r
     /\ exists v,
          r !! "hours" = Some v
          /\ match Cascade.first_wins (Cascade.table_yield Mock.hours_page)
                     Server.hoursTableSelectors with
             | Some hours =>
                 v = hours
                 /\ exists before s after table entries,
                      Server.hoursTableSelectors = (before ++ s :: after)%list
                      /\ Forall (fun s' => Cascade.table_yield Mock.hours_page s' = None)
                           before
                      /\ Cascade.located Mock.hours_page s = Some table
                      /\ entries = fst (fold_left Server.hours_row
                                          (Dom.querySelectorAll table "tr.y0skZc, tr")
                                          ([], false))
                      /\ entries <> [] /\ Forall Lang.entry_shaped entries
                      /\ v = Js.join "; " entries
             | None =>
                 Forall (fun s => Cascade.table_yield Mock.hours_page s = None)
                   Server.hoursTableSelectors
                 /\ match Cascade.first_wins (Cascade.section_yield Mock.hours_page)
                            Server.hoursSelectors with
                    | Some text =>
                        v = text
                        /\ exists before s after section,
                             Server.hoursSelectors = (before ++ s :: after)%list
                             /\ Forall (fun s' => Cascade.located Mock.hours_page s' = None)
                                  before
                             /\ Cascade.located Mock.hours_page s = Some section
                             /\ v = Js.trim (Dom.textContent section)
                    | None =>
                        v = Server.NA
                        /\ Forall (fun s => Cascade.located Mock.hours_page s = None)
                             Server.hoursSelectors
                    end
             end)
  /\ Mock.field (Server.extractBusinessDetails Mock.hours_page) "hours"
     = Some "Mon: 8-17; Tue: 8-17".
Proof.
  split; [| vm_compute; reflexivity].
  destruct (extract_returns Mock.hours_page eq_refl) as [r Hr].
  exists r. split; [exact Hr |].
  exact (hours_come_from_a_table_or_a_section Mock.hours_page r Hr).
Defined.

(** ** The time discovery spends waiting *)

Section ClockFacts.
Import Js Dom Server Cascade Clock.
Local Open Scope list_scope.
Context {Page : Type}.
Variable waitForTimeout : Z -> Page -> Page.
Variable document : Page -> Document.
Variable improvedAutoScroll : Page -> Page.

Abbreviation tloop := (timed_loop waitForTimeout document improvedAutoScroll).
Abbreviation tbody :=
  (loop_body (timed_wait waitForTimeout) (timed_document document)
     (timed_scroll improvedAutoScroll)).

(** One pass of the body: two seconds, and after a scroll the wait that
    grows with the number of scrolls. *)
Lemma timed_body_clock (limit : Z) (st st' : @LoopState (Page * Z)) :
  tbody limit st = Ok st' ->
  (scrollAttempts st' = scrollAttempts st
   /\ limit <= Z.of_nat (length (listingUrls st'))
   /\ snd (page st') = snd (page st) + 2000)
  \/ (scrollAttempts st' = S (scrollAttempts st)
      /\ snd (page st') =
           snd (page st) + 2000 + (3000 + Z.of_nat (S (scrollAttempts st)) * 500)).
Proof.
  unfold loop_body. destruct (result (harvest _)) as [found |]; [| discriminate].
  destruct (add_new limit found (listingUrls st) false) as [urls added].
  destruct (Z.ltb_spec (Z.of_nat (length urls)) limit) as [Hlt | Hge];
    intros [= <-]; simpl; [right | left]; auto.
Qed.

(** The clock along the loop. *)
Lemma timed_loop_clock (limit : Z) (st st' : @LoopState (Page * Z)) :
  snd (tloop limit st) = Ok st' ->
  snd (page st') - snd (page st) =
    2000 * Z.of_nat (fst (tloop limit st))
    + scroll_waits (scrollAttempts st') - scroll_waits (scrollAttempts st)
  /\ (scrollAttempts st <= scrollAttempts st')%nat
  /\ (scrollAttempts st' - scrollAttempts st <= fst (tloop limit st))%nat.
Proof.
  revert st st'. unfold timed_loop.
  apply (discovery_loop_induction (timed_wait waitForTimeout) (timed_document document)
           (timed_scroll improvedAutoScroll) limit
           (fun st r => forall st',
                snd r = Ok st' ->
                snd (page st') - snd (page st) =
                  2000 * Z.of_nat (fst r)
                  + scroll_waits (scrollAttempts st') - scroll_waits (scrollAttempts st)
                /\ (scrollAttempts st <= scrollAttempts st')%nat
                /\ (scrollAttempts st' - scrollAttempts st <= fst r)%nat)).
  - intros st _ st' [= <-]. simpl. split; [lia |]. split; lia.
  - intros st e _ _ st' [=].
  - intros st st1 _ Hbody IH st' Hr.
    destruct (IH st' Hr) as (Hclock & Hle & Hdiff). simpl.
    destruct (timed_body_clock limit st st1 Hbody)
      as [(Hsa & _ & Ht) | (Hsa & Ht)].
    + rewrite Hsa in *. split; [lia |]. split; lia.
    + rewrite Hsa in *. split; [| split; lia].
      unfold scroll_waits in *. lia.
Qed.

(** The clock does not change what the loop does. *)
Lemma timed_body_untimed (limit : Z) (st : @LoopState (Page * Z)) :
  loop_body waitForTimeout document improvedAutoScroll limit (untimed st) =
    match tbody limit st with
    | Ok st1 => Ok (untimed st1)
    | Throw e => Throw e
    end.
Proof.
  unfold loop_body, untimed, timed_document, timed_wait, timed_scroll.
  cbn [page listingUrls scrollAttempts consecutiveNoNewUrls fst snd].
  destruct (result (harvest _)) as [found |]; [| reflexivity].
  destruct (add_new limit found (listingUrls st) false) as [urls added].
  destruct (_ <? _); reflexivity.
Qed.

Lemma timed_loop_untimed (limit : Z) (st : @LoopState (Page * Z)) :
  discovery_loop waitForTimeout document improvedAutoScroll limit (untimed st) =
    (fst (tloop limit st),
     match snd (tloop limit st) with
     | Ok st' => Ok (untimed st')
     | Throw e => Throw e
     end).
Proof.
  revert st. unfold timed_loop.
  apply (discovery_loop_induction (timed_wait waitForTimeout) (timed_document document)
           (timed_scroll improvedAutoScroll) limit
           (fun st r =>
              discovery_loop waitForTimeout document improvedAutoScroll limit
                (untimed st) =
              (fst r, match snd r with
                      | Ok st' => Ok (untimed st')
                      | Throw e => Throw e
                      end))).
  - intros st Hcond.
    rewrite (discovery_loop_step waitForTimeout document improvedAutoScroll).
    change (loop_cond limit (untimed st)) with (loop_cond limit st).
    rewrite Hcond. reflexivity.
  - intros st e Hcond Hbody.
    rewrite (discovery_loop_step waitForTimeout document improvedAutoScroll).
    change (loop_cond limit (untimed st)) with (loop_cond limit st).
    rewrite Hcond, timed_body_untimed, Hbody. reflexivity.
  - intros st st1 Hcond Hbody IH.
    rewrite (discovery_loop_step waitForTimeout document improvedAutoScroll).
    change (loop_cond limit (untimed st)) with (loop_cond limit st).
    rewrite Hcond, timed_body_untimed, Hbody, IH. reflexivity.
Qed.

(** X13. The time [collectListingUrls] spends in [waitForTimeout] when it
    returns is two seconds for each pass of its loop and 3000 + 500 k
    milliseconds after the k-th scroll: at least two seconds a pass and,
    with at most 30 passes, at most 382.5 seconds. On a page that never
    shows a listing, a search for at least one listing returns nothing
    after waiting 32.5 seconds. *)
Theorem discovery_waiting_time (pg : Page) (limit : Z) :
  (forall refs,
      collectListingUrls waitForTimeout document improvedAutoScroll pg limit
        = Ok refs ->
      let passes :=
        discovery_iterations waitForTimeout document improvedAutoScroll pg limit in
      exists t scrolls,
        waited waitForTimeout document improvedAutoScroll pg limit = Some t
        /\ t = 2000 * Z.of_nat passes + scroll_waits scrolls
        /\ (scrolls <= passes <= 30)%nat
        /\ 2000 * Z.of_nat passes <= t <= 382500)
  /\ (1 <= limit -> never_yields document ->
      collectListingUrls waitForTimeout document improvedAutoScroll pg limit = Ok []
      /\ waited waitForTimeout document improvedAutoScroll pg limit = Some 32500).
Proof.
  pose proof (timed_loop_untimed limit (initial_state (pg, 0))) as Hsame.
  change (untimed (initial_state (pg, 0))) with (initial_state pg) in Hsame.
  split.
  - intros refs Hrefs passes.
    unfold collectListingUrls in Hrefs. unfold discovery_iterations in passes.
    rewrite Hsame in Hrefs. cbn [snd] in Hrefs.
    destruct (snd (tloop limit (initial_state (pg, 0)))) as [st' |] eqn:Hr;
      [| discriminate].
    assert (Hpasses : passes = fst (tloop limit (initial_state (pg, 0))))
      by (unfold passes; rewrite Hsame; reflexivity).
    clearbody passes.
    destruct (timed_loop_clock limit _ st' Hr) as (Hclock & _ & Hdiff).
    rewrite <- Hpasses in Hclock, Hdiff.
    cbn [initial_state page scrollAttempts snd] in *.
    pose proof (discovery_loop_bound (timed_wait waitForTimeout)
                  (timed_document document) (timed_scroll improvedAutoScroll)
                  limit (initial_state (pg, 0))) as Hbound.
    fold (tloop limit (initial_state (pg, 0))) in Hbound. rewrite <- Hpasses in Hbound.
    assert (Hle : (passes <= 30)%nat).
    { destruct (loop_cond limit _) in Hbound; simpl in Hbound;
        unfold maxScrollAttempts in Hbound; lia. }
    exists (snd (page st')), (scrollAttempts st').
    unfold waited. rewrite Hr.
    unfold scroll_waits in *. split; [reflexivity |]. split; [lia |].
    split; [lia |]. nia.
  - intros Hlimit Hfeed.
    assert (Hrun : forall st : @LoopState (Page * Z),
               listingUrls st = [] ->
               (consecutiveNoNewUrls st <= 5)%nat ->
               (scrollAttempts st + (5 - consecutiveNoNewUrls st) <= 30)%nat ->
               exists st',
                 snd (tloop limit st) = Ok st'
                 /\ listingUrls st' = []
                 /\ fst (tloop limit st) = (5 - consecutiveNoNewUrls st)%nat
                 /\ scrollAttempts st' =
                      (scrollAttempts st + (5 - consecutiveNoNewUrls st))%nat).
    { unfold timed_loop.
      apply (discovery_loop_induction (timed_wait waitForTimeout)
               (timed_document document) (timed_scroll improvedAutoScroll) limit
               (fun st r =>
                  listingUrls st = [] ->
                  (consecutiveNoNewUrls st <= 5)%nat ->
                  (scrollAttempts st + (5 - consecutiveNoNewUrls st) <= 30)%nat ->
                  exists st',
                    snd r = Ok st'
                    /\ listingUrls st' = []
                    /\ fst r = (5 - consecutiveNoNewUrls st)%nat
                    /\ scrollAttempts st' =
                         (scrollAttempts st + (5 - consecutiveNoNewUrls st))%nat)).
      - intros st Hcond Hl Hc Hs. exists st. simpl.
        unfold loop_cond, maxScrollAttempts, maxConsecutiveNoNewUrls in Hcond.
        rewrite Hl in Hcond. simpl in Hcond. change (Z.of_nat 0) with 0 in Hcond.
        destruct (Z.ltb_spec 0 limit); [| lia].
        destruct (Nat.ltb_spec (scrollAttempts st) 30);
          destruct (Nat.ltb_spec (consecutiveNoNewUrls st) 5);
          simpl in Hcond; try discriminate; split; auto; split; auto; split; lia.
      - intros st e _ Hb _ _ _. unfold loop_body, timed_document in Hb.
        rewrite Hfeed in Hb. simpl in Hb. destruct (_ <? _); discriminate.
      - intros st st1 Hc Hb IH Hl Hcons Hsa.
        apply loop_cond_scroll in Hc as (_ & Hs & Hcn).
        unfold maxScrollAttempts, maxConsecutiveNoNewUrls in *.
        unfold loop_body, timed_document in Hb. rewrite Hfeed in Hb. simpl in Hb.
        rewrite Hl in Hb. simpl in Hb. change (Z.of_nat 0) with 0 in Hb.
        destruct (Z.ltb_spec 0 limit); [| lia].
        injection Hb as <-. cbn [listingUrls consecutiveNoNewUrls scrollAttempts] in IH.
        destruct IH as (st' & Hr & Hl' & Hn & Hs'); [reflexivity | lia | lia |].
        exists st'. simpl. split; [exact Hr |]. split; [exact Hl' |]. split; lia. }
    destruct (Hrun (initial_state (pg, 0))) as (st' & Hr & Hl' & Hn & Hs);
      [reflexivity | simpl; lia | simpl; lia |].
    destruct (timed_loop_clock limit _ st' Hr) as (Hclock & _).
    split.
    + unfold collectListingUrls. rewrite Hsame, Hr. cbn [snd untimed listingUrls].
      rewrite Hl'. unfold slice0. destruct (limit <? 0); by rewrite take_nil.
    + unfold waited. rewrite Hr. f_equal.
      rewrite Hn, Hs in Hclock. cbn [initial_state page scrollAttempts
                                     consecutiveNoNewUrls snd] in Hclock.
      unfold scroll_waits in Hclock. simpl in Hclock. lia.
Qed.

End ClockFacts.

(** A run of X13 on a page without any listing. *)
Lemma discovery_waiting_time_witness :
  Server.collectListingUrls Mock.stay (fun _ : nat => Mock.empty_page) S O 3 = Dom.Ok []
  /\ Clock.waited Mock.stay (fun _ : nat => Mock.empty_page) S O 3 = Some 32500.
Proof.
  apply (proj2 (discovery_waiting_time Mock.stay (fun _ : nat => Mock.empty_page) S O 3));
    [lia | intros p; reflexivity].
Defined.

(** ** The older variant: finding the listings and the session *)

Section OlderSessionFacts.
Import Js Dom CorrectCodeSession.
Local Open Scope list_scope.

(** [getListingsCount] counts the items [collectListings] works on. *)
Lemma getListingsCount_items (doc : Document) (selectors : list string) :
  getListingsCount_loop doc selectors = length (items_loop doc selectors).
Proof.
  induction selectors as [| s rest IH]; simpl; [reflexivity |].
  destruct (Nat.ltb 0 (length (doc_querySelectorAll doc s))); [reflexivity | exact IH].
Qed.

(** What the loop of [collectListings] adds: for items at the positions
    from [i] on, entries with a name and the position of their item, in
    the order of the positions. *)
Lemma collect_loop_spec (items : list Element) (i : nat)
    (listings : list CorrectCode.Listing) :
  exists added,
    collect_loop i items listings = listings ++ added
    /\ (length added <= length items)%nat
    /\ Forall (fun l =>
                 truthy (CorrectCode.name l) = true
                 /\ (i <= CorrectCode.index l)%nat
                 /\ exists item,
                      items !! (CorrectCode.index l - i)%nat = Some item
                      /\ item_name item = Some (CorrectCode.name l))
         added
    /\ StronglySorted lt (map CorrectCode.index added).
Proof.
  revert i listings. induction items as [| item rest IH]; intros i listings; simpl.
  - exists []. rewrite app_nil_r. repeat split; constructor.
  - match goal with |- context [collect_loop (S i) rest ?l] =>
      destruct (IH (S i) l) as (added & Heq & Hlen & Hall & Hsorted) end.
    assert (Hshift : Forall (fun l =>
                 truthy (CorrectCode.name l) = true
                 /\ (i <= CorrectCode.index l)%nat
                 /\ exists it,
                      (item :: rest) !! (CorrectCode.index l - i)%nat = Some it
                      /\ item_name it = Some (CorrectCode.name l)) added).
    { eapply Forall_impl; [exact Hall |]. intros l (Ht & Hi & it & Hit & Hn).
      split; [exact Ht |]. split; [lia |]. exists it. split; [| exact Hn].
      replace (CorrectCode.index l - i)%nat with (S (CorrectCode.index l - S i)) by lia.
      exact Hit. }
    destruct (item_name item) as [name |] eqn:Hname;
      [destruct (truthy name) eqn:Htruthy |].
    + exists (CorrectCode.mkListing name i :: added). rewrite Heq, <- app_assoc.
      split; [reflexivity |]. split; [simpl; lia |]. split.
      * constructor; [| exact Hshift]. simpl. split; [exact Htruthy |].
        split; [lia |]. exists item. rewrite Nat.sub_diag. split; [reflexivity | exact Hname].
      * simpl. constructor; [exact Hsorted |].
        apply Forall_map. eapply Forall_impl; [exact Hall |].
        intros l (_ & Hi & _). simpl. lia.
    + exists added. split; [exact Heq |]. split; [lia |]. split; assumption.
    + exists added. split; [exact Heq |]. split; [lia |]. split; assumption.
Qed.

Lemma sorted_before (before : list nat) (x : nat) (rest : list nat) :
  StronglySorted lt (before ++ x :: rest) -> Forall (fun y => (y < x)%nat) before.
Proof.
  induction before as [| a before IH]; simpl; [constructor |].
  intros H. apply StronglySorted_inv in H as [Hs Hall].
  constructor; [| by apply IH].
  rewrite Forall_app in Hall. destruct Hall as [_ Hall]. by apply Forall_inv in Hall.
Qed.

(** An item with a name gets its entry, whatever the loop held before. *)
Lemma collect_loop_complete (items : list Element) (i : nat)
    (listings : list CorrectCode.Listing) (k : nat) (item : Element) (name : string) :
  items !! k = Some item ->
  item_name item = Some name ->
  truthy name = true ->
  CorrectCode.mkListing name (i + k) ∈ collect_loop i items listings.
Proof.
  revert i listings k. induction items as [| first rest IH]; intros i listings k;
    [by rewrite lookup_nil |].
  destruct k as [| k]; cbn [collect_loop].
  - intros [= ->] Hname Htruthy. rewrite Hname, Htruthy, Nat.add_0_r.
    destruct (collect_loop_spec rest (S i)
                (listings ++ [CorrectCode.mkListing name i]))
      as (added & -> & _).
    apply elem_of_app. left. apply elem_of_app. right. apply list_elem_of_here.
  - intros Hitem Hname Htruthy. rewrite <- Nat.add_succ_comm.
    by eapply IH.
Qed.

(** X14. What the older [collectListings] returns: no more entries than
    the limit and than the items [getListingsCount] counts; every entry has
    a non-empty name, got from the item at the entry's index, which is below
    the limit; the indices increase strictly, so the entries keep the order
    of the page; and every item below the limit that has a non-empty name
    has its entry. Nothing is compared with anything: two items with the
    same name give two entries. *)
Theorem older_collectListings_shape (doc : Document) (maxResults : Z) :
  let listings := collectListings doc maxResults in
  Z.of_nat (length listings) <= Z.max 0 maxResults
  /\ (length listings <= getListingsCount doc)%nat
  /\ Forall (fun l =>
               truthy (CorrectCode.name l) = true
               /\ Z.of_nat (CorrectCode.index l) < maxResults
               /\ exists item,
                    items_loop doc itemSelectors !! CorrectCode.index l = Some item
                    /\ item_name item = Some (CorrectCode.name l))
       listings
  /\ StronglySorted lt (map CorrectCode.index listings)
  /\ (forall i item name,
        items_loop doc itemSelectors !! i = Some item ->
        Z.of_nat i < maxResults ->
        item_name item = Some name ->
        truthy name = true ->
        CorrectCode.mkListing name i ∈ listings)
  /\ (forall i j first second name,
        i <> j ->
        items_loop doc itemSelectors !! i = Some first ->
        items_loop doc itemSelectors !! j = Some second ->
        Z.of_nat i < maxResults -> Z.of_nat j < maxResults ->
        item_name first = Some name -> item_name second = Some name ->
        truthy name = true ->
        exists before between after,
          listings = before ++ CorrectCode.mkListing name (Nat.min i j)
                       :: between ++ CorrectCode.mkListing name (Nat.max i j)
                       :: after).
Proof.
  assert (Hcomplete : forall i item name,
             items_loop doc itemSelectors !! i = Some item ->
             Z.of_nat i < maxResults ->
             item_name item = Some name ->
             truthy name = true ->
             CorrectCode.mkListing name i ∈ collectListings doc maxResults).
  { intros i item name Hitem Hlt Hname Htruthy. unfold collectListings. cbv zeta.
    apply (collect_loop_complete _ O [] i item name); [| exact Hname | exact Htruthy].
    apply lookup_take_Some. split; [exact Hitem |].
    apply lookup_lt_Some in Hitem. lia. }
  assert (Hsorted : StronglySorted lt
                      (map CorrectCode.index (collectListings doc maxResults))).
  { unfold collectListings. cbv zeta.
    match goal with |- context [collect_loop O ?l []] =>
      destruct (collect_loop_spec l O []) as (added & Heq & _ & _ & Hs) end.
    by rewrite Heq, app_nil_l. }
  cbv zeta. split; [| split; [| split; [| split; [exact Hsorted |
                                                split; [exact Hcomplete |]]]]].
  - unfold collectListings.
    set (items := items_loop doc itemSelectors).
    set (n := Z.to_nat (Z.min (Z.of_nat (length items)) maxResults)).
    destruct (collect_loop_spec (take n items) O []) as (added & Heq & Hlen & _).
    cbv zeta. rewrite Heq, app_nil_l. rewrite length_take in Hlen. lia.
  - unfold collectListings, getListingsCount. rewrite getListingsCount_items.
    set (items := items_loop doc itemSelectors).
    set (n := Z.to_nat (Z.min (Z.of_nat (length items)) maxResults)).
    destruct (collect_loop_spec (take n items) O []) as (added & Heq & Hlen & _).
    cbv zeta. rewrite Heq, app_nil_l. rewrite length_take in Hlen. lia.
  - unfold collectListings.
    set (items := items_loop doc itemSelectors).
    set (n := Z.to_nat (Z.min (Z.of_nat (length items)) maxResults)).
    destruct (collect_loop_spec (take n items) O []) as (added & Heq & _ & Hall & _).
    cbv zeta. rewrite Heq, app_nil_l.
    eapply Forall_impl; [exact Hall |]. intros l (Ht & _ & item & Hitem & Hname).
    rewrite Nat.sub_0_r in Hitem.
    apply lookup_take_Some in Hitem as [Hitem Hlt].
    split; [exact Ht |]. split; [lia |]. eauto.
  - assert (Hpair : forall i j name,
               (i < j)%nat ->
               CorrectCode.mkListing name i ∈ collectListings doc maxResults ->
               CorrectCode.mkListing name j ∈ collectListings doc maxResults ->
               exists before between after,
                 collectListings doc maxResults
                 = before ++ CorrectCode.mkListing name i
                     :: between ++ CorrectCode.mkListing name j :: after).
    { intros i j name Hij Hi Hj.
      apply list_elem_of_split in Hi as (before & rest & Heq).
      rewrite Heq in Hj, Hsorted. rewrite Heq.
      rewrite map_app in Hsorted. simpl in Hsorted.
      apply elem_of_app in Hj as [Hj | Hj].
      - exfalso. apply sorted_before in Hsorted.
        rewrite Forall_forall in Hsorted.
        specialize (Hsorted j). simpl in Hsorted.
        assert (j < i)%nat; [| lia]. apply Hsorted.
        change j with (CorrectCode.index (CorrectCode.mkListing name j)).
        by apply list_elem_of_fmap_2.
      - apply elem_of_cons in Hj as [Hj | Hj]; [injection Hj; lia |].
        apply list_elem_of_split in Hj as (between & after & ->).
        by exists before, between, after. }
    intros i j first second name Hne Hi Hj Hli Hlj Hni Hnj Htruthy.
    pose proof (Hcomplete i first name Hi Hli Hni Htruthy) as Hini.
    pose proof (Hcomplete j second name Hj Hlj Hnj Htruthy) as Hinj.
    destruct (Nat.lt_total i j) as [Hlt | [Heq | Hgt]]; [| by destruct Hne |].
    + rewrite Nat.min_l, Nat.max_r by lia. by apply Hpair.
    + rewrite Nat.min_r, Nat.max_l by lia. by apply Hpair.
Qed.

End OlderSessionFacts.

Section OlderRunFacts.
Import Js Dom CorrectCodeSession.
Local Open Scope list_scope.
Variable throws : Call -> bool.
Variable cookie_button : nat -> bool.
Variable feed : nat -> bool.
Context {Page : Type}.
Variable document : Page -> Document.
Variable autoScroll : Page -> Page.
Variable results_page : Page.
Variable fails : nat -> CorrectCode.Step -> bool.
Variable clicks : nat -> nat -> bool.
Variable detail_document : nat -> Document.

Abbreviation rloop := (results_loop throws document autoScroll).
Abbreviation rbody := (scroll_body throws document autoScroll).
Abbreviation older_scrape :=
  (scrapeGoogleMaps throws cookie_button feed document autoScroll results_page
     fails clicks detail_document).

(** The scroll loop, one step unfolded. *)
Lemma results_loop_step (limit : Z) (st : ScrollState) :
  rloop limit st =
    if scroll_cond limit st then
      match rbody st with
      | Ok st' => rloop limit st'
      | Throw e => Throw e
      end
    else Ok st.
Proof.
  funelim (rloop limit st).
  all: try match goal with H : scroll_cond _ _ = _ |- _ => rewrite H end;
    try match goal with H : scroll_body _ _ _ _ = _ |- _ => rewrite H end;
    reflexivity.
Qed.

Lemma scroll_body_attempts (st st' : @ScrollState Page) :
  rbody st = Ok st' ->
  scrollAttempts st' = S (scrollAttempts st)
  /\ previousCount st' = listingsCount st
  /\ page st' = autoScroll (page st)
  /\ listingsCount st' = getListingsCount (document (page st')).
Proof.
  unfold scroll_body, and_then, count_listings, call.
  destruct (throws (AutoScroll _)); [discriminate |].
  destruct (throws (CountListings _)); [discriminate |].
  intros [= <-]. repeat split.
Qed.

(** X15. The older scroll loop scrolls at most 20 times, and when it is
    over the limit is reached, or 20 scrolls are used up, or the last
    scroll left the count as it was. The count before the first scroll is
    compared with 0: a results page on which nothing is counted at first is
    never scrolled. *)
Theorem older_results_loop_exit (limit : Z) (st st' : @ScrollState Page) :
  (scrollAttempts st <= maxScrollAttempts)%nat ->
  rloop limit st = Ok st' ->
  (scrollAttempts st <= scrollAttempts st' <= maxScrollAttempts)%nat
  /\ (limit <= Z.of_nat (listingsCount st')
      \/ scrollAttempts st' = maxScrollAttempts
      \/ listingsCount st' = previousCount st')
  /\ (listingsCount st = previousCount st -> st' = st).
Proof.
  intros Hsa Hrun.
  assert (Hgen : forall n (s : @ScrollState Page),
             (maxScrollAttempts - scrollAttempts s <= n)%nat ->
             (scrollAttempts s <= maxScrollAttempts)%nat ->
             rloop limit s = Ok st' ->
             (scrollAttempts s <= scrollAttempts st' <= maxScrollAttempts)%nat
             /\ scroll_cond limit st' = false).
  { induction n as [| n IH]; intros s Hn Hs Hr; rewrite results_loop_step in Hr;
      destruct (scroll_cond limit s) eqn:Hcond.
    - unfold scroll_cond in Hcond. apply andb_prop in Hcond as [Hcond _].
      apply andb_prop in Hcond as [_ Hlt]. apply Nat.ltb_lt in Hlt. lia.
    - injection Hr as <-. split; [lia | exact Hcond].
    - destruct (rbody s) as [s1 |] eqn:Hbody; [| discriminate].
      destruct (scroll_body_attempts s s1 Hbody) as (Hs1 & _).
      unfold scroll_cond in Hcond. apply andb_prop in Hcond as [Hcond _].
      apply andb_prop in Hcond as [_ Hlt]. apply Nat.ltb_lt in Hlt.
      destruct (IH s1) as [Hle Hexit]; [lia | lia | exact Hr |].
      split; [lia | exact Hexit].
    - injection Hr as <-. split; [lia | exact Hcond]. }
  destruct (Hgen _ st (Nat.le_refl _) Hsa Hrun) as [Hle Hexit].
  split; [exact Hle |]. split.
  - unfold scroll_cond in Hexit.
    destruct (Z.ltb_spec (Z.of_nat (listingsCount st')) limit); [| by left].
    destruct (Nat.ltb_spec (scrollAttempts st') maxScrollAttempts);
      [| right; left; lia].
    destruct (Nat.eqb_spec (listingsCount st') (previousCount st'));
      [by right; right | discriminate].
  - intros Hsame. rewrite results_loop_step in Hrun.
    unfold scroll_cond in Hrun. rewrite Hsame, Nat.eqb_refl, !andb_false_r in Hrun.
    by injection Hrun as <-.
Qed.

(** X16. In the older variant the page is opened and configured before
    the [try] whose [finally] closes the browser: the browser is left
    running exactly when the launch went through and [newPage],
    [setUserAgent] or [setExtraHTTPHeaders] threw, and the call then ends
    with that exception; the page is left open with it when it was one of
    the last two that threw. On every other path no browser runs and no
    page is open. *)
Theorem older_setup_failure_leaves_browser (searchQuery : string) (limit : Z) :
  let outcome :=
    scrapeGoogleMaps throws cookie_button feed document autoScroll results_page
      fails clicks detail_document searchQuery limit in
  Server.running (fst outcome) =
    negb (throws Launch)
    && (throws NewPage || throws SetUserAgent || throws SetExtraHTTPHeaders)
  /\ Server.open_pages (fst outcome) =
       (if negb (throws Launch) && negb (throws NewPage)
           && (throws SetUserAgent || throws SetExtraHTTPHeaders)
        then [O] else [])
  /\ (Server.running (fst outcome) = true -> exists e, snd outcome = Throw e)
  /\ (throws Launch = false -> throws NewPage = false ->
      throws SetUserAgent = false -> throws SetExtraHTTPHeaders = false ->
      outcome =
        (Server.mkBrowser false [] 1,
         session throws cookie_button feed document autoScroll results_page
           fails clicks detail_document limit)).
Proof.
  cbv zeta. unfold scrapeGoogleMaps, setup, newPage, and_then, call.
  destruct (throws Launch); simpl;
    [split; [reflexivity | split; [reflexivity | split; discriminate]] |].
  destruct (throws NewPage); simpl;
    [split; [reflexivity | split; [reflexivity | split; [eauto | discriminate]]] |].
  destruct (throws SetUserAgent); simpl;
    [split; [reflexivity | split; [reflexivity | split; [eauto | discriminate]]] |].
  destruct (throws SetExtraHTTPHeaders); simpl;
    [split; [reflexivity | split; [reflexivity | split; [eauto | discriminate]]] |].
  split; [reflexivity | split; [reflexivity | split; [discriminate | reflexivity]]].
Qed.

(** X17. In the older variant, when the search phase goes through and
    nothing is counted on the results page at first, the scrape ends with
    no record and the browser closed, without a scroll: it does so even in
    a world where every scroll would throw. *)
Theorem older_nothing_counted_nothing_scraped (searchQuery : string) (limit : Z) :
  (forall c, (forall n, c <> AutoScroll n) -> (forall k, c <> CookieQuery k) ->
             c <> CookieClick -> c <> CookieWait -> throws c = false) ->
  getListingsCount (document results_page) = O ->
  older_scrape searchQuery limit = (Server.mkBrowser false [] 1, Ok []).
Proof.
  intros Hcalls Hcount.
  assert (Hcall : forall c, (forall n, c <> AutoScroll n) ->
                            (forall k, c <> CookieQuery k) ->
                            c <> CookieClick -> c <> CookieWait ->
                            call throws c = Ok tt).
  { intros c H1 H2 H3 H4. unfold call. by rewrite Hcalls. }
  assert (Hfeed : forall count k,
             exists r, feed_loop throws feed k count = Ok r).
  { induction count as [| count IH]; intros k; simpl; [eauto |].
    rewrite Hcall by discriminate. simpl. destruct (feed k); eauto. }
  unfold scrapeGoogleMaps, setup, newPage. rewrite !Hcalls by discriminate.
  rewrite !Hcall by discriminate. cbn [and_then Server.close_browser Server.next_handle].
  unfold session, find_listings.
  rewrite !Hcall by discriminate. cbn [and_then].
  destruct (Hfeed 5%nat O) as [r ->]. cbn [and_then].
  assert (Hshot : match r with
                  | Some _ => Ok tt
                  | None => @Ok unit tt
                  end = Ok tt) by (by destruct r).
  rewrite Hshot. cbn [and_then].
  unfold count_listings at 1. rewrite Hcall by discriminate. cbn [and_then].
  rewrite Hcount, results_loop_step.
  unfold scroll_cond. cbn [listingsCount previousCount]. rewrite !andb_false_r.
  cbn [and_then page snd].
  unfold collectListings.
  unfold getListingsCount in Hcount. rewrite getListingsCount_items in Hcount.
  destruct (items_loop (document results_page) itemSelectors); [| discriminate].
  rewrite take_nil. reflexivity.
Qed.

End OlderRunFacts.

(** A run of X15 on the mock feed, which shows three links until it has
    been scrolled twice: with a limit of 10 the loop scrolls once, counts
    three again and stops. *)
Lemma older_results_loop_exit_witness :
  let st := CorrectCodeSession.mkScrollState 3 0 0 O in
  let st' := CorrectCodeSession.mkScrollState 3 3 1 1%nat in
  CorrectCodeSession.results_loop Scenario.nothing_throws Mock.feed S 10 st = Dom.Ok st'
  /\ (0 <= 1 <= CorrectCodeSession.maxScrollAttempts)%nat
  /\ (10 <= Z.of_nat 3 \/ 1%nat = CorrectCodeSession.maxScrollAttempts \/ 3%nat = 3%nat)
  /\ (3%nat = 0%nat -> st' = st).
Proof.
  assert (Hrun : CorrectCodeSession.results_loop Scenario.nothing_throws Mock.feed S 10
                   (CorrectCodeSession.mkScrollState 3 0 0 O)
                 = Dom.Ok (CorrectCodeSession.mkScrollState 3 3 1 1%nat))
    by (vm_compute; reflexivity).
  split; [exact Hrun |].
  apply (older_results_loop_exit Scenario.nothing_throws Mock.feed S 10
           (CorrectCodeSession.mkScrollState 3 0 0 O)
           (CorrectCodeSession.mkScrollState 3 3 1 1%nat));
    [unfold CorrectCodeSession.maxScrollAttempts; simpl; lia | exact Hrun].
Defined.

(** A run of X17 on a page without any listing, in a world where every
    scroll would throw. *)
Lemma older_nothing_counted_nothing_scraped_witness :
  CorrectCodeSession.scrapeGoogleMaps Scenario.scrolls_throw Scenario.no_button
    Scenario.first_feed (fun _ : nat => Mock.empty_page) S O Scenario.steps_pass
    Scenario.first_click (fun _ => Mock.full_page) "coffee shops in Seattle" 5
  = (Server.mkBrowser false [] 1, Dom.Ok []).
Proof.
  apply (older_nothing_counted_nothing_scraped Scenario.scrolls_throw
           Scenario.no_button Scenario.first_feed (fun _ : nat => Mock.empty_page) S O
           Scenario.steps_pass Scenario.first_click (fun _ => Mock.full_page)).
  - intros c Hscroll _ _ _. destruct c; try reflexivity.
    exfalso. by eapply Hscroll.
  - reflexivity.
Defined.

(** ** More on the export *)

Section ExportFacts.
Import Js Dom Server ExportRoute.
Local Open Scope list_scope.

Lemma cells_length (keys : list string) (record : gmap string string) :
  length (cells keys record) = length keys.
Proof. unfold cells. apply length_map. Qed.

(** X18. For every result, the CSV of the older variant is the CSV of the
    serverless variant with the last two columns cut off, header included:
    the price range and the attributes are dropped from every row. *)
Theorem older_csv_is_newer_csv_cut (data : list (gmap string string)) :
  CorrectCode.exportToCSV data = map (take 9) (Server.exportToCSV data)
  /\ Forall (fun row => length row = 9%nat) (CorrectCode.exportToCSV data)
  /\ Forall (fun row => length row = 11%nat) (Server.exportToCSV data).
Proof.
  unfold CorrectCode.exportToCSV, Server.exportToCSV. split; [| split].
  - simpl. f_equal. rewrite map_map. apply map_ext. intros record.
    unfold cells. rewrite firstn_map. reflexivity.
  - constructor; [reflexivity |]. apply Forall_map, Forall_forall.
    intros record _. by rewrite cells_length.
  - constructor; [reflexivity |]. apply Forall_map, Forall_forall.
    intros record _. by rewrite cells_length.
Qed.

(** X19. When [/api/export] sends a file, the request had data and one of
    the three formats, written in lower case; the file name is
    google_maps_data with the format as its extension; a JSON file holds
    the records as they came; and a sheet or a CSV has one header row and
    one row of eleven cells for each record, with the same cells in both. *)
Theorem export_file_matches_request (throws : string -> bool) (req : ExportRequest)
    (contentType filename : string) (payload : Payload) :
  api_export throws req = File contentType filename payload ->
  exists records fmt,
    data req = Some records /\ format req = Some fmt
    /\ fmt ∈ [ "xlsx"; "csv"; "json" ]
    /\ throws fmt = false
    /\ filename = ("google_maps_data." ++ fmt)%string
    /\ match payload with
       | Json sent => fmt = "json" /\ sent = records
       | Workbook rows =>
           fmt = "xlsx" /\ length rows = S (length records)
           /\ tail rows = map (cells fields) records
       | Csv rows =>
           fmt = "csv" /\ length rows = S (length records)
           /\ tail rows = map (cells fields) records
       end.
Proof.
  unfold api_export, send. cbn [is_string].
  destruct (data req) as [records |]; [| discriminate].
  destruct (format req) as [fmt |]; [| discriminate].
  destruct (truthy fmt); [| discriminate]. cbn [negb].
  intros H. exists records, fmt. split; [reflexivity |]. split; [reflexivity |].
  destruct (String.eqb fmt "xlsx") eqn:Exlsx.
  { apply String.eqb_eq in Exlsx. subst fmt.
    destruct (throws "xlsx") eqn:Ht; [discriminate |]. injection H as <- <- <-.
    split; [repeat constructor |]. split; [auto |]. split; [reflexivity |].
    split; [reflexivity |]. unfold exportToExcel. simpl. rewrite length_map. auto. }
  destruct (String.eqb fmt "csv") eqn:Ecsv.
  { apply String.eqb_eq in Ecsv. subst fmt.
    destruct (throws "csv") eqn:Ht; [discriminate |]. injection H as <- <- <-.
    split; [repeat constructor |]. split; [auto |]. split; [reflexivity |].
    split; [reflexivity |]. unfold exportToCSV. simpl. rewrite length_map. auto. }
  destruct (String.eqb fmt "json") eqn:Ejson; [| discriminate].
  apply String.eqb_eq in Ejson. subst fmt.
  destruct (throws "json") eqn:Ht; [discriminate |]. injection H as <- <- <-.
  split; [repeat constructor |]. split; [auto |]. split; [reflexivity |].
  split; reflexivity.
Qed.

End ExportFacts.

(** A run of X19: one record exported as CSV. *)
Lemma export_file_matches_request_witness :
  exists records fmt,
    ExportRoute.data
      (ExportRoute.mkExportRequest (Some [ Mock.full_record ]) (Some "csv"))
      = Some records
    /\ ExportRoute.format
         (ExportRoute.mkExportRequest (Some [ Mock.full_record ]) (Some "csv"))
       = Some fmt
    /\ fmt ∈ [ "xlsx"; "csv"; "json" ]
    /\ (fun _ : string => false) fmt = false
    /\ "google_maps_data.csv" = ("google_maps_data." ++ fmt)%string
    /\ (fmt = "csv"
        /\ length (Server.exportToCSV [ Mock.full_record ]) = S (length records)
        /\ tail (Server.exportToCSV [ Mock.full_record ])
           = map (Server.cells Server.fields) records).
Proof.
  exact (export_file_matches_request (fun _ => false)
           (ExportRoute.mkExportRequest (Some [ Mock.full_record ]) (Some "csv"))
           "text/csv; charset=utf-8" "google_maps_data.csv"
           (ExportRoute.Csv (Server.exportToCSV [ Mock.full_record ])) eq_refl).
Defined.

(** ** The page script *)

Section AppFacts.
Import Js Lang App.
Local Open Scope list_scope.

Lemma replace_all_cons (c d : ascii) (r s : string) :
  replace_all c r (String d s) =
    if Ascii.eqb d c then (r ++ replace_all c r s)%string
    else String d (replace_all c r s).
Proof. reflexivity. Qed.

Lemma replace_all_append (c : ascii) (r a b : string) :
  replace_all c r (a ++ b) = (replace_all c r a ++ replace_all c r b)%string.
Proof.
  induction a as [| d a IH]; [reflexivity |].
  rewrite append_cons, !replace_all_cons, IH.
  destruct (Ascii.eqb d c); [by rewrite append_assoc' | by rewrite append_cons].
Qed.

(** The five replacements, made one after the other over the whole text,
    escape each code unit once. *)
Lemma escapeHtml_cons (c : ascii) (s : string) :
  escapeHtml (String c s) = (escape_char c ++ escapeHtml s)%string.
Proof.
  unfold escapeHtml, escape_char.
  rewrite (replace_all_cons "&").
  destruct (Ascii.eqb_spec c "&") as [-> | Hamp].
  { rewrite !replace_all_append. reflexivity. }
  rewrite (replace_all_cons "<").
  destruct (Ascii.eqb_spec c "<") as [-> | Hlt].
  { rewrite !replace_all_append. reflexivity. }
  rewrite (replace_all_cons ">").
  destruct (Ascii.eqb_spec c ">") as [-> | Hgt].
  { rewrite !replace_all_append. reflexivity. }
  rewrite (replace_all_cons double_quote).
  destruct (Ascii.eqb_spec c double_quote) as [-> | Hdq].
  { rewrite !replace_all_append. reflexivity. }
  rewrite (replace_all_cons "'").
  destruct (Ascii.eqb_spec c "'") as [-> | Hq]; reflexivity.
Qed.

Lemma escape_char_clean (c : ascii) :
  all_chars (fun d => negb (markup d)) (escape_char c) = true.
Proof.
  unfold escape_char.
  destruct (Ascii.eqb_spec c "&"); [reflexivity |].
  destruct (Ascii.eqb c "<") eqn:Hlt; [reflexivity |].
  destruct (Ascii.eqb c ">") eqn:Hgt; [reflexivity |].
  destruct (Ascii.eqb c double_quote) eqn:Hdq; [reflexivity |].
  destruct (Ascii.eqb c "'") eqn:Hq; [reflexivity |].
  simpl. unfold markup. by rewrite Hlt, Hgt, Hdq, Hq.
Qed.

Lemma escapeHtml_each (s : string) : escapeHtml s = escape_each s.
Proof.
  induction s as [| c s IH]; [reflexivity |].
  rewrite escapeHtml_cons, IH. reflexivity.
Qed.

Lemma escapeHtml_clean (s : string) :
  all_chars (fun c => negb (markup c)) (escapeHtml s) = true.
Proof.
  rewrite escapeHtml_each. induction s as [| c s IH]; [reflexivity |]. simpl.
  rewrite all_chars_append, escape_char_clean, IH. reflexivity.
Qed.

(** X20. [escapeHtml] escapes each code unit exactly once, although it
    makes five passes: the ampersands are replaced first, so those of the
    entities written by the later passes are not escaped again. Its result
    holds none of the characters less-than, greater-than, double quote and
    apostrophe, and a text without these and without an ampersand comes
    back unchanged. *)
Theorem escapeHtml_escapes_once (unsafe : string) :
  escapeHtml unsafe = escape_each unsafe
  /\ all_chars (fun c => negb (markup c)) (escapeHtml unsafe) = true
  /\ (all_chars (fun c => negb (markup c) && negb (Ascii.eqb c "&")) unsafe = true ->
      escapeHtml unsafe = unsafe).
Proof.
  split; [apply escapeHtml_each |]. split; [apply escapeHtml_clean |].
  rewrite escapeHtml_each.
  - induction unsafe as [| c s IH]; [reflexivity |]. simpl.
    intros H. apply andb_prop in H as [Hc Hs]. rewrite (IH Hs).
    apply andb_prop in Hc as [Hm Hamp]. unfold markup in Hm. unfold escape_char.
    destruct (Ascii.eqb c "&"); [discriminate |].
    destruct (Ascii.eqb c "<"); [discriminate |].
    destruct (Ascii.eqb c ">"); [discriminate |].
    destruct (Ascii.eqb c double_quote); [discriminate |].
    destruct (Ascii.eqb c "'"); [discriminate | reflexivity].
Qed.

Lemma or_NA_truthy (v : option string) : truthy (or_NA v) = true.
Proof. unfold or_NA. destruct v as [[| c s] |]; reflexivity. Qed.

Lemma escapeHtml_truthy (s : string) : truthy s = true -> truthy (escapeHtml s) = true.
Proof.
  destruct s as [| c s]; [discriminate |]. intros _.
  rewrite escapeHtml_cons. unfold escape_char.
  repeat match goal with |- context [Ascii.eqb c ?d] => destruct (Ascii.eqb c d) end;
    reflexivity.
Qed.

Lemma rows_from_lookup (data : list (gmap string string)) (index i : nat)
    (item : gmap string string) :
  data !! i = Some item ->
  rows_from index data !! i = Some (Item (row_cells (index + i) item)).
Proof.
  revert index i. induction data as [| d data IH]; intros index i; [discriminate |].
  destruct i as [| i]; simpl.
  - intros [= ->]. by rewrite Nat.add_0_r.
  - intros H. rewrite (IH (S index) i H). do 3 f_equal. lia.
Qed.

Lemma rows_from_length (data : list (gmap string string)) (index : nat) :
  length (rows_from index data) = length data.
Proof.
  revert index. induction data as [| d data IH]; intros index; simpl;
    [reflexivity | by rewrite IH].
Qed.

(** X21. The table [displayResults] builds: one placeholder row for an
    empty result; else one row for each record, in order, numbered from 1,
    of nine cells. The seven text cells are never empty (a field that is
    missing or empty shows as N/A) and hold no markup character, whatever
    the record holds. The website cell is N/A or a link whose target is the
    escaped website. *)
Theorem displayResults_table (data : list (gmap string string)) :
  (data = [] -> displayResults data = [ NoResults ])
  /\ (data <> [] ->
      length (displayResults data) = length data
      /\ forall i item,
           data !! i = Some item ->
           exists name category address phone website email rating reviews,
             displayResults data !! i =
               Some (Item [ Number (i + 1); Html name; Html category; Html address;
                            Html phone; Html website; Html email; Html rating;
                            Html reviews ])
             /\ Forall (fun text =>
                          truthy text = true
                          /\ all_chars (fun c => negb (markup c)) text = true)
                  [ name; category; address; phone; email; rating; reviews ]
             /\ website = website_cell (item !! "website")
             /\ (website = "N/A"
                 \/ exists target,
                      item !! "website" = Some target
                      /\ all_chars (fun c => negb (markup c)) (escapeHtml target) = true
                      /\ website =
                           ("<a href=" ++ quoted (escapeHtml target)
                            ++ " target=" ++ quoted "_blank"
                            ++ " class=" ++ quoted "btn btn-sm btn-outline-primary"
                            ++ ">Visit</a>")%string)).
Proof.
  split; [intros ->; reflexivity |].
  intros Hne. unfold displayResults.
  destruct data as [| d data]; [congruence |]. cbn [length Nat.eqb].
  split; [apply (rows_from_length (d :: data)) |].
  intros i item Hitem.
  do 8 eexists. split; [exact (rows_from_lookup (d :: data) O i item Hitem) |].
  split.
  - repeat constructor;
      first [ apply escapeHtml_truthy, or_NA_truthy
            | apply escapeHtml_clean ].
  - split; [reflexivity |]. unfold website_cell.
    destruct (item !! "website") as [target |]; [| by left]. simpl.
    destruct (truthy target && negb (String.eqb target "N/A")); [| by left].
    right. exists target. split; [reflexivity |].
    split; [apply escapeHtml_clean | reflexivity].
Qed.

End AppFacts.
